(** * languageFeatures.ts: the adapters between the editor and the
      TypeScript language service

    A shallow embedding of [src/languageFeatures.ts] and the properties of
    its adapters: outline flattening, completion merging and resolution,
    hover precedence, signature help, highlights, definitions, references,
    formatting edits, the validation pass and the debounced diagnostics
    life cycle.

    Conventions.
    - JavaScript numbers that hold columns, offsets and lengths are [Z].
    - JavaScript strings are [string]; the embedding coincides with the
      source on ASCII text (one [ascii] per UTF-16 code unit).
    - A value that may be [undefined] or [null] is an [option].
    - A callback that can raise a TypeError returns a [result].
    - The language service (the worker) is an oracle answering requests; a
      provider is a computation in the [Svc] monad, which records every
      request sent to the worker next to the value the promise settles to.
      Cancellation of a pending promise is not modelled.
    - The diagnostics adapter is a state machine over the events of the
      editor, with explicit time for its timers.

    The embedding comes first, then the reference definitions and examples
    the statements use, then the statements with their proofs. *)

From Stdlib Require Import ZArith Ascii String List Lia Bool.
From stdpp Require Import gmap strings list fin_maps.

Local Open Scope Z_scope.
Set Warnings "-register-all".

(* ===================================================================== *)
(** * JavaScript strings *)
(* ===================================================================== *)

Module JS.

(** [s.length] *)
Definition length (s : string) : Z := Z.of_nat (String.length s).

(** [s.substr(start, len)]: a negative [start] counts from the end, the
    length is clamped to what is left of the string. *)
Definition substr (s : string) (start len : Z) : string :=
  let size := length s in
  let st := if start <? 0 then Z.max (size + start) 0 else Z.min start size in
  let n := Z.min (Z.max len 0) (size - st) in
  String.substring (Z.to_nat st) (Z.to_nat n) s.

(** [s.substr(start)] *)
Definition substr_from (s : string) (start : Z) : string :=
  substr s start (length s).

(** [s.indexOf(t)]: the position of the first occurrence, or -1. *)
Definition indexOf (s t : string) : Z :=
  match String.index 0 t s with
  | Some i => Z.of_nat i
  | None => -1
  end.

(** [s.split(sep)] for a separator of one character. *)
Fixpoint split (sep : ascii) (s : string) : list string :=
  match s with
  | EmptyString => [EmptyString]
  | String c s' =>
      if Ascii.eqb c sep then EmptyString :: split sep s'
      else match split sep s' with
           | [] => [String c EmptyString]
           | w :: ws => String c w :: ws
           end
  end.

(** [parts.join(sep)] *)
Fixpoint join (sep : string) (parts : list string) : string :=
  match parts with
  | [] => EmptyString
  | [p] => p
  | p :: ps => p +:+ sep +:+ join sep ps
  end.

(** White space and line terminators removed by [trim] (the ASCII ones). *)
Definition isWhiteSpace (c : ascii) : bool :=
  let n := nat_of_ascii c in
  ((9 <=? n) && (n <=? 13))%nat || (n =? 32)%nat.

Fixpoint all_chars (p : ascii -> bool) (s : string) : bool :=
  match s with
  | EmptyString => true
  | String c s' => p c && all_chars p s'
  end.

(** [s.trim() != ""] *)
Definition trim_nonempty (s : string) : bool := negb (all_chars isWhiteSpace s).

(** Truthiness of a string: the empty string is falsy. *)
Definition truthy (s : string) : bool :=
  match s with EmptyString => false | _ => true end.

Definition tab : string := String (ascii_of_nat 9) EmptyString.
Definition newline : string := String (ascii_of_nat 10) EmptyString.

End JS.

(* ===================================================================== *)
(** * Results of callbacks that may throw *)
(* ===================================================================== *)

Inductive result (A : Type) : Type :=
| Ok (a : A)
| TypeError.
Arguments Ok {A} a.
Arguments TypeError {A}.

Definition rbind {A B} (r : result A) (k : A -> result B) : result B :=
  match r with
  | Ok a => k a
  | TypeError => TypeError
  end.

Declare Scope result_scope.
Delimit Scope result_scope with result.
Notation "x <- r ;; k" := (rbind r (fun x => k))
  (at level 100, r at next level, right associativity) : result_scope.

(** Reading a property of a value that is [undefined] raises a TypeError. *)
Definition deref {A} (o : option A) : result A :=
  match o with
  | Some a => Ok a
  | None => TypeError
  end.

(* ===================================================================== *)
(** * Data of the editor (monaco) and of the language service (ts) *)
(* ===================================================================== *)

(** [monaco.Uri], identified with its [toString()]. *)
Definition Uri := string.

Record Position := mkPosition { lineNumber : Z; column : Z }.

Record IRange := mkRange {
  startLineNumber : Z;
  startColumn : Z;
  endLineNumber : Z;
  endColumn : Z
}.

Record IWordAtPosition := mkWord {
  word : string;
  word_startColumn : Z;
  word_endColumn : Z
}.

(** [monaco.editor.IReadOnlyModel]: the part of the interface the adapters
    call. *)
Record IModel := mkModel {
  model_uri : Uri;
  getModeId : string;
  getValue : string;
  getLineContent : Z -> string;
  getOffsetAt : Position -> Z;
  getPositionAt : Z -> Position;
  getWordAtPosition : Position -> option IWordAtPosition;
  getWordUntilPosition : Position -> IWordAtPosition
}.

(** [monaco.editor.getModel]: the registry of open documents. *)
Definition Editor := Uri -> option IModel.

(** [ts.TextSpan] *)
Record TextSpan := mkSpan { span_start : Z; span_length : Z }.

(** [ts.SymbolDisplayPart[]]; [None] stands for a missing array. *)
Record SymbolDisplayPart := mkPart { part_text : string; part_kind : string }.
Definition DisplayParts := option (list SymbolDisplayPart).

(** [Kind]: the kind strings of the language service. *)
Module Kind.
Definition unknown : string := "".
Definition keyword : string := "keyword".
Definition script : string := "script".
Definition module : string := "module".
Definition class : string := "class".
Definition interface : string := "interface".
Definition type : string := "type".
Definition enum : string := "enum".
Definition variable : string := "var".
Definition localVariable : string := "local var".
Definition function : string := "function".
Definition localFunction : string := "local function".
Definition memberFunction : string := "method".
Definition memberGetAccessor : string := "getter".
Definition memberSetAccessor : string := "setter".
Definition memberVariable : string := "property".
Definition constructorImplementation : string := "constructor".
Definition callSignature : string := "call".
Definition indexSignature : string := "index".
Definition constructSignature : string := "construct".
Definition parameter : string := "parameter".
Definition typeParameter : string := "type parameter".
Definition primitiveType : string := "primitive type".
Definition label : string := "label".
Definition alias : string := "alias".
Definition const : string := "const".
Definition let_ : string := "let".
Definition warning : string := "warning".
End Kind.

(** [monaco.languages.SymbolKind], the members the outline uses. *)
Inductive SymbolKind :=
| SK_Module | SK_Class | SK_Enum | SK_Interface | SK_Method | SK_Property
| SK_Variable | SK_Function.

(** [monaco.languages.CompletionItemKind], the members [convertKind] uses. *)
Inductive CompletionItemKind :=
| CIK_Keyword | CIK_Variable | CIK_Field | CIK_Function | CIK_Enum
| CIK_Module | CIK_Class | CIK_Interface | CIK_File | CIK_Property.

(** [ts.NavigationBarItem]: a node of the symbol tree. [childItems] may be
    missing, [spans] is an array. *)
Inductive NavigationBarItem :=
| NavItem (text : string) (kind : string) (spans : list TextSpan)
          (childItems : option (list NavigationBarItem)).

Definition nav_text (i : NavigationBarItem) : string :=
  match i with NavItem t _ _ _ => t end.
Definition nav_kind (i : NavigationBarItem) : string :=
  match i with NavItem _ k _ _ => k end.
Definition nav_spans (i : NavigationBarItem) : list TextSpan :=
  match i with NavItem _ _ s _ => s end.
Definition nav_childItems (i : NavigationBarItem) : option (list NavigationBarItem) :=
  match i with NavItem _ _ _ c => c end.

(** [monaco.languages.Location] and [monaco.languages.SymbolInformation] *)
Record Location := mkLocation { loc_uri : Uri; loc_range : IRange }.

Record SymbolInformation := mkSymbol {
  sym_name : string;
  sym_kind : SymbolKind;
  sym_location : Location;
  sym_containerName : option string
}.

(** [ts.NavigateToItem]: a result of the fuzzy symbol search. *)
Record NavigateToItem := mkNavigateTo {
  nt_name : string;
  nt_kind : string;
  nt_kindModifiers : string;
  nt_fileName : string;
  nt_textSpan : TextSpan;
  nt_containerName : string
}.

(** [ts.CompletionEntry] and [ts.CompletionInfo] *)
Record CompletionEntry := mkEntry {
  ce_name : string;
  ce_kind : string;
  ce_sortText : string
}.

Record CompletionInfo := mkInfo { entries : list CompletionEntry }.

(** [ts.CompletionEntryDetails] *)
Record CompletionEntryDetails := mkDetails {
  det_name : string;
  det_kind : string;
  det_displayParts : DisplayParts;
  det_documentation : DisplayParts
}.

(** [ts.QuickInfo] *)
Record QuickInfo := mkQuickInfo {
  qi_textSpan : TextSpan;
  qi_displayParts : DisplayParts
}.

(** [ts.SignatureHelpParameter], [ts.SignatureHelpItem],
    [ts.SignatureHelpItems] *)
Record SignatureHelpParameter := mkParameter {
  par_documentation : DisplayParts;
  par_displayParts : DisplayParts
}.

Record SignatureHelpItem := mkSigItem { parameters : list SignatureHelpParameter }.

Record SignatureHelpItems := mkSigItems {
  items : list SignatureHelpItem;
  applicableSpan : TextSpan;
  selectedItemIndex : Z;
  argumentIndex : Z;
  argumentCount : Z
}.

(** [monaco.languages.Hover] *)
Record Hover := mkHover { hover_range : IRange; hover_contents : list string }.

(** [MyCompletionItem]: a completion candidate. A field the object literal
    does not set is [None]. [insertText] is [{value: ...}], or [null]
    after a resolution that skips the code snippet. *)
Inductive InsertText :=
| SnippetValue (value : string)
| InsertNull.

Record MyCompletionItem := mkItem {
  uri : Uri;
  position : Position;
  label : string;
  name : string;
  sortText : option string;
  filterText : option string;
  kind : CompletionItemKind;
  containerName : option string;
  navigation : option NavigateToItem;
  skipCodeSnippet : bool;
  insertText : option InsertText;
  range : option IRange;
  detail : option string;
  documentation : option string
}.

(* ===================================================================== *)
(** * The language service as a request oracle *)
(* ===================================================================== *)

(** The requests the adapters send to [TypeScriptWorker]. *)
Inductive Request :=
| GetCompletionsAtPosition (fileName : string) (offset : Z)
| GetNavigateToItems (search : string)
| GetCompletionEntryDetailsAndSnippet (fileName : string) (offset : Z)
    (name label : string)
| GetCompletionEntryDetails (fileName : string) (offset : Z) (name : string)
| GetQuickInfoAtPosition (fileName : string) (offset : Z)
| GetSignatureHelpItems (fileName : string) (offset : Z)
| GetNavigationBarItems (fileName : string).

(** The worker: what each request resolves to. *)
Record TypeScriptWorker := mkWorker {
  getCompletionsAtPosition : string -> Z -> option CompletionInfo;
  getNavigateToItems : string -> option (list NavigateToItem);
  getCompletionEntryDetailsAndSnippet :
    string -> Z -> string -> string ->
    option (option CompletionEntryDetails * string);
  getCompletionEntryDetails : string -> Z -> string -> option CompletionEntryDetails;
  getQuickInfoAtPosition : string -> Z -> option QuickInfo;
  getSignatureHelpItems : string -> Z -> option SignatureHelpItems;
  getNavigationBarItems : string -> option (list NavigationBarItem)
}.

(** The outcome of a provider: the requests it sent, in order, and what its
    promise settles to ([TypeError]: rejected). *)
Record Outcome (A : Type) := mkOutcome {
  requests : list Request;
  settled : result A
}.
Arguments mkOutcome {A} _ _.
Arguments requests {A} _.
Arguments settled {A} _.

Definition Svc (A : Type) : Type := TypeScriptWorker -> Outcome A.

Definition ret {A} (a : A) : Svc A := fun _ => mkOutcome [] (Ok a).

Definition lift {A} (r : result A) : Svc A := fun _ => mkOutcome [] r.

Definition bind {A B} (m : Svc A) (k : A -> Svc B) : Svc B :=
  fun w =>
    let o := m w in
    match settled o with
    | Ok a => let o' := k a w in mkOutcome (requests o ++ requests o') (settled o')
    | TypeError => mkOutcome (requests o) TypeError
    end.

(** [worker.method(args)]: log the request and return the worker's answer. *)
Definition call {A} (req : Request) (answer : TypeScriptWorker -> A) : Svc A :=
  fun w => mkOutcome [req] (Ok (answer w)).

Declare Scope svc_scope.
Delimit Scope svc_scope with svc.
Notation "x <- m ;; k" := (bind m (fun x => k))
  (at level 100, m at next level, right associativity) : svc_scope.

(* ===================================================================== *)
(** * Adapter: the position translator *)
(* ===================================================================== *)

Local Open Scope result_scope.

(** [array.forEach] with a callback that may throw, threading the array
    the callback mutates. *)
Definition forEach {A B} (f : B -> A -> result B) : list A -> B -> result B :=
  fix go (l : list A) (b : B) : result B :=
    match l with
    | [] => Ok b
    | a :: l' => b' <- f b a;; go l' b'
    end.

Definition _positionToOffset (editor : Editor) (uri : Uri) (position : Position)
  : result Z :=
  model <- deref (editor uri);;
  Ok (getOffsetAt model position).

Definition _offsetToPosition (editor : Editor) (uri : Uri) (offset : Z)
  : result Position :=
  model <- deref (editor uri);;
  Ok (getPositionAt model offset).

Definition _textSpanToRange (editor : Editor) (uri : Uri) (span : TextSpan)
  : result IRange :=
  p1 <- _offsetToPosition editor uri (span_start span);;
  p2 <- _offsetToPosition editor uri (span_start span + span_length span);;
  Ok {| startLineNumber := lineNumber p1; startColumn := column p1;
        endLineNumber := lineNumber p2; endColumn := column p2 |}.

(* ===================================================================== *)
(** * OutlineAdapter *)
(* ===================================================================== *)

(** [outlineTypeTable], filled by the assignments of the source in their
    order. *)
Definition outlineTypeTable : gmap string SymbolKind :=
  foldl (fun table kv => <[kv.1 := kv.2]> table) ∅
    [ (Kind.module, SK_Module);
      (Kind.class, SK_Class);
      (Kind.enum, SK_Enum);
      (Kind.interface, SK_Interface);
      (Kind.memberFunction, SK_Method);
      (Kind.memberVariable, SK_Property);
      (Kind.memberGetAccessor, SK_Property);
      (Kind.memberSetAccessor, SK_Property);
      (Kind.variable, SK_Variable);
      (Kind.const, SK_Variable);
      (Kind.localVariable, SK_Variable);
      (Kind.variable, SK_Variable);
      (Kind.function, SK_Function);
      (Kind.localFunction, SK_Function) ].

(** [outlineTypeTable[kind] || monaco.languages.SymbolKind.Variable] *)
Definition outlineKind (kind : string) : SymbolKind :=
  default SK_Variable (outlineTypeTable !! kind).
Arguments outlineKind : simpl never.

(** The local function [convert] of [provideDocumentSymbols]: the symbol of
    [item] is built first, the children are converted into the bucket, and
    the symbol of [item] is pushed last. *)
Fixpoint convert (editor : Editor) (resource : Uri)
    (bucket : list SymbolInformation) (item : NavigationBarItem)
    (containerLabel : option string) {struct item}
  : result (list SymbolInformation) :=
  match item with
  | NavItem text kind spans childItems =>
      span0 <- deref (head spans);;
      range <- _textSpanToRange editor resource span0;;
      let result := {| sym_name := text;
                       sym_kind := outlineKind kind;
                       sym_location := {| loc_uri := resource; loc_range := range |};
                       sym_containerName := containerLabel |} in
      bucket' <- match childItems with
                 | Some children =>
                     if 0 <? Z.of_nat (length children) then
                       forEach (fun b child =>
                                  convert editor resource b child (Some (sym_name result)))
                         children bucket
                     else Ok bucket
                 | None => Ok bucket
                 end;;
      Ok (bucket' ++ [result])
  end.

(** The callback run on the answer of [getNavigationBarItems]. *)
Definition documentSymbols_then (editor : Editor) (resource : Uri)
    (items : option (list NavigationBarItem))
  : result (option (list SymbolInformation)) :=
  match items with
  | None => Ok None
  | Some items =>
      result <- forEach (fun b item => convert editor resource b item None) items [];;
      Ok (Some result)
  end.

Definition provideDocumentSymbols (editor : Editor) (model : IModel)
  : Svc (option (list SymbolInformation)) :=
  let resource := model_uri model in
  (items <- call (GetNavigationBarItems resource)
                 (fun worker => getNavigationBarItems worker resource);;
   lift (documentSymbols_then editor resource items))%svc.

(* ===================================================================== *)
(** * SuggestAdapter *)
(* ===================================================================== *)

(** The table [snippets]: key, prefix, body lines, description. *)
Record SnippetSource := mkSnippetSource {
  src_prefix : string;
  src_body : list string;
  src_description : option string
}.

Definition snippets : list (string * SnippetSource) :=
  [ ("For Loop",
     {| src_prefix := "for";
        src_body := [ "for (let ${1:index} = 0; ${1:index} < 4; ${1:index}++) {";
                      JS.tab +:+ "$0";
                      "}" ];
        src_description := Some "For Loop" |});
    ("If Statement",
     {| src_prefix := "if";
        src_body := [ "if (${1:condition}) {";
                      JS.tab +:+ "$0";
                      "}" ];
        src_description := Some "If Statement" |});
    ("While Statement",
     {| src_prefix := "while";
        src_body := [ "while (${1:condition}) {";
                      JS.tab +:+ "$0";
                      "}" ];
        src_description := Some "While Statement" |}) ].

Record TypescriptSnippet := mkSnippet {
  prefix : string;
  body : string;
  description : option string
}.

(** The constructor of [SuggestAdapter]: [typescriptSnippets] gets one
    entry per key of [snippets], in the order of the keys. *)
Definition typescriptSnippets : list TypescriptSnippet :=
  foldl (fun acc kv =>
           let snippet := kv.2 in
           acc ++ [ {| prefix := src_prefix snippet;
                       body := JS.join JS.newline (src_body snippet);
                       description := src_description snippet |} ])
        [] snippets.

(** The constructor of [SuggestAdapter]: [exclusionMap]. *)
Definition exclusionKeywords : list string :=
  [ "from"; "import"; "delete"; "with"; "await"; "try"; "catch"; "finally";
    "yield"; "as"; "async"; "abstract"; "any"; "undefined"; "throw";
    "symbol"; "super"; "require"; "readonly" ].

Definition exclusionMap : gmap string Z :=
  foldl (fun m keyword => <[keyword := 1]> m) ∅ exclusionKeywords.

(** [this.exclusionMap[name]] as a condition: a missing key and 0 are
    falsy. *)
Definition excluded (name : string) : bool :=
  match exclusionMap !! name with
  | Some n => negb (n =? 0)
  | None => false
  end.
Arguments excluded : simpl never.

Definition oneOf (kind : string) (cases : list string) : bool :=
  existsb (String.eqb kind) cases.

(** [SuggestAdapter.convertKind] *)
Definition convertKind (kind : string) : CompletionItemKind :=
  if oneOf kind [Kind.primitiveType; Kind.keyword] then CIK_Keyword
  else if oneOf kind [Kind.variable; Kind.localVariable] then CIK_Variable
  else if oneOf kind [Kind.memberVariable; Kind.memberGetAccessor;
                      Kind.memberSetAccessor] then CIK_Field
  else if oneOf kind [Kind.function; Kind.memberFunction; Kind.constructSignature;
                      Kind.callSignature; Kind.indexSignature] then CIK_Function
  else if oneOf kind [Kind.enum] then CIK_Enum
  else if oneOf kind [Kind.module] then CIK_Module
  else if oneOf kind [Kind.class] then CIK_Class
  else if oneOf kind [Kind.interface] then CIK_Interface
  else if oneOf kind [Kind.warning] then CIK_File
  else CIK_Property.

(** [new monaco.Range(...)]: the constructor of the editor swaps the two
    ends when the start lies after the end. *)
Definition newRange (startLine startCol endLine endCol : Z) : IRange :=
  if (endLine <? startLine) || ((startLine =? endLine) && (endCol <? startCol))
  then mkRange endLine endCol startLine startCol
  else mkRange startLine startCol endLine endCol.

(** What [provideCompletionItems] reads from the document before it asks
    the worker. The variables [wordBefore], [wordAfter] and
    [lineContentBefore] of the source are computed and never used; they are
    left out. *)
Record CompletionContext := mkContext {
  ctx_resource : Uri;
  ctx_position : Position;
  ctx_wordInfo : IWordAtPosition;
  ctx_prevWordInfo : IWordAtPosition;
  ctx_isNamespace : bool;
  ctx_lineContentAfter : string
}.

Definition completionContext (model : IModel) (position : Position)
  : CompletionContext :=
  let wordInfo := getWordUntilPosition model position in
  let lineContent := getLineContent model (lineNumber position) in
  let lineContentAfter := JS.substr_from lineContent (column position - 1) in
  let prevWordInfo :=
    getWordUntilPosition model
      (mkPosition (lineNumber position) (word_startColumn wordInfo - 1)) in
  let isNamespace := JS.truthy (word prevWordInfo) in
  {| ctx_resource := model_uri model;
     ctx_position := position;
     ctx_wordInfo := wordInfo;
     ctx_prevWordInfo := prevWordInfo;
     ctx_isNamespace := isNamespace;
     ctx_lineContentAfter := lineContentAfter |}.

(** The qualifier put before the name of a symbol of the search. *)
Definition qualifier (ctx : CompletionContext) (entry : NavigateToItem) : string :=
  if ctx_isNamespace ctx then word (ctx_prevWordInfo ctx) +:+ "."
  else if JS.truthy (nt_containerName entry) then nt_containerName entry +:+ "."
  else "".

(** The object [result] that the local function [convert] of the search
    callback builds for a symbol. *)
Definition navigateToCandidate (ctx : CompletionContext) (entry : NavigateToItem)
  : MyCompletionItem :=
  let position := ctx_position ctx in
  let wordInfo := ctx_wordInfo ctx in
  let prevWordInfo := ctx_prevWordInfo ctx in
  let label :=
    if JS.truthy (nt_containerName entry)
    then nt_containerName entry +:+ "." +:+ nt_name entry
    else nt_name entry in
  {| uri := ctx_resource ctx;
     position := position;
     label := label;
     name := nt_name entry;
     sortText := Some (nt_name entry);
     filterText := Some (qualifier ctx entry +:+ nt_name entry);
     kind := convertKind (nt_kind entry);
     containerName := Some (nt_containerName entry);
     navigation := Some entry;
     skipCodeSnippet := JS.trim_nonempty (ctx_lineContentAfter ctx);
     insertText := Some (SnippetValue (qualifier ctx entry +:+ nt_name entry));
     range := Some (newRange (lineNumber position)
                      (column position - JS.length (word wordInfo)
                       - (if ctx_isNamespace ctx
                          then JS.length (word prevWordInfo) + 1 else 0))
                      (lineNumber position)
                      (column position));
     detail := None;
     documentation := None |}.

(** The local function [convert] of the search callback:
    [bucket.push(result)]. *)
Definition convertNavigateTo (ctx : CompletionContext)
    (bucket : list MyCompletionItem) (entry : NavigateToItem)
  : list MyCompletionItem :=
  bucket ++ [navigateToCandidate ctx entry].

(** The filter of the search callback. *)
Definition keepNavigateTo (ctx : CompletionContext) (item : NavigateToItem) : bool :=
  (String.eqb (nt_kind item) Kind.function
   && negb (String.eqb (nt_kindModifiers item) ""))
  && (if ctx_isNamespace ctx
      then negb (String.eqb (nt_containerName item) (word (ctx_prevWordInfo ctx)))
      else true).

(** The callback run on the answer of [getNavigateToItems]. *)
Definition navigation_then (ctx : CompletionContext)
    (navigation : option (list NavigateToItem)) : list MyCompletionItem :=
  match navigation with
  | None => []
  | Some navigation =>
      if (Z.of_nat (length navigation) =? 0) then []
      else foldl (convertNavigateTo ctx) [] (List.filter (keepNavigateTo ctx) navigation)
  end.

(** The candidate made of an entry of the direct completions. *)
Definition suggestionOfEntry (ctx : CompletionContext) (entry : CompletionEntry)
  : MyCompletionItem :=
  {| uri := ctx_resource ctx;
     position := ctx_position ctx;
     label := ce_name entry;
     name := ce_name entry;
     sortText := Some (ce_sortText entry);
     filterText := None;
     kind := convertKind (ce_kind entry);
     containerName := None;
     navigation := None;
     skipCodeSnippet := JS.trim_nonempty (ctx_lineContentAfter ctx);
     insertText := None;
     range := None;
     detail := None;
     documentation := None |}.

(** The callback run on the joined answers [values = [info, moreinfo]]. *)
Definition completions_then (ctx : CompletionContext)
    (values : option (option CompletionInfo * option (list MyCompletionItem)))
  : option (list MyCompletionItem) :=
  match values with
  | None => None
  | Some (info, moreinfo) =>
      match info with
      | None => None
      | Some info =>
          let suggestions :=
            map (suggestionOfEntry ctx)
                (List.filter (fun entry => negb (excluded (ce_name entry))) (entries info)) in
          match moreinfo with
          | Some moreinfo => Some (suggestions ++ moreinfo)
          | None => Some suggestions
          end
      end
  end.

Definition provideCompletionItems (editor : Editor) (model : IModel)
    (position : Position) : Svc (option (list MyCompletionItem)) :=
  let ctx := completionContext model position in
  let resource := ctx_resource ctx in
  (offset <- lift (_positionToOffset editor resource position);;
   info <- call (GetCompletionsAtPosition resource offset)
                (fun worker => getCompletionsAtPosition worker resource offset);;
   navigation <- call (GetNavigateToItems (word (ctx_wordInfo ctx)))
                      (fun worker => getNavigateToItems worker (word (ctx_wordInfo ctx)));;
   let moreinfo := navigation_then ctx navigation in
   ret (completions_then ctx (Some (info, Some moreinfo))))%svc.

Section WithDisplayParts.

(** [ts.displayPartsToString], a function of the language service
    library. *)
Variable displayPartsToString : DisplayParts -> string.

(** The assignments of [resolveCompletionItem] to [myItem]. *)
Definition fillSnippet (myItem : MyCompletionItem) (entry : TypescriptSnippet)
  : MyCompletionItem :=
  {| uri := uri myItem;
     position := position myItem;
     label := label myItem;
     name := name myItem;
     sortText := sortText myItem;
     filterText := filterText myItem;
     kind := kind myItem;
     containerName := containerName myItem;
     navigation := navigation myItem;
     skipCodeSnippet := skipCodeSnippet myItem;
     insertText := Some (SnippetValue (body entry));
     range := range myItem;
     detail := detail myItem;
     documentation := description entry |}.

Definition fillDetails (myItem : MyCompletionItem) (resource : Uri)
    (position : Position) (details : CompletionEntryDetails) (codeSnippet : string)
  : MyCompletionItem :=
  {| uri := resource;
     position := position;
     label := label myItem;
     name := name myItem;
     sortText := sortText myItem;
     filterText := filterText myItem;
     kind := convertKind (det_kind details);
     containerName := containerName myItem;
     navigation := navigation myItem;
     skipCodeSnippet := skipCodeSnippet myItem;
     insertText := Some (if negb (skipCodeSnippet myItem)
                         then SnippetValue codeSnippet else InsertNull);
     range := range myItem;
     detail := Some (displayPartsToString (det_displayParts details));
     documentation := Some (displayPartsToString (det_documentation details)) |}.

(** The callback run on the answer of
    [getCompletionEntryDetailsAndSnippet], [values = [details, codeSnippet]]. *)
Definition resolve_then (myItem : MyCompletionItem)
    (values : option (option CompletionEntryDetails * string)) : MyCompletionItem :=
  match values with
  | None => myItem
  | Some (details, codeSnippet) =>
      match details with
      | None => myItem
      | Some details =>
          fillDetails myItem (uri myItem) (position myItem) details codeSnippet
      end
  end.

Definition resolveCompletionItem (editor : Editor) (item : MyCompletionItem)
  : Svc MyCompletionItem :=
  let myItem := item in
  let resource := uri myItem in
  let position := position myItem in
  let entry :=
    head (List.filter (fun snippet => String.eqb (prefix snippet) (label myItem))
            typescriptSnippets) in
  match entry with
  | Some entry => ret (fillSnippet myItem entry)
  | None =>
      (values <-
         match navigation myItem with
         | Some navigation =>
             let fileName := nt_fileName navigation in
             let offset := span_start (nt_textSpan navigation) in
             call (GetCompletionEntryDetailsAndSnippet fileName offset
                     (name myItem) (label myItem))
                  (fun worker =>
                     getCompletionEntryDetailsAndSnippet worker fileName offset
                       (name myItem) (label myItem))
         | None =>
             offset <- lift (_positionToOffset editor resource position);;
             call (GetCompletionEntryDetailsAndSnippet resource offset
                     (name myItem) (label myItem))
                  (fun worker =>
                     getCompletionEntryDetailsAndSnippet worker resource offset
                       (name myItem) (label myItem))
         end;;
       ret (resolve_then myItem values))%svc
  end.

(* ===================================================================== *)
(** * QuickInfoAdapter *)
(* ===================================================================== *)

(** [array[i]] for a number [i]: [undefined] outside of the array. *)
Definition at_index {A} (l : list A) (i : Z) : option A :=
  if i <? 0 then None else l !! Z.to_nat i.

(** [documentation] of the part, or its [displayParts] when that text is
    empty. *)
Definition textOr (documentation fallback : DisplayParts) : string :=
  let contents := displayPartsToString documentation in
  if negb (JS.truthy contents) then displayPartsToString fallback else contents.

(** The narrowing of the span when more than one argument is present. *)
Definition narrowToArgument (model : IModel) (signature : SignatureHelpItems)
  : result TextSpan :=
  let activeParameter := argumentIndex signature in
  let parameterSpan := applicableSpan signature in
  if 1 <? argumentCount signature then
    let parametersStr :=
      JS.substr (getValue model) (span_start parameterSpan) (span_length parameterSpan) in
    let parametersSplit := JS.split "," parametersStr in
    argument <- deref (at_index parametersSplit activeParameter);;
    Ok {| span_start := span_start parameterSpan + JS.indexOf parametersStr argument;
          span_length := JS.length argument |}
  else Ok parameterSpan.

(** The callback run on the joined answers
    [values = [info, signature, completion]]. *)
Definition hover_then (editor : Editor) (model : IModel)
    (values : option (option QuickInfo * option SignatureHelpItems
                      * option CompletionEntryDetails))
  : result (option Hover) :=
  let resource := model_uri model in
  match values with
  | None => Ok None
  | Some (info, signature, completion) =>
      let quickInfoOnly :=
        match info with
        | Some info =>
            let contents := displayPartsToString (qi_displayParts info) in
            range <- _textSpanToRange editor resource (qi_textSpan info);;
            Ok (Some {| hover_range := range; hover_contents := [contents] |})
        | None => Ok None
        end in
      match info, completion with
      | Some info, Some completion =>
          let contents := textOr (det_documentation completion) (qi_displayParts info) in
          range <- _textSpanToRange editor resource (qi_textSpan info);;
          Ok (Some {| hover_range := range; hover_contents := [contents] |})
      | _, _ =>
          match signature with
          | Some signature =>
              match head (items signature) with
              | Some item0 =>
                  if 0 <? Z.of_nat (length (parameters item0)) then
                    let activeParameter := argumentIndex signature in
                    parameter <- deref (at_index (parameters item0) activeParameter);;
                    let contents :=
                      textOr (par_documentation parameter) (par_displayParts parameter) in
                    parameterSpan <- narrowToArgument model signature;;
                    range <- _textSpanToRange editor resource parameterSpan;;
                    Ok (Some {| hover_range := range; hover_contents := [contents] |})
                  else Ok None
              | None => quickInfoOnly
              end
          | None => quickInfoOnly
          end
      end
  end.

Definition provideHover (editor : Editor) (model : IModel) (position : Position)
  : Svc (option Hover) :=
  let resource := model_uri model in
  let wordInfo := getWordAtPosition model position in
  (offset1 <- lift (_positionToOffset editor resource position);;
   info <- call (GetQuickInfoAtPosition resource offset1)
                (fun worker => getQuickInfoAtPosition worker resource offset1);;
   offset2 <- lift (_positionToOffset editor resource position);;
   signature <- call (GetSignatureHelpItems resource offset2)
                     (fun worker => getSignatureHelpItems worker resource offset2);;
   completion <-
     match wordInfo with
     | Some wordInfo =>
         offset3 <- lift (_positionToOffset editor resource position);;
         call (GetCompletionEntryDetails resource offset3 (word wordInfo))
              (fun worker =>
                 getCompletionEntryDetails worker resource offset3 (word wordInfo))
     | None => ret None
     end;;
   lift (hover_then editor model (Some (info, signature, completion))))%svc.

End WithDisplayParts.

(* ===================================================================== *)
(** * DiagnostcsAdapter: the diagnostics life cycle *)
(* ===================================================================== *)

(** The adapter reacts to events of the editor. Its state and the part of
    the editor it talks to (open documents, timers, event subscriptions)
    are one [State]; every call the adapter makes to publish markers or to
    start a validation pass is recorded in [effects], most recent first. *)

(** An open document of the editor. *)
Record ModelState := mkModelState {
  m_uri : Uri;
  m_modeId : string;
  m_version : Z
}.

(** One call of [onModelAdd] that passed the language test: its variable
    [handle], and whether its content-change subscription is still
    registered with the document. A closure is named by its index in
    [closures]. *)
Record Closure := mkClosure {
  c_uri : Uri;
  c_handle : option nat;
  c_subscribed : bool
}.

(** A pending [setTimeout] callback [() => this._doValidate(model.uri)]. *)
Record Timer := mkTimer {
  timer_id : nat;
  timer_due : Z;
  timer_uri : Uri
}.

(** The entries of [_disposables], in the order the constructor pushes
    them. *)
Inductive Disposable :=
| D_onDidCreateModel
| D_onWillDisposeModel
| D_onDidChangeModelLanguage
| D_removeAllModels
| D_onDidChangeDefaults.

Global Instance Disposable_eq_dec : EqDecision Disposable.
Proof. solve_decision. Defined.

Inductive Effect :=
| ClearMarkers (uri : Uri) (owner : string)
    (* monaco.editor.setModelMarkers(model, owner, []) *)
| Validate (uri : Uri) (version : option Z).
    (* this._doValidate(uri), with the version of the document then *)

Record State := mkState {
  clock : Z;
  models : list ModelState;
  timers : list Timer;
  nextTimer : nat;
  hooks : list Disposable;
  closures : list Closure;
  _disposables : list Disposable;
  _listener : gmap string nat;
  effects : list Effect
}.

Definition set_clock (v : Z) (s : State) : State :=
  mkState v (models s) (timers s) (nextTimer s) (hooks s) (closures s)
    (_disposables s) (_listener s) (effects s).
Definition set_models (v : list ModelState) (s : State) : State :=
  mkState (clock s) v (timers s) (nextTimer s) (hooks s) (closures s)
    (_disposables s) (_listener s) (effects s).
Definition set_timers (v : list Timer) (s : State) : State :=
  mkState (clock s) (models s) v (nextTimer s) (hooks s) (closures s)
    (_disposables s) (_listener s) (effects s).
Definition set_nextTimer (v : nat) (s : State) : State :=
  mkState (clock s) (models s) (timers s) v (hooks s) (closures s)
    (_disposables s) (_listener s) (effects s).
Definition set_hooks (v : list Disposable) (s : State) : State :=
  mkState (clock s) (models s) (timers s) (nextTimer s) v (closures s)
    (_disposables s) (_listener s) (effects s).
Definition set_closures (v : list Closure) (s : State) : State :=
  mkState (clock s) (models s) (timers s) (nextTimer s) (hooks s) v
    (_disposables s) (_listener s) (effects s).
Definition set_disposables (v : list Disposable) (s : State) : State :=
  mkState (clock s) (models s) (timers s) (nextTimer s) (hooks s) (closures s)
    v (_listener s) (effects s).
Definition set_listener (v : gmap string nat) (s : State) : State :=
  mkState (clock s) (models s) (timers s) (nextTimer s) (hooks s) (closures s)
    (_disposables s) v (effects s).
Definition add_effect (e : Effect) (s : State) : State :=
  mkState (clock s) (models s) (timers s) (nextTimer s) (hooks s) (closures s)
    (_disposables s) (_listener s) (e :: effects s).

Definition has_uri (u : Uri) (m : ModelState) : bool := String.eqb (m_uri m) u.

(** [monaco.editor.getModel(uri)] *)
Definition getModel (s : State) (u : Uri) : option ModelState :=
  head (List.filter (has_uri u) (models s)).

(** The quiet period of the debounce, in milliseconds. *)
Definition quietPeriod : Z := 500.

(** [clearTimeout(handle)]: nothing happens for [undefined] and for a
    timer that fired already. *)
Definition clearTimeout (handle : option nat) (s : State) : State :=
  match handle with
  | Some h => set_timers (List.filter (fun t => negb (Nat.eqb (timer_id t) h)) (timers s)) s
  | None => s
  end.

(** [setTimeout(() => this._doValidate(uri), delay)]: the new handle and
    the state with the timer pending. *)
Definition setTimeout (u : Uri) (delay : Z) (s : State) : nat * State :=
  let h := nextTimer s in
  (h, set_nextTimer (S h) (set_timers (timers s ++ [mkTimer h (clock s + delay) u]) s)).

(** [_doValidate(resource)]: a validation pass starts; the requests to the
    worker and the publication of their answers are asynchronous and not
    part of this state machine. *)
Definition _doValidate (resource : Uri) (s : State) : State :=
  add_effect (Validate resource (m_version <$> getModel s resource)) s.

(** The content-change listener of closure [id]:
    [clearTimeout(handle); handle = setTimeout(..., 500)]. *)
Definition onDidChangeContent (id : nat) (s : State) : State :=
  match closures s !! id with
  | Some c =>
      let s1 := clearTimeout (c_handle c) s in
      let '(h, s2) := setTimeout (c_uri c) quietPeriod s1 in
      set_closures (<[id := mkClosure (c_uri c) (Some h) (c_subscribed c)]> (closures s2)) s2
  | None => s
  end.

(** [_listener[key].dispose()] for the listener of closure [id]:
    [changeSubscription.dispose(); clearTimeout(handle)]. *)
Definition listener_dispose (id : nat) (s : State) : State :=
  match closures s !! id with
  | Some c =>
      let s1 :=
        set_closures (<[id := mkClosure (c_uri c) (c_handle c) false]> (closures s)) s in
      clearTimeout (c_handle c) s1
  | None => s
  end.

Section DiagnostcsAdapter.

(** [this._selector]: the language the adapter validates. *)
Variable _selector : string.

Definition onModelAdd (model : ModelState) (s : State) : State :=
  if negb (String.eqb (m_modeId model) _selector) then s
  else
    let id := length (closures s) in
    let s1 := set_closures (closures s ++ [mkClosure (m_uri model) None true]) s in
    let s2 := set_listener (<[m_uri model := id]> (_listener s1)) s1 in
    _doValidate (m_uri model) s2.

Definition onModelRemoved (model : ModelState) (s : State) : State :=
  let s1 := add_effect (ClearMarkers (m_uri model) _selector) s in
  let key := m_uri model in
  match _listener s1 !! key with
  | Some id =>
      let s2 := listener_dispose id s1 in
      set_listener (delete key (_listener s2)) s2
  | None => s1
  end.

(** [d.dispose()] for an entry of [_disposables]: the fourth entry removes
    every open document, the others end a subscription to the editor or to
    the defaults. *)
Definition dispose_one (d : Disposable) (s : State) : State :=
  match d with
  | D_removeAllModels => foldl (fun s model => onModelRemoved model s) s (models s)
  | _ => set_hooks (List.filter (fun h => negb (bool_decide (h = d))) (hooks s)) s
  end.

(** [DiagnostcsAdapter.dispose] *)
Definition dispose (s : State) : State :=
  set_disposables [] (foldl (fun s d => dispose_one d s) s (_disposables s)).

Definition allDisposables : list Disposable :=
  [ D_onDidCreateModel; D_onWillDisposeModel; D_onDidChangeModelLanguage;
    D_removeAllModels; D_onDidChangeDefaults ].

(** The constructor, run in an editor with the documents [ms] open. *)
Definition DiagnostcsAdapter_new (now : Z) (ms : list ModelState) : State :=
  let s0 :=
    {| clock := now; models := ms; timers := []; nextTimer := 0;
       hooks := [ D_onDidCreateModel; D_onWillDisposeModel;
                  D_onDidChangeModelLanguage; D_onDidChangeDefaults ];
       closures := [];
       _disposables := allDisposables;
       _listener := ∅;
       effects := [] |} in
  foldl (fun s model => onModelAdd model s) s0 ms.

(** ** The editor: events and time *)

Definition has_hook (d : Disposable) (s : State) : bool :=
  bool_decide (d ∈ hooks s).

(** The closures whose content-change listener is registered with the
    document [u], in the order of their subscription. *)
Definition subscribers (u : Uri) (s : State) : list nat :=
  List.filter
    (fun id => match closures s !! id with
               | Some c => c_subscribed c && String.eqb (c_uri c) u
               | None => false
               end)
    (seq 0 (length (closures s))).

(** A document that is disposed drops its listeners. *)
Definition dropListeners (u : Uri) (s : State) : State :=
  set_closures
    (map (fun c => if String.eqb (c_uri c) u
                   then mkClosure (c_uri c) (c_handle c) false else c)
         (closures s)) s.

Definition bumpVersion (u : Uri) (s : State) : State :=
  set_models
    (map (fun m => if has_uri u m
                   then mkModelState (m_uri m) (m_modeId m) (m_version m + 1) else m)
         (models s)) s.

Definition setModeId (u : Uri) (mode : string) (s : State) : State :=
  set_models
    (map (fun m => if has_uri u m then mkModelState (m_uri m) mode (m_version m) else m)
         (models s)) s.

(** Time passes: the timers that are due fire, oldest first. *)
Definition is_due (now : Z) (t : Timer) : bool := timer_due t <=? now.

Definition tick (dt : Z) (s : State) : State :=
  let now := clock s + Z.max 0 dt in
  let due := List.filter (is_due now) (timers s) in
  let rest := List.filter (fun t => negb (is_due now t)) (timers s) in
  foldl (fun s t => _doValidate (timer_uri t) s) (set_timers rest (set_clock now s)) due.

Inductive Event :=
| CreateModel (u : Uri) (mode : string)
| DisposeModel (u : Uri)
| SetModelLanguage (u : Uri) (mode : string)
| ChangeDefaults
| ChangeContent (u : Uri)
| Tick (dt : Z)
| Dispose.

(** The language every document has when the editor creates it. *)
Definition plaintext : string := "plaintext".

(** What the editor does at an event, and the listeners of the adapter it
    runs.
    - [CreateModel]: [monaco.editor.createModel]. The editor creates the
      document as plain text, sets its language and only then announces
      the document: the listeners of [onDidChangeModelLanguage] run
      first (when the language is not plain text), with the document
      already open and in its language, then those of [onDidCreateModel].
    - [DisposeModel]: the listeners of [onWillDisposeModel] run, then the
      document drops its own listeners and is closed.
    - [SetModelLanguage]: [monaco.editor.setModelLanguage]. Nothing
      happens when the document has the language already; else the
      listeners of [onDidChangeModelLanguage] run after the change.
    - [ChangeDefaults]: the listeners of the defaults run.
    - [ChangeContent]: the version of the document grows and the
      content listeners registered with the document run, oldest first.
    - [Tick]: time passes.
    - [Dispose]: [DiagnostcsAdapter.dispose] is called. *)
Definition step (e : Event) (s : State) : State :=
  match e with
  | CreateModel u mode =>
      match getModel s u with
      | Some _ => s
      | None =>
          let model := mkModelState u mode 1 in
          let s1 := set_models (models s ++ [model]) s in
          let s2 :=
            if negb (String.eqb mode plaintext) && has_hook D_onDidChangeModelLanguage s1
            then onModelAdd model (onModelRemoved model s1) else s1 in
          if has_hook D_onDidCreateModel s2 then onModelAdd model s2 else s2
      end
  | DisposeModel u =>
      match getModel s u with
      | Some model =>
          let s1 := if has_hook D_onWillDisposeModel s then onModelRemoved model s else s in
          let s2 := dropListeners u s1 in
          set_models (List.filter (fun m => negb (has_uri u m)) (models s2)) s2
      | None => s
      end
  | SetModelLanguage u mode =>
      match getModel s u with
      | Some model0 =>
          if String.eqb (m_modeId model0) mode then s
          else
            let s1 := setModeId u mode s in
            match getModel s1 u with
            | Some model =>
                if has_hook D_onDidChangeModelLanguage s1
                then onModelAdd model (onModelRemoved model s1) else s1
            | None => s1
            end
      | None => s
      end
  | ChangeDefaults =>
      if has_hook D_onDidChangeDefaults s
      then foldl (fun s model => onModelAdd model (onModelRemoved model s)) s (models s)
      else s
  | ChangeContent u =>
      match getModel s u with
      | Some _ =>
          let s1 := bumpVersion u s in
          foldl (fun s id => onDidChangeContent id s) s1 (subscribers u s1)
      | None => s
      end
  | Tick dt => tick dt s
  | Dispose => dispose s
  end.

Definition run (events : list Event) (s : State) : State :=
  foldl (fun s e => step e s) s events.

(** The states the adapter can be in: constructed in an editor whose open
    documents have distinct names, then any events. *)
Definition reachable (s : State) : Prop :=
  exists now ms events,
    NoDup (map m_uri ms) /\ s = run events (DiagnostcsAdapter_new now ms).

(** The validation passes of document [u] in a log of effects. *)
Definition validations (u : Uri) (log : list Effect) : list (option Z) :=
  omap (fun e => match e with
                 | Validate u' v => if String.eqb u' u then Some v else None
                 | ClearMarkers _ _ => None
                 end) log.

(** A burst of content changes of [u]: a first change, then one change
    after each of the [gaps]. *)
Definition burst (u : Uri) (gaps : list Z) : list Event :=
  ChangeContent u :: flat_map (fun g => [Tick g; ChangeContent u]) gaps.

End DiagnostcsAdapter.

(* ===================================================================== *)
(** * DiagnostcsAdapter: a validation pass *)
(* ===================================================================== *)

(** [array.map] with a callback that may throw. *)
Fixpoint mapM {A B} (f : A -> result B) (l : list A) : result (list B) :=
  match l with
  | [] => Ok []
  | a :: l' => b <- f a;; bs <- mapM f l';; Ok (b :: bs)
  end.

(** [ts.Diagnostic]: the fields [_convertDiagnostics] reads. The message
    is a text or a chain of texts. *)
Inductive DiagnosticMessageChain :=
| MessageChain (messageText : string) (next : option DiagnosticMessageChain).

Inductive MessageText :=
| PlainMessage (text : string)
| ChainedMessage (chain : DiagnosticMessageChain).

Record Diagnostic := mkDiagnostic {
  diag_start : Z;
  diag_length : Z;
  diag_messageText : MessageText
}.

(** [monaco.Severity] and [monaco.editor.IMarkerData] *)
Inductive Severity := Severity_Ignore | Severity_Info | Severity_Warning | Severity_Error.

Record IMarkerData := mkMarker {
  marker_severity : Severity;
  marker_startLineNumber : Z;
  marker_startColumn : Z;
  marker_endLineNumber : Z;
  marker_endColumn : Z;
  marker_message : string
}.

(** [this._defaults.getDiagnosticsOptions()] *)
Record DiagnosticsOptions := mkOptions {
  noSyntaxValidation : bool;
  noSemanticValidation : bool
}.

(** The two requests of a validation pass and the worker's answers. *)
Inductive DiagnosticsRequest :=
| GetSyntacticDiagnostics (fileName : string)
| GetSemanticDiagnostics (fileName : string).

Record DiagnosticsWorker := mkDiagnosticsWorker {
  getSyntacticDiagnostics : string -> list Diagnostic;
  getSemanticDiagnostics : string -> list Diagnostic
}.

Section Validation.

(** [ts.flattenDiagnosticMessageText], a function of the language service
    library. *)
Variable flattenDiagnosticMessageText : MessageText -> string -> string.

Definition _convertDiagnostics (editor : Editor) (resource : Uri) (diag : Diagnostic)
  : result IMarkerData :=
  p1 <- _offsetToPosition editor resource (diag_start diag);;
  p2 <- _offsetToPosition editor resource (diag_start diag + diag_length diag);;
  Ok {| marker_severity := Severity_Error;
        marker_startLineNumber := lineNumber p1;
        marker_startColumn := column p1;
        marker_endLineNumber := lineNumber p2;
        marker_endColumn := column p2;
        marker_message :=
          flattenDiagnosticMessageText (diag_messageText diag) JS.newline |}.

(** The first callback of [_doValidate]: nothing is requested for a
    document that is closed by now; else the diagnostics the options do
    not switch off are requested and joined, in this order. *)
Definition validate_request (editor : Editor) (options : DiagnosticsOptions)
    (resource : Uri) (worker : DiagnosticsWorker)
  : list DiagnosticsRequest * option (list (list Diagnostic)) :=
  match editor resource with
  | None => ([], None)
  | Some _ =>
      let promises := [] in
      let promises :=
        if negb (noSyntaxValidation options)
        then promises ++ [(GetSyntacticDiagnostics resource,
                           getSyntacticDiagnostics worker resource)]
        else promises in
      let promises :=
        if negb (noSemanticValidation options)
        then promises ++ [(GetSemanticDiagnostics resource,
                           getSemanticDiagnostics worker resource)]
        else promises in
      (map fst promises, Some (map snd promises))
  end.

(** The second callback of [_doValidate]: [Ok (Some markers)] stands for
    the call [setModelMarkers(model, this._selector, markers)], [Ok None]
    for the return without a call, [TypeError] for an exception, which the
    [done] handler logs. *)
Definition validate_publish (editor : Editor) (resource : Uri)
    (diagnostics : option (list (list Diagnostic)))
  : result (option (list IMarkerData)) :=
  match diagnostics with
  | None => Ok None
  | Some diagnostics =>
      match editor resource with
      | None => Ok None
      | Some _ =>
          let flat := fold_left (fun p c => c ++ p) diagnostics [] in
          markers <- mapM (_convertDiagnostics editor resource) flat;;
          Ok (Some markers)
      end
  end.

(** The asynchronous part of [_doValidate]: [editor1] is the registry of
    open documents when the worker is there, [editor2] when its answers
    are. *)
Definition _doValidate_async (editor1 editor2 : Editor) (options : DiagnosticsOptions)
    (resource : Uri) (worker : DiagnosticsWorker)
  : list DiagnosticsRequest * result (option (list IMarkerData)) :=
  let '(requests, diagnostics) := validate_request editor1 options resource worker in
  (requests, validate_publish editor2 resource diagnostics).

End Validation.

(* ===================================================================== *)
(** * SignatureHelpAdapter *)
(* ===================================================================== *)

(** [ts.SignatureHelpItem] and [ts.SignatureHelpItems]: the fields
    [provideSignatureHelp] reads. *)
Record SignatureHelpItemParts := mkSignatureParts {
  prefixDisplayParts : DisplayParts;
  separatorDisplayParts : DisplayParts;
  suffixDisplayParts : DisplayParts;
  sig_parameters : list SignatureHelpParameter
}.

Record SignatureHelpAnswer := mkSignatureAnswer {
  sh_items : list SignatureHelpItemParts;
  sh_selectedItemIndex : Z;
  sh_argumentIndex : Z
}.

(** [monaco.languages.ParameterInformation], [SignatureInformation] and
    [SignatureHelp]; [None] is the [null] documentation of a signature. *)
Record ParameterInformation := mkParameterInformation {
  pi_label : string;
  pi_documentation : string
}.

Record SignatureInformation := mkSignatureInformation {
  si_label : string;
  si_documentation : option string;
  si_parameters : list ParameterInformation
}.

Record SignatureHelp := mkSignatureHelp {
  activeSignature : Z;
  activeParameter : Z;
  signatures : list SignatureInformation
}.

(** [array.forEach((element, index, array) => ...)], threading the object
    the callback mutates. *)
Fixpoint forEachIndexed {A S} (f : S -> A -> Z -> S) (i : Z) (l : list A) (s : S) : S :=
  match l with
  | [] => s
  | a :: l' => forEachIndexed f (i + 1) l' (f s a i)
  end.

Section SignatureHelpAdapter.

Variable displayPartsToString : DisplayParts -> string.

(** The callback of [item.parameters.forEach], for an array of length
    [a_length]. *)
Definition addParameter (item : SignatureHelpItemParts) (a_length : Z)
    (signature : SignatureInformation) (p : SignatureHelpParameter) (i : Z)
  : SignatureInformation :=
  let label := displayPartsToString (par_displayParts p) in
  let parameter := {| pi_label := label;
                      pi_documentation := displayPartsToString (par_documentation p) |} in
  let signature := {| si_label := si_label signature +:+ label;
                      si_documentation := si_documentation signature;
                      si_parameters := si_parameters signature ++ [parameter] |} in
  if i <? a_length - 1
  then {| si_label := si_label signature
                      +:+ displayPartsToString (separatorDisplayParts item);
          si_documentation := si_documentation signature;
          si_parameters := si_parameters signature |}
  else signature.

(** The callback of [info.items.forEach]: the signature of one item. *)
Definition signatureOfItem (item : SignatureHelpItemParts) : SignatureInformation :=
  let signature := {| si_label := ""; si_documentation := None; si_parameters := [] |} in
  let signature := {| si_label := si_label signature
                                  +:+ displayPartsToString (prefixDisplayParts item);
                      si_documentation := si_documentation signature;
                      si_parameters := si_parameters signature |} in
  let signature :=
    forEachIndexed (addParameter item (Z.of_nat (length (sig_parameters item))))
      0 (sig_parameters item) signature in
  {| si_label := si_label signature +:+ displayPartsToString (suffixDisplayParts item);
     si_documentation := si_documentation signature;
     si_parameters := si_parameters signature |}.

(** The callback run on the answer of [getSignatureHelpItems]. *)
Definition signatureHelp_then (info : option SignatureHelpAnswer) : option SignatureHelp :=
  match info with
  | None => None
  | Some info =>
      Some {| activeSignature := sh_selectedItemIndex info;
              activeParameter := sh_argumentIndex info;
              signatures :=
                foldl (fun signatures item => signatures ++ [signatureOfItem item])
                      [] (sh_items info) |}
  end.

Definition provideSignatureHelp (editor : Editor) (model : IModel) (position : Position)
    (getSignatureHelpItems : string -> Z -> option SignatureHelpAnswer)
  : result (option SignatureHelp) :=
  let resource := model_uri model in
  offset <- _positionToOffset editor resource position;;
  Ok (signatureHelp_then (getSignatureHelpItems resource offset)).

End SignatureHelpAdapter.

(* ===================================================================== *)
(** * OccurrencesAdapter, DefinitionAdapter, ReferenceAdapter *)
(* ===================================================================== *)

(** [ts.ReferenceEntry] and [ts.DefinitionInfo]: the fields the adapters
    read. *)
Record ReferenceEntry := mkReferenceEntry {
  ref_fileName : string;
  ref_textSpan : TextSpan;
  ref_isWriteAccess : bool
}.

Record DefinitionInfo := mkDefinitionInfo {
  def_fileName : string;
  def_textSpan : TextSpan
}.

(** [monaco.languages.DocumentHighlightKind] and [DocumentHighlight] *)
Inductive DocumentHighlightKind := DHK_Text | DHK_Read | DHK_Write.

Record DocumentHighlight := mkHighlight {
  dh_range : IRange;
  dh_kind : DocumentHighlightKind
}.

(** The callback run on the answer of [getOccurrencesAtPosition]. *)
Definition documentHighlights_then (editor : Editor) (resource : Uri)
    (entries : option (list ReferenceEntry)) : result (option (list DocumentHighlight)) :=
  match entries with
  | None => Ok None
  | Some entries =>
      highlights <-
        mapM (fun entry =>
                range <- _textSpanToRange editor resource (ref_textSpan entry);;
                Ok {| dh_range := range;
                      dh_kind := if ref_isWriteAccess entry then DHK_Write else DHK_Text |})
             entries;;
      Ok (Some highlights)
  end.

Definition provideDocumentHighlights (editor : Editor) (model : IModel)
    (position : Position)
    (getOccurrencesAtPosition : string -> Z -> option (list ReferenceEntry))
  : result (option (list DocumentHighlight)) :=
  let resource := model_uri model in
  offset <- _positionToOffset editor resource position;;
  documentHighlights_then editor resource (getOccurrencesAtPosition resource offset).

Section WithUriParse.

(** [Uri.parse], a function of the editor: the [Uri] of a file name. It
    normalises the name, so that the [Uri] of a document and the parsed
    name of its file may differ as texts. *)
Variable Uri_parse : string -> Uri.

(** The loop of [provideDefinition] over the entries: an entry in a
    document that is open adds a location to the array [result] of the
    source, here [locations]. *)
Definition pushDefinition (editor : Editor) (locations : list Location) (entry : DefinitionInfo)
  : result (list Location) :=
  let uri := Uri_parse (def_fileName entry) in
  match editor uri with
  | Some _ =>
      range <- _textSpanToRange editor uri (def_textSpan entry);;
      Ok (locations ++ [ {| loc_uri := uri; loc_range := range |} ])
  | None => Ok locations
  end.

Definition definition_then (editor : Editor) (entries : option (list DefinitionInfo))
  : result (option (list Location)) :=
  match entries with
  | None => Ok None
  | Some entries =>
      result <- forEach (pushDefinition editor) entries [];;
      Ok (Some result)
  end.

Definition provideDefinition (editor : Editor) (model : IModel) (position : Position)
    (getDefinitionAtPosition : string -> Z -> option (list DefinitionInfo))
  : result (option (list Location)) :=
  let resource := model_uri model in
  offset <- _positionToOffset editor resource position;;
  definition_then editor (getDefinitionAtPosition resource offset).

(** The loop of [provideReferences], the same over reference entries. *)
Definition pushReference (editor : Editor) (locations : list Location) (entry : ReferenceEntry)
  : result (list Location) :=
  let uri := Uri_parse (ref_fileName entry) in
  match editor uri with
  | Some _ =>
      range <- _textSpanToRange editor uri (ref_textSpan entry);;
      Ok (locations ++ [ {| loc_uri := uri; loc_range := range |} ])
  | None => Ok locations
  end.

Definition references_then (editor : Editor) (entries : option (list ReferenceEntry))
  : result (option (list Location)) :=
  match entries with
  | None => Ok None
  | Some entries =>
      result <- forEach (pushReference editor) entries [];;
      Ok (Some result)
  end.

Definition provideReferences (editor : Editor) (model : IModel) (position : Position)
    (getReferencesAtPosition : string -> Z -> option (list ReferenceEntry))
  : result (option (list Location)) :=
  let resource := model_uri model in
  offset <- _positionToOffset editor resource position;;
  references_then editor (getReferencesAtPosition resource offset).

End WithUriParse.

(* ===================================================================== *)
(** * FormatHelper, FormatAdapter, FormatOnTypeAdapter *)
(* ===================================================================== *)

(** [monaco.languages.FormattingOptions], [ts.IndentStyle],
    [ts.FormatCodeOptions], [ts.TextChange] and
    [monaco.editor.ISingleEditOperation] *)
Record FormattingOptions := mkFormattingOptions {
  tabSize : Z;
  insertSpaces : bool
}.

Inductive IndentStyle := IndentStyle_None | IndentStyle_Block | IndentStyle_Smart.

Record FormatCodeOptions := mkFormatCodeOptions {
  ConvertTabsToSpaces : bool;
  TabSize : Z;
  IndentSize : Z;
  IndentStyle_ : IndentStyle;
  NewLineCharacter : string;
  InsertSpaceAfterCommaDelimiter : bool;
  InsertSpaceAfterSemicolonInForStatements : bool;
  InsertSpaceBeforeAndAfterBinaryOperators : bool;
  InsertSpaceAfterKeywordsInControlFlowStatements : bool;
  InsertSpaceAfterFunctionKeywordForAnonymousFunctions : bool;
  InsertSpaceAfterOpeningAndBeforeClosingNonemptyParenthesis : bool;
  InsertSpaceAfterOpeningAndBeforeClosingNonemptyBrackets : bool;
  InsertSpaceAfterOpeningAndBeforeClosingTemplateStringBraces : bool;
  PlaceOpenBraceOnNewLineForControlBlocks : bool;
  PlaceOpenBraceOnNewLineForFunctions : bool
}.

Record TextChange := mkTextChange { change_span : TextSpan; change_newText : string }.

Record ISingleEditOperation := mkEdit { edit_text : string; edit_range : IRange }.

Definition _convertOptions (options : FormattingOptions) : FormatCodeOptions :=
  {| ConvertTabsToSpaces := insertSpaces options;
     TabSize := tabSize options;
     IndentSize := tabSize options;
     IndentStyle_ := IndentStyle_Smart;
     NewLineCharacter := JS.newline;
     InsertSpaceAfterCommaDelimiter := true;
     InsertSpaceAfterSemicolonInForStatements := true;
     InsertSpaceBeforeAndAfterBinaryOperators := true;
     InsertSpaceAfterKeywordsInControlFlowStatements := true;
     InsertSpaceAfterFunctionKeywordForAnonymousFunctions := true;
     InsertSpaceAfterOpeningAndBeforeClosingNonemptyParenthesis := false;
     InsertSpaceAfterOpeningAndBeforeClosingNonemptyBrackets := false;
     InsertSpaceAfterOpeningAndBeforeClosingTemplateStringBraces := false;
     PlaceOpenBraceOnNewLineForControlBlocks := false;
     PlaceOpenBraceOnNewLineForFunctions := false |}.

Definition _convertTextChanges (editor : Editor) (uri : Uri) (change : TextChange)
  : result ISingleEditOperation :=
  range <- _textSpanToRange editor uri (change_span change);;
  Ok {| edit_text := change_newText change; edit_range := range |}.

(** The callback both formatting providers run on the edits of the
    worker. *)
Definition formattingEdits_then (editor : Editor) (resource : Uri)
    (edits : option (list TextChange)) : result (option (list ISingleEditOperation)) :=
  match edits with
  | Some edits =>
      operations <- mapM (_convertTextChanges editor resource) edits;;
      Ok (Some operations)
  | None => Ok None
  end.

Definition provideDocumentRangeFormattingEdits (editor : Editor) (model : IModel)
    (range : IRange) (options : FormattingOptions)
    (getFormattingEditsForRange :
       string -> Z -> Z -> FormatCodeOptions -> option (list TextChange))
  : result (option (list ISingleEditOperation)) :=
  let resource := model_uri model in
  startOffset <- _positionToOffset editor resource
                   {| lineNumber := startLineNumber range; column := startColumn range |};;
  endOffset <- _positionToOffset editor resource
                 {| lineNumber := endLineNumber range; column := endColumn range |};;
  formattingEdits_then editor resource
    (getFormattingEditsForRange resource startOffset endOffset (_convertOptions options)).

Definition provideOnTypeFormattingEdits (editor : Editor) (model : IModel)
    (position : Position) (ch : string) (options : FormattingOptions)
    (getFormattingEditsAfterKeystroke :
       string -> Z -> string -> FormatCodeOptions -> option (list TextChange))
  : result (option (list ISingleEditOperation)) :=
  let resource := model_uri model in
  offset <- _positionToOffset editor resource position;;
  formattingEdits_then editor resource
    (getFormattingEditsAfterKeystroke resource offset ch (_convertOptions options)).

(* ===================================================================== *)
(** * Reference definitions for the statements below *)
(* ===================================================================== *)

(** The range of a span in an open document. *)
Definition spanRange (m : IModel) (span : TextSpan) : IRange :=
  let p1 := getPositionAt m (span_start span) in
  let p2 := getPositionAt m (span_start span + span_length span) in
  mkRange (lineNumber p1) (column p1) (lineNumber p2) (column p2).

Definition childrenOf (item : NavigationBarItem) : list NavigationBarItem :=
  match nav_childItems item with
  | Some children => children
  | None => []
  end.

(** Every node of the tree has a first span. *)
Fixpoint has_span (item : NavigationBarItem) : bool :=
  match item with
  | NavItem _ _ spans childItems =>
      match spans with [] => false | _ :: _ => true end
      && match childItems with
         | Some children => forallb has_span children
         | None => true
         end
  end.

(** The symbol of one node, given the name of its parent. *)
Definition symbolOf (m : IModel) (resource : Uri) (container : option string)
    (item : NavigationBarItem) : SymbolInformation :=
  {| sym_name := nav_text item;
     sym_kind := outlineKind (nav_kind item);
     sym_location :=
       {| loc_uri := resource;
          loc_range := spanRange m (default (mkSpan 0 0) (head (nav_spans item))) |};
     sym_containerName := container |}.

(** Post-order flattening: the subtrees of the children from left to
    right, each child with the name of this node as container, then the
    node itself. *)
Fixpoint flattenPostOrder (m : IModel) (resource : Uri) (container : option string)
    (item : NavigationBarItem) {struct item} : list SymbolInformation :=
  match item with
  | NavItem text _ _ childItems =>
      match childItems with
      | Some children => flat_map (flattenPostOrder m resource (Some text)) children
      | None => []
      end ++ [symbolOf m resource container item]
  end.

(** Pre-order flattening: the node itself, then the subtrees of the
    children from left to right. *)
Fixpoint flattenPreOrder (m : IModel) (resource : Uri) (container : option string)
    (item : NavigationBarItem) {struct item} : list SymbolInformation :=
  match item with
  | NavItem text _ _ childItems =>
      symbolOf m resource container item ::
      match childItems with
      | Some children => flat_map (flattenPreOrder m resource (Some text)) children
      | None => []
      end
  end.

(** An editor with one open document. *)
Definition singleEditor (m : IModel) : Editor :=
  fun u => if String.eqb u (model_uri m) then Some m else None.

(** A document of one line: offsets and columns differ by one. *)
Definition lineModel (u : Uri) (content : string) (wordAt : Position -> option IWordAtPosition)
    (wordUntil : Position -> IWordAtPosition) : IModel :=
  {| model_uri := u;
     getModeId := "typescript";
     getValue := content;
     getLineContent := fun _ => content;
     getOffsetAt := fun p => column p - 1;
     getPositionAt := fun offset => mkPosition 1 (offset + 1);
     getWordAtPosition := wordAt;
     getWordUntilPosition := wordUntil |}.

(** The tree [Module{Class{method1, method2}}] and a one-line document. *)
Definition exampleTree : NavigationBarItem :=
  NavItem "Module" Kind.module [mkSpan 0 40]
    (Some [ NavItem "Class" Kind.class [mkSpan 10 30]
              (Some [ NavItem "method1" Kind.memberFunction [mkSpan 20 5] None;
                      NavItem "method2" Kind.memberFunction [mkSpan 26 5] (Some []) ]) ]).

Definition exampleModel : IModel :=
  lineModel "file:///a.ts" "module Module { class Class { m1(){} m2(){} } }"
    (fun _ => None) (fun p => mkWord "" (column p) (column p)).

Definition outlineWorker : TypeScriptWorker :=
  {| getCompletionsAtPosition := fun _ _ => None;
     getNavigateToItems := fun _ => None;
     getCompletionEntryDetailsAndSnippet := fun _ _ _ _ => None;
     getCompletionEntryDetails := fun _ _ _ => None;
     getQuickInfoAtPosition := fun _ _ => None;
     getSignatureHelpItems := fun _ _ => None;
     getNavigationBarItems := fun _ => Some [exampleTree] |}.

(** The candidates made of the direct completions and of the symbols of the
    search, for the answers [info] and [navigation] of the worker. *)
Definition directCandidates (ctx : CompletionContext) (info : CompletionInfo)
  : list MyCompletionItem :=
  map (suggestionOfEntry ctx)
      (List.filter (fun entry => negb (excluded (ce_name entry))) (entries info)).

Definition fuzzyCandidates (ctx : CompletionContext)
    (navigation : option (list NavigateToItem)) : list MyCompletionItem :=
  map (navigateToCandidate ctx)
      (List.filter (keepNavigateTo ctx) (default [] navigation)).

(** A line [ab.cd] with the cursor at its end, and a worker with answers
    to a completion request there. *)
Definition qualifiedModel : IModel :=
  lineModel "file:///a.ts" "ab.cd"
    (fun p => if column p =? 6 then Some (mkWord "cd" 4 6) else None)
    (fun p => if column p =? 6 then mkWord "cd" 4 6
              else if column p =? 3 then mkWord "ab" 1 3
              else mkWord "" (column p) (column p)).

Definition cursor : Position := mkPosition 1 6.

Definition cdShow : NavigateToItem :=
  mkNavigateTo "cdShow" Kind.function "export" "file:///lib.ts" (mkSpan 100 6) "basic".

Definition directAnswer : CompletionInfo :=
  {| entries := [ mkEntry "cdata" Kind.variable "0";
                  mkEntry "import" Kind.keyword "0";
                  mkEntry "readonly" Kind.keyword "0" ] |}.

Definition suggestWorker : TypeScriptWorker :=
  {| getCompletionsAtPosition := fun _ _ => Some directAnswer;
     getNavigateToItems := fun _ =>
       Some [ cdShow;
              mkNavigateTo "cdHide" Kind.function "export" "file:///lib.ts" (mkSpan 200 6) "ab";
              mkNavigateTo "cdLocal" Kind.function "" "file:///lib.ts" (mkSpan 300 7) "";
              mkNavigateTo "cdValue" Kind.variable "export" "file:///lib.ts" (mkSpan 400 7) "basic" ];
     getCompletionEntryDetailsAndSnippet := fun _ _ _ _ => None;
     getCompletionEntryDetails := fun _ _ _ => None;
     getQuickInfoAtPosition := fun _ _ => None;
     getSignatureHelpItems := fun _ _ => None;
     getNavigationBarItems := fun _ => None |}.

(** The same worker without an answer to the direct completions. *)
Definition searchOnlyWorker : TypeScriptWorker :=
  {| getCompletionsAtPosition := fun _ _ => None;
     getNavigateToItems := getNavigateToItems suggestWorker;
     getCompletionEntryDetailsAndSnippet := fun _ _ _ _ => None;
     getCompletionEntryDetails := fun _ _ _ => None;
     getQuickInfoAtPosition := fun _ _ => None;
     getSignatureHelpItems := fun _ _ => None;
     getNavigationBarItems := fun _ => None |}.

(** The request [resolveCompletionItem] sends for a candidate that is not
    a snippet: at the place of the symbol for a candidate of the search, at
    the cursor otherwise. *)
Definition resolveTarget (m : IModel) (item : MyCompletionItem) : string * Z :=
  match navigation item with
  | Some nav => (nt_fileName nav, span_start (nt_textSpan nav))
  | None => (uri item, getOffsetAt m (position item))
  end.

(** [ts.displayPartsToString] as the language service defines it: the
    texts of the parts, joined. *)
Definition joinParts (parts : DisplayParts) : string :=
  match parts with
  | Some ps => JS.join "" (map part_text ps)
  | None => ""
  end.

Definition forCandidate : MyCompletionItem :=
  suggestionOfEntry (completionContext qualifiedModel cursor) (mkEntry "for" Kind.keyword "0").

Definition cdataCandidate : MyCompletionItem :=
  suggestionOfEntry (completionContext qualifiedModel cursor) (mkEntry "cdata" Kind.variable "0").

(** The hover made of the quick info alone. *)
Definition quickInfoHover (displayPartsToString : DisplayParts -> string)
    (m : IModel) (info : QuickInfo) : Hover :=
  {| hover_range := spanRange m (qi_textSpan info);
     hover_contents := [displayPartsToString (qi_displayParts info)] |}.

(** A call [foo()] of a function without parameters, hovered inside. *)
Definition callModel : IModel :=
  lineModel "file:///a.ts" "foo()" (fun _ => None) (fun p => mkWord "" (column p) (column p)).

Definition fooInfo : QuickInfo :=
  {| qi_textSpan := mkSpan 0 3;
     qi_displayParts := Some [mkPart "function foo(): void" "text"] |}.

Definition fooSignature : SignatureHelpItems :=
  {| items := [ {| parameters := [] |} ];
     applicableSpan := mkSpan 4 0;
     selectedItemIndex := 0;
     argumentIndex := 0;
     argumentCount := 0 |}.

Definition callWorker : TypeScriptWorker :=
  {| getCompletionsAtPosition := fun _ _ => None;
     getNavigateToItems := fun _ => None;
     getCompletionEntryDetailsAndSnippet := fun _ _ _ _ => None;
     getCompletionEntryDetails := fun _ _ _ => None;
     getQuickInfoAtPosition := fun _ _ => Some fooInfo;
     getSignatureHelpItems := fun _ _ => Some fooSignature;
     getNavigationBarItems := fun _ => None |}.

(** The offset of the [i]-th piece of a text split at commas: the lengths
    of the pieces before it, and one comma after each. *)
Fixpoint slotOffset (pieces : list string) (i : nat) : nat :=
  match i, pieces with
  | S i', piece :: pieces' => String.length piece + 1 + slotOffset pieces' i'
  | _, _ => 0
  end.

(** The span of the active argument at its own place in the applicable
    span. *)
Definition argumentSlot (model : IModel) (signature : SignatureHelpItems)
  : option TextSpan :=
  let span := applicableSpan signature in
  let parametersStr := JS.substr (getValue model) (span_start span) (span_length span) in
  let pieces := JS.split "," parametersStr in
  match at_index pieces (argumentIndex signature) with
  | Some argument =>
      Some {| span_start := span_start span
                            + Z.of_nat (slotOffset pieces (Z.to_nat (argumentIndex signature)));
              span_length := JS.length argument |}
  | None => None
  end.

(** A call [f(x,x)], hovered on its second argument. *)
Definition twiceModel : IModel :=
  lineModel "file:///a.ts" "f(x,x)" (fun _ => None) (fun p => mkWord "" (column p) (column p)).

Definition twiceSignature : SignatureHelpItems :=
  {| items := [ {| parameters :=
                     [ {| par_documentation := None;
                          par_displayParts := Some [mkPart "a: number" "text"] |};
                       {| par_documentation := None;
                          par_displayParts := Some [mkPart "b: number" "text"] |} ] |} ];
     applicableSpan := mkSpan 2 3;
     selectedItemIndex := 0;
     argumentIndex := 1;
     argumentCount := 2 |}.

Definition twiceWorker : TypeScriptWorker :=
  {| getCompletionsAtPosition := fun _ _ => None;
     getNavigateToItems := fun _ => None;
     getCompletionEntryDetailsAndSnippet := fun _ _ _ _ => None;
     getCompletionEntryDetails := fun _ _ _ => None;
     getQuickInfoAtPosition := fun _ _ => None;
     getSignatureHelpItems := fun _ _ => Some twiceSignature;
     getNavigationBarItems := fun _ => None |}.

(** The pending timers of a document. *)
Definition pending (u : Uri) (s : State) : list Timer :=
  List.filter (fun t => String.eqb (timer_uri t) u) (timers s).

Definition fourHooks : list Disposable :=
  [ D_onDidCreateModel; D_onWillDisposeModel; D_onDidChangeModelLanguage;
    D_onDidChangeDefaults ].

(** The registry, the closures and the timers of an adapter that listens
    to no document twice: the listeners of the registry are the
    subscribed closures, one per tracked document, every tracked document
    is open, and every pending timer is the one the variable [handle] of a
    subscribed closure names. It holds after the constructor and as long
    as no document of the language of the adapter is created ([steady]). *)
Record Core (s : State) : Prop := mkCore {
  core_listener : forall u id, _listener s !! u = Some id ->
    exists c, closures s !! id = Some c /\ c_uri c = u /\ c_subscribed c = true;
  core_subscribed : forall id c, closures s !! id = Some c -> c_subscribed c = true ->
    _listener s !! c_uri c = Some id;
  core_timers : forall t, In t (timers s) ->
    exists id c, closures s !! id = Some c /\ c_subscribed c = true
                 /\ c_handle c = Some (timer_id t) /\ timer_uri t = c_uri c;
  core_fresh : forall t, In t (timers s) -> (timer_id t < nextTimer s)%nat;
  core_nodup : NoDup (map timer_id (timers s));
  core_tracked : forall u id, _listener s !! u = Some id -> In u (map m_uri (models s));
  core_models : NoDup (map m_uri (models s))
}.

(** The subscriptions to the editor: all of them until [dispose], none and
    no listener after it. *)
Definition Hooked (s : State) : Prop :=
  (hooks s = fourHooks /\ _disposables s = allDisposables)
  \/ (hooks s = [] /\ _disposables s = [] /\ _listener s = ∅).

Definition Inv (s : State) : Prop := Core s /\ Hooked s.

(** The event at which the adapter subscribes twice to a document: the
    creation of a document of its language, where the listener of the
    language change and the listener of the creation both run
    [onModelAdd]. *)
Definition creates (selector : string) (e : Event) : bool :=
  match e with
  | CreateModel _ mode => String.eqb mode selector && negb (String.eqb mode plaintext)
  | _ => false
  end.

(** The states the adapter is in as long as no document of its language
    was created since its construction: the documents of its language are
    those that were open then, and those that got it by a language
    change. *)
Definition steady (selector : string) (s : State) : Prop :=
  exists now ms events,
    NoDup (map m_uri ms)
    /\ forallb (fun e => negb (creates selector e)) events = true
    /\ s = run selector events (DiagnostcsAdapter_new selector now ms).

(** The version of an open document. *)
Definition versionOf (s : State) (u : Uri) : option Z := m_version <$> getModel s u.

(** An editor with one TypeScript document and one JSON document; the
    TypeScript document was changed and its timer is pending. *)
Definition editedState : State :=
  run "typescript" [ChangeContent "file:///a.ts"]
    (DiagnostcsAdapter_new "typescript" 0
       [ mkModelState "file:///a.ts" "typescript" 1;
         mkModelState "file:///b.json" "json" 1 ]).

(** The number of nodes of a tree. *)
Fixpoint nodeCount (item : NavigationBarItem) : nat :=
  match item with
  | NavItem _ _ _ childItems =>
      S (match childItems with
         | Some children => list_sum (map nodeCount children)
         | None => 0%nat
         end)
  end.

(** The tree [Module{Class{method1, method2}}] whose node [method2] has no
    span. *)
Definition spanlessTree : NavigationBarItem :=
  NavItem "Module" Kind.module [mkSpan 0 40]
    (Some [ NavItem "Class" Kind.class [mkSpan 10 30]
              (Some [ NavItem "method1" Kind.memberFunction [mkSpan 20 5] None;
                      NavItem "method2" Kind.memberFunction [] None ]) ]).

Definition spanlessWorker : TypeScriptWorker :=
  {| getCompletionsAtPosition := fun _ _ => None;
     getNavigateToItems := fun _ => None;
     getCompletionEntryDetailsAndSnippet := fun _ _ _ _ => None;
     getCompletionEntryDetails := fun _ _ _ => None;
     getQuickInfoAtPosition := fun _ _ => None;
     getSignatureHelpItems := fun _ _ => None;
     getNavigationBarItems := fun _ => Some [spanlessTree] |}.

(** The line [ab.cd+1] with the cursor after [cd], and a worker that knows
    the details of every entry. *)
Definition midLineModel : IModel :=
  lineModel "file:///a.ts" "ab.cd+1"
    (fun p => if column p =? 6 then Some (mkWord "cd" 4 6) else None)
    (fun p => if column p =? 6 then mkWord "cd" 4 6
              else if column p =? 3 then mkWord "ab" 1 3
              else mkWord "" (column p) (column p)).

Definition cdataDetails : CompletionEntryDetails :=
  {| det_name := "cdata";
     det_kind := Kind.variable;
     det_displayParts := Some [mkPart "var cdata: number" "text"];
     det_documentation := Some [mkPart "The data." "text"] |}.

Definition detailsWorker : TypeScriptWorker :=
  {| getCompletionsAtPosition := fun _ _ => Some directAnswer;
     getNavigateToItems := fun _ => None;
     getCompletionEntryDetailsAndSnippet := fun _ _ _ _ => Some (Some cdataDetails, "cdata()");
     getCompletionEntryDetails := fun _ _ _ => Some cdataDetails;
     getQuickInfoAtPosition := fun _ _ => None;
     getSignatureHelpItems := fun _ _ => None;
     getNavigationBarItems := fun _ => None |}.

Definition midLineCandidate : MyCompletionItem :=
  suggestionOfEntry (completionContext midLineModel cursor) (mkEntry "cdata" Kind.variable "0").

(** The signatures of a function of two parameters. *)
Definition parametersOfTwice : list SignatureHelpItem := items twiceSignature.

(** A call [f(ab,cd)] hovered on its second argument, and the same call
    with a third argument that [f] has no parameter for. *)
Definition pairModel : IModel :=
  lineModel "file:///a.ts" "f(ab,cd)" (fun _ => None) (fun p => mkWord "" (column p) (column p)).

Definition pairSignature : SignatureHelpItems :=
  {| items := parametersOfTwice;
     applicableSpan := mkSpan 2 5;
     selectedItemIndex := 0;
     argumentIndex := 1;
     argumentCount := 2 |}.

Definition tripleSignature : SignatureHelpItems :=
  {| items := parametersOfTwice;
     applicableSpan := mkSpan 2 8;
     selectedItemIndex := 0;
     argumentIndex := 2;
     argumentCount := 3 |}.

Definition singleSignature : SignatureHelpItems :=
  {| items := parametersOfTwice;
     applicableSpan := mkSpan 2 2;
     selectedItemIndex := 0;
     argumentIndex := 0;
     argumentCount := 1 |}.

Definition fooDetails : CompletionEntryDetails :=
  {| det_name := "foo";
     det_kind := Kind.function;
     det_displayParts := Some [mkPart "function foo(): void" "text"];
     det_documentation := Some [mkPart "Does foo." "text"] |}.

(** The marker of a diagnostic in an open document. *)
Definition markerOf (flattenDiagnosticMessageText : MessageText -> string -> string)
    (m : IModel) (diag : Diagnostic) : IMarkerData :=
  let range := spanRange m (mkSpan (diag_start diag) (diag_length diag)) in
  {| marker_severity := Severity_Error;
     marker_startLineNumber := startLineNumber range;
     marker_startColumn := startColumn range;
     marker_endLineNumber := endLineNumber range;
     marker_endColumn := endColumn range;
     marker_message := flattenDiagnosticMessageText (diag_messageText diag) JS.newline |}.

(** The diagnostics of each kind that a pass under [options] asks for. *)
Definition syntacticOf (options : DiagnosticsOptions) (worker : DiagnosticsWorker)
    (resource : Uri) : list Diagnostic :=
  if noSyntaxValidation options then [] else getSyntacticDiagnostics worker resource.

Definition semanticOf (options : DiagnosticsOptions) (worker : DiagnosticsWorker)
    (resource : Uri) : list Diagnostic :=
  if noSemanticValidation options then [] else getSemanticDiagnostics worker resource.

(** The text of a message as the TypeScript library flattens it: a plain
    text as it is; the texts of a chain on lines of their own, the link
    number [indent] after a new line and [indent] times two spaces. *)
Fixpoint indentation (indent : nat) : string :=
  match indent with
  | O => ""
  | S indent' => "  " +:+ indentation indent'
  end.

Fixpoint chainText (chain : DiagnosticMessageChain) (newLine : string) (indent : nat)
  : string :=
  match chain with
  | MessageChain text next =>
      (match indent with O => "" | S _ => newLine +:+ indentation indent end)
      +:+ text
      +:+ match next with
          | Some next' => chainText next' newLine (S indent)
          | None => ""
          end
  end.

Definition messageTextOf (message : MessageText) (newLine : string) : string :=
  match message with
  | PlainMessage text => text
  | ChainedMessage chain => chainText chain newLine 0
  end.

Definition exampleDiagnosticsWorker : DiagnosticsWorker :=
  {| getSyntacticDiagnostics := fun _ => [mkDiagnostic 0 1 (PlainMessage "';' expected.")];
     getSemanticDiagnostics := fun _ =>
       [mkDiagnostic 2 3 (PlainMessage "Cannot find name 'cd'.")] |}.

(** The location of a span of the document [uri], when it is open. *)
Definition locationIn (editor : Editor) (uri : Uri) (span : TextSpan)
  : option Location :=
  match editor uri with
  | Some m => Some {| loc_uri := uri; loc_range := spanRange m span |}
  | None => None
  end.

(** The signature of an item, with its label spelled out. *)
Definition signatureSpelledOut (displayPartsToString : DisplayParts -> string)
    (item : SignatureHelpItemParts) : SignatureInformation :=
  {| si_label :=
       displayPartsToString (prefixDisplayParts item)
       +:+ JS.join (displayPartsToString (separatorDisplayParts item))
             (map (fun p => displayPartsToString (par_displayParts p)) (sig_parameters item))
       +:+ displayPartsToString (suffixDisplayParts item);
     si_documentation := None;
     si_parameters :=
       map (fun p => {| pi_label := displayPartsToString (par_displayParts p);
                        pi_documentation := displayPartsToString (par_documentation p) |})
           (sig_parameters item) |}.

(** The highlight of an occurrence in an open document. *)
Definition highlightOf (m : IModel) (entry : ReferenceEntry) : DocumentHighlight :=
  {| dh_range := spanRange m (ref_textSpan entry);
     dh_kind := if ref_isWriteAccess entry then DHK_Write else DHK_Text |}.

(** The edit of a text change in an open document. *)
Definition editOf (m : IModel) (change : TextChange) : ISingleEditOperation :=
  {| edit_text := change_newText change; edit_range := spanRange m (change_span change) |}.

(** The adapter after [dispose]: nothing subscribed, nothing to dispose,
    no listener. *)
Definition Disposed (s : State) : Prop :=
  hooks s = [] /\ _disposables s = [] /\ _listener s = ∅.

(** An editor with the TypeScript document and the JSON document, before
    any change. *)
Definition openedState : State :=
  DiagnostcsAdapter_new "typescript" 0
    [ mkModelState "file:///a.ts" "typescript" 1;
      mkModelState "file:///b.json" "json" 1 ].

(** The open documents of language [selector]. *)
Definition ofLanguage (selector : string) (s : State) (u : Uri) : Prop :=
  exists m, In m (models s) /\ m_uri m = u /\ m_modeId m = selector.

(** The documents with a listener are the open documents of the
    language. *)
Definition Tracking (selector : string) (s : State) : Prop :=
  forall u, is_Some (_listener s !! u) <-> ofLanguage selector s u.

(** The timer the variable [handle] of closure [id] names. *)
Definition handleOf (s : State) (id : nat) : option nat := closures s !! id ≫= c_handle.

(** The variables [handle] of the closures name timers that were started,
    and no two of them name the same timer. *)
Record Handles (s : State) : Prop := mkHandles {
  handles_started : forall id h, handleOf s id = Some h -> (h < nextTimer s)%nat;
  handles_unique : forall id id' h,
    handleOf s id = Some h -> handleOf s id' = Some h -> id = id'
}.

(** What holds of the registry, the closures and the timers in every
    state the adapter can be in, also when a closure listens to a
    document without being in the registry: a listener in the registry is
    a subscribed closure of its document, which is open; every pending
    timer is the one the variable [handle] of a closure of its document
    names; the open documents have distinct names, and a closure is
    subscribed to an open document only. *)
Record Sound (s : State) : Prop := mkSound {
  sound_listener : forall u id, _listener s !! u = Some id ->
    exists c, closures s !! id = Some c /\ c_uri c = u /\ c_subscribed c = true;
  sound_timers : forall t, In t (timers s) ->
    exists id c, closures s !! id = Some c
                 /\ c_handle c = Some (timer_id t) /\ timer_uri t = c_uri c;
  sound_nodup : NoDup (map timer_id (timers s));
  sound_tracked : forall u id, _listener s !! u = Some id -> In u (map m_uri (models s));
  sound_models : NoDup (map m_uri (models s));
  sound_subscribed : forall id c, closures s !! id = Some c -> c_subscribed c = true ->
    In (c_uri c) (map m_uri (models s))
}.

(** The document an event of the editor is about. *)
Definition eventDocument (e : Event) : option Uri :=
  match e with
  | CreateModel u _ | DisposeModel u | SetModelLanguage u _ | ChangeContent u => Some u
  | ChangeDefaults | Tick _ | Dispose => None
  end.

(** An editor without documents, in which a TypeScript document is
    created and then changed once. *)
Definition createdState : State :=
  run "typescript"
    [CreateModel "file:///c.ts" "typescript"; ChangeContent "file:///c.ts"]
    (DiagnostcsAdapter_new "typescript" 0 []).

(** A pending timer that no listener of the registry names: [dispose],
    which disposes of the listeners of the registry, does not cancel
    it. *)
Definition Orphan (t : Timer) (s : State) : Prop :=
  In t (timers s)
  /\ forall u id c, _listener s !! u = Some id -> closures s !! id = Some c ->
                    c_handle c <> Some (timer_id t).

(* ===================================================================== *)
(** * Properties of the outline *)
(* ===================================================================== *)

(** Induction on a symbol tree, with the property for all children of a
    node at hand. *)
Lemma NavigationBarItem_ind_children (P : NavigationBarItem -> Prop) :
  (forall item, Forall P (childrenOf item) -> P item) ->
  forall item, P item.
Proof.
  intros step_case. fix IH 1. intros [text kind spans childItems].
  apply step_case. unfold childrenOf. cbn [nav_childItems].
  destruct childItems as [children|]; [|constructor].
  revert children. fix IHchildren 1. intros [|child children]; constructor.
  - apply IH.
  - apply IHchildren.
Qed.

Lemma textSpanToRange_open editor resource m span :
  editor resource = Some m ->
  _textSpanToRange editor resource span = Ok (spanRange m span).
Proof.
  intros Hopen. unfold _textSpanToRange, _offsetToPosition. rewrite Hopen. reflexivity.
Qed.

Lemma forEach_app_flat_map {A B} (f : list B -> A -> result (list B))
    (g : A -> list B) (l : list A) :
  Forall (fun a => forall bucket, f bucket a = Ok (bucket ++ g a)) l ->
  forall bucket, forEach f l bucket = Ok (bucket ++ flat_map g l).
Proof.
  induction 1 as [|a l Ha _ IH]; intros bucket; simpl.
  - by rewrite app_nil_r.
  - rewrite Ha. simpl. rewrite IH. by rewrite <- app_assoc.
Qed.

Lemma convert_postorder editor resource m item :
  editor resource = Some m ->
  has_span item = true ->
  forall bucket container,
    convert editor resource bucket item container
    = Ok (bucket ++ flattenPostOrder m resource container item).
Proof.
  intros Hopen. induction item as [item IH] using NavigationBarItem_ind_children.
  destruct item as [text kind spans childItems]. simpl in IH.
  intros Hspan bucket container. simpl in Hspan.
  apply andb_true_iff in Hspan as [Hspans Hchildren].
  destruct spans as [|span0 spans]; [discriminate|].
  simpl. rewrite (textSpanToRange_open _ _ m) by assumption. simpl.
  destruct childItems as [children|]; simpl.
  - assert (Hall : forEach
              (fun b child => convert editor resource b child (Some text)) children bucket
              = Ok (bucket ++ flat_map (flattenPostOrder m resource (Some text)) children)).
    { apply forEach_app_flat_map.
      unfold childrenOf in IH. simpl in IH.
      rewrite forallb_forall in Hchildren.
      rewrite Forall_forall in IH. apply Forall_forall. intros c Hc b.
      apply IH; [assumption|]. apply Hchildren. by apply list_elem_of_In. }
    destruct children as [|c children].
    + simpl. reflexivity.
    + change (0 <? Z.of_nat (length (c :: children))) with true. cbv iota.
      rewrite Hall. simpl. by rewrite <- app_assoc.
  - reflexivity.
Qed.

(** C1, as amended: when the worker answers with a forest whose nodes all
    have a span, [provideDocumentSymbols] settles to the post-order
    flattening of the forest: the symbols of the subtrees of a node come
    first, children from left to right, each child carrying the name of
    its immediate parent as container, and the node itself comes after
    them; the roots have no container. One request is sent. *)
Theorem outline_flattens_in_postorder editor model m worker forest :
  editor (model_uri model) = Some m ->
  getNavigationBarItems worker (model_uri model) = Some forest ->
  forallb has_span forest = true ->
  provideDocumentSymbols editor model worker
  = {| requests := [GetNavigationBarItems (model_uri model)];
       settled := Ok (Some (flat_map (flattenPostOrder m (model_uri model) None) forest)) |}.
Proof.
  intros Hopen Hanswer Hspans.
  unfold provideDocumentSymbols, bind, call, lift. simpl. rewrite Hanswer.
  unfold documentSymbols_then.
  rewrite (forEach_app_flat_map _ (flattenPostOrder m (model_uri model) None)).
  - reflexivity.
  - rewrite forallb_forall in Hspans. apply Forall_forall. intros item Hin bucket.
    apply convert_postorder; [assumption|]. apply Hspans. by apply list_elem_of_In.
Qed.

Lemma outline_flattens_in_postorder_witness :
  map sym_name
    (flat_map (flattenPostOrder exampleModel "file:///a.ts" None) [exampleTree])
  = ["method1"; "method2"; "Class"; "Module"]
  /\ provideDocumentSymbols (singleEditor exampleModel) exampleModel outlineWorker
     = {| requests := [GetNavigationBarItems "file:///a.ts"];
          settled := Ok (Some (flat_map (flattenPostOrder exampleModel "file:///a.ts" None)
                                 [exampleTree])) |}.
Proof.
  split; [reflexivity|].
  apply (outline_flattens_in_postorder (singleEditor exampleModel) exampleModel
           exampleModel outlineWorker [exampleTree]); reflexivity.
Defined.

(** C1, the claim as written fails: for [Module{Class{method1, method2}}]
    the symbols do not come out in the order Module, Class, method1,
    method2 (parents first) but in the order method1, method2, Class,
    Module. *)
Lemma outline_not_preorder :
  (exists out,
      settled (provideDocumentSymbols (singleEditor exampleModel) exampleModel outlineWorker)
      = Ok (Some out)
      /\ map sym_name out = ["method1"; "method2"; "Class"; "Module"]
      /\ map sym_containerName out = [Some "Class"; Some "Class"; Some "Module"; None])
  /\ ~ (exists out,
      settled (provideDocumentSymbols (singleEditor exampleModel) exampleModel outlineWorker)
      = Ok (Some out)
      /\ map sym_name out = ["Module"; "Class"; "method1"; "method2"])
  /\ settled (provideDocumentSymbols (singleEditor exampleModel) exampleModel outlineWorker)
     <> Ok (Some (flat_map (flattenPreOrder exampleModel "file:///a.ts" None) [exampleTree])).
Proof.
  split; [|split].
  - eexists. split; [vm_compute; reflexivity|]. split; reflexivity.
  - intros (out & Hout & Hnames). vm_compute in Hout.
    injection Hout as <-. discriminate Hnames.
  - vm_compute. discriminate.
Qed.

(* ===================================================================== *)
(** * Properties of the completion list *)
(* ===================================================================== *)

Lemma positionToOffset_open editor resource m position :
  editor resource = Some m ->
  _positionToOffset editor resource position = Ok (getOffsetAt m position).
Proof. intros Hopen. unfold _positionToOffset. rewrite Hopen. reflexivity. Qed.

Lemma foldl_convertNavigateTo ctx l bucket :
  foldl (convertNavigateTo ctx) bucket l = bucket ++ map (navigateToCandidate ctx) l.
Proof.
  revert bucket. induction l as [|entry l IH]; intros bucket; simpl.
  - by rewrite app_nil_r.
  - rewrite IH. unfold convertNavigateTo. by rewrite <- app_assoc.
Qed.

Lemma navigation_then_map ctx navigation :
  navigation_then ctx navigation
  = map (navigateToCandidate ctx)
      (List.filter (keepNavigateTo ctx) (default [] navigation)).
Proof.
  destruct navigation as [[|item l]|]; try reflexivity.
  unfold navigation_then.
  change (Z.of_nat (length (item :: l)) =? 0) with false. cbv iota.
  by rewrite foldl_convertNavigateTo.
Qed.

(** The two requests of [provideCompletionItems] and the list it settles
    to: nothing without direct completions, else the direct candidates
    followed by the candidates of the search. *)
Lemma provideCompletionItems_unfold editor model m position worker :
  editor (model_uri model) = Some m ->
  let ctx := completionContext model position in
  let offset := getOffsetAt m position in
  let wordInfo := getWordUntilPosition model position in
  provideCompletionItems editor model position worker
  = {| requests := [ GetCompletionsAtPosition (model_uri model) offset;
                     GetNavigateToItems (word wordInfo) ];
       settled :=
         Ok (match getCompletionsAtPosition worker (model_uri model) offset with
             | Some info =>
                 Some (directCandidates ctx info
                       ++ fuzzyCandidates ctx (getNavigateToItems worker (word wordInfo)))
             | None => None
             end) |}.
Proof.
  intros Hopen ctx offset wordInfo.
  unfold provideCompletionItems, bind, call, lift, ret.
  change (ctx_resource (completionContext model position)) with (model_uri model).
  cbn [settled requests].
  rewrite (positionToOffset_open _ _ m) by assumption.
  cbn [settled requests app]. fold ctx offset.
  change (ctx_wordInfo ctx) with wordInfo.
  f_equal. f_equal. unfold completions_then.
  destruct (getCompletionsAtPosition worker (model_uri model) offset); [|reflexivity].
  by rewrite navigation_then_map.
Qed.

(** Without an open document the offset cannot be computed and nothing is
    requested. *)
Lemma provideCompletionItems_closed editor model position worker :
  editor (model_uri model) = None ->
  provideCompletionItems editor model position worker
  = {| requests := []; settled := TypeError |}.
Proof.
  intros Hclosed. unfold provideCompletionItems, bind, lift, _positionToOffset.
  change (ctx_resource (completionContext model position)) with (model_uri model).
  cbn [settled requests]. rewrite Hclosed. reflexivity.
Qed.

Lemma provideCompletionItems_settled editor model position worker out :
  settled (provideCompletionItems editor model position worker) = Ok (Some out) ->
  exists m info,
    editor (model_uri model) = Some m
    /\ getCompletionsAtPosition worker (model_uri model) (getOffsetAt m position) = Some info
    /\ out = directCandidates (completionContext model position) info
             ++ fuzzyCandidates (completionContext model position)
                  (getNavigateToItems worker (word (getWordUntilPosition model position))).
Proof.
  destruct (editor (model_uri model)) as [m|] eqn:Hopen.
  - rewrite (provideCompletionItems_unfold _ _ m) by assumption. simpl.
    destruct (getCompletionsAtPosition worker (model_uri model) (getOffsetAt m position))
      as [info|] eqn:Hinfo; [|discriminate].
    intros [= <-]. by exists m, info.
  - rewrite provideCompletionItems_closed by assumption. discriminate.
Qed.

Lemma lookup_foldl_insert_keys (keys : list string) (m0 : gmap string Z) (key : string) :
  foldl (fun m keyword => <[keyword := 1]> m) m0 keys !! key
  = if decide (key ∈ keys) then Some 1 else m0 !! key.
Proof.
  revert m0. induction keys as [|k keys IH]; intros m0.
  - destruct (decide (key ∈ [])) as [Hin|_]; [|reflexivity].
    by apply not_elem_of_nil in Hin.
  - cbn [foldl]. rewrite IH.
    destruct (decide (key ∈ keys)) as [Hin|Hnot];
      destruct (decide (key ∈ k :: keys)) as [Hin'|Hnot']; try reflexivity.
    + exfalso. apply Hnot'. apply elem_of_cons. by right.
    + apply elem_of_cons in Hin' as [->|Hin']; [|contradiction].
      apply lookup_insert_eq.
    + apply lookup_insert_ne. intros ->. apply Hnot'. apply elem_of_cons. by left.
Qed.

(** The names [excluded] rejects are the keys of [exclusionMap]. *)
Lemma excluded_spec name :
  excluded name = true <-> In name exclusionKeywords.
Proof.
  unfold excluded, exclusionMap. rewrite lookup_foldl_insert_keys.
  rewrite <- list_elem_of_In.
  destruct (decide (name ∈ exclusionKeywords)) as [Hin|Hnot].
  - split; [intros _; assumption | reflexivity].
  - rewrite lookup_empty. split; [discriminate | contradiction].
Qed.

Lemma excluded_false name :
  excluded name = false <-> ~ In name exclusionKeywords.
Proof.
  rewrite <- excluded_spec. destruct (excluded name); split; congruence.
Qed.

Lemma fuzzy_has_navigation ctx navigation c :
  In c (fuzzyCandidates ctx navigation) ->
  exists item,
    In item (default [] navigation) /\ keepNavigateTo ctx item = true
    /\ c = navigateToCandidate ctx item.
Proof.
  unfold fuzzyCandidates. intros (item & <- & Hin)%in_map_iff.
  apply filter_In in Hin as [Hin Hkeep]. by exists item.
Qed.

Lemma direct_has_entry ctx info c :
  In c (directCandidates ctx info) ->
  exists entry,
    In entry (entries info) /\ excluded (ce_name entry) = false
    /\ c = suggestionOfEntry ctx entry.
Proof.
  unfold directCandidates. intros (entry & <- & Hin)%in_map_iff.
  apply filter_In in Hin as [Hin Hkeep]. apply negb_true_iff in Hkeep. by exists entry.
Qed.

(** C10: when the worker has no direct completions for the request,
    [provideCompletionItems] settles to no list at all, whatever the symbol
    search (requested next to the direct completions) answered. *)
Theorem no_direct_completions_no_list editor model m position worker :
  editor (model_uri model) = Some m ->
  getCompletionsAtPosition worker (model_uri model) (getOffsetAt m position) = None ->
  provideCompletionItems editor model position worker
  = {| requests := [ GetCompletionsAtPosition (model_uri model) (getOffsetAt m position);
                     GetNavigateToItems (word (getWordUntilPosition model position)) ];
       settled := Ok None |}.
Proof.
  intros Hopen Hinfo.
  rewrite (provideCompletionItems_unfold _ _ m) by assumption.
  by rewrite Hinfo.
Qed.

Lemma no_direct_completions_no_list_witness :
  map label (fuzzyCandidates (completionContext qualifiedModel cursor)
               (getNavigateToItems searchOnlyWorker "cd"))
  = ["basic.cdShow"]
  /\ provideCompletionItems (singleEditor qualifiedModel) qualifiedModel cursor searchOnlyWorker
     = {| requests := [ GetCompletionsAtPosition "file:///a.ts" 5; GetNavigateToItems "cd" ];
          settled := Ok None |}.
Proof.
  split; [reflexivity|].
  apply (no_direct_completions_no_list (singleEditor qualifiedModel) qualifiedModel
           qualifiedModel cursor searchOnlyWorker); reflexivity.
Defined.

(** C4: in the list [provideCompletionItems] settles to, the candidates
    that come from the direct completions (those without a [navigation])
    are exactly the entries of the answer whose name is not a key of the
    exclusion map: no entry named by an exclusion keyword is in the list,
    every other entry is. *)
Theorem excluded_names_filtered editor model position worker out :
  settled (provideCompletionItems editor model position worker) = Ok (Some out) ->
  exists m info,
    editor (model_uri model) = Some m
    /\ getCompletionsAtPosition worker (model_uri model) (getOffsetAt m position) = Some info
    /\ (forall c, In c out -> navigation c = None ->
          ~ In (name c) exclusionKeywords
          /\ exists entry, In entry (entries info)
                           /\ c = suggestionOfEntry (completionContext model position) entry)
    /\ (forall entry, In entry (entries info) -> In (ce_name entry) exclusionKeywords ->
          ~ In (suggestionOfEntry (completionContext model position) entry) out)
    /\ (forall entry, In entry (entries info) -> ~ In (ce_name entry) exclusionKeywords ->
          In (suggestionOfEntry (completionContext model position) entry) out).
Proof.
  intros (m & info & Hopen & Hinfo & ->)%provideCompletionItems_settled.
  exists m, info. split; [assumption|]. split; [assumption|].
  set (ctx := completionContext model position).
  assert (Hdirect : forall c,
             In c (directCandidates ctx info
                   ++ fuzzyCandidates ctx
                        (getNavigateToItems worker (word (getWordUntilPosition model position)))) ->
             navigation c = None ->
             ~ In (name c) exclusionKeywords
             /\ exists entry, In entry (entries info) /\ c = suggestionOfEntry ctx entry).
  { intros c [Hc|Hc]%in_app_iff Hnav.
    - apply direct_has_entry in Hc as (entry & Hin & Hex & ->).
      split; [by apply excluded_false | by exists entry].
    - apply fuzzy_has_navigation in Hc as (item & _ & _ & ->). discriminate Hnav. }
  split; [exact Hdirect|]. split.
  - intros entry Hin Hkey Hout.
    destruct (Hdirect _ Hout eq_refl) as [Hnot _]. by apply Hnot.
  - intros entry Hin Hkey. apply in_app_iff. left.
    unfold directCandidates. apply in_map. apply filter_In. split; [assumption|].
    apply negb_true_iff. by apply excluded_false.
Qed.

Lemma excluded_names_filtered_witness :
  exists out,
    settled (provideCompletionItems (singleEditor qualifiedModel) qualifiedModel cursor
               suggestWorker) = Ok (Some out)
    /\ map label out = ["cdata"; "basic.cdShow"]
    /\ exists m info,
        singleEditor qualifiedModel (model_uri qualifiedModel) = Some m
        /\ getCompletionsAtPosition suggestWorker (model_uri qualifiedModel)
             (getOffsetAt m cursor) = Some info
        /\ (forall c, In c out -> navigation c = None ->
              ~ In (name c) exclusionKeywords
              /\ exists entry, In entry (entries info)
                               /\ c = suggestionOfEntry
                                        (completionContext qualifiedModel cursor) entry)
        /\ (forall entry, In entry (entries info) ->
              In (ce_name entry) exclusionKeywords ->
              ~ In (suggestionOfEntry (completionContext qualifiedModel cursor) entry) out)
        /\ (forall entry, In entry (entries info) ->
              ~ In (ce_name entry) exclusionKeywords ->
              In (suggestionOfEntry (completionContext qualifiedModel cursor) entry) out).
Proof.
  eexists. split; [vm_compute; reflexivity|]. split; [reflexivity|].
  apply (excluded_names_filtered (singleEditor qualifiedModel) qualifiedModel cursor
           suggestWorker).
  vm_compute. reflexivity.
Defined.

Lemma truthy_nonempty s : JS.truthy s = true <-> s <> "".
Proof. destruct s; simpl; split; congruence. Qed.

Lemma length_nonneg s : 0 <= JS.length s.
Proof. unfold JS.length. lia. Qed.

Lemma keepNavigateTo_true ctx item :
  keepNavigateTo ctx item = true ->
  nt_kind item = Kind.function
  /\ nt_kindModifiers item <> ""
  /\ (ctx_isNamespace ctx = true -> nt_containerName item <> word (ctx_prevWordInfo ctx)).
Proof.
  unfold keepNavigateTo.
  intros [[Hkind Hmod%negb_true_iff]%andb_true_iff Hns]%andb_true_iff.
  apply String.eqb_eq in Hkind. apply String.eqb_neq in Hmod.
  repeat split; try assumption.
  intros Hq. rewrite Hq in Hns. apply negb_true_iff in Hns. by apply String.eqb_neq.
Qed.

(** C5: every candidate of the list that comes from the symbol search is
    made of a symbol of kind [function] with non-empty kind modifiers, and
    when the word before the word being typed is not empty, the container
    of the symbol (which is the container name of the candidate) is not
    that word. *)
Theorem fuzzy_candidates_filtered editor model position worker out c item :
  settled (provideCompletionItems editor model position worker) = Ok (Some out) ->
  In c out ->
  navigation c = Some item ->
  let prevWordInfo := ctx_prevWordInfo (completionContext model position) in
  nt_kind item = Kind.function
  /\ nt_kindModifiers item <> ""
  /\ containerName c = Some (nt_containerName item)
  /\ (word prevWordInfo <> "" -> containerName c <> Some (word prevWordInfo)).
Proof.
  intros (m & info & Hopen & Hinfo & ->)%provideCompletionItems_settled Hin Hnav prev.
  apply in_app_iff in Hin as [Hc|Hc].
  - apply direct_has_entry in Hc as (entry & _ & _ & ->). discriminate Hnav.
  - apply fuzzy_has_navigation in Hc as (item' & _ & Hkeep & ->).
    simpl in Hnav. injection Hnav as ->.
    apply keepNavigateTo_true in Hkeep as (Hkind & Hmod & Hns).
    repeat split; try assumption.
    intros Hword Heq. simpl in Heq. injection Heq as Heq.
    apply Hns; [|exact Heq]. apply truthy_nonempty. exact Hword.
Qed.

Lemma fuzzy_candidates_filtered_witness :
  let ctx := completionContext qualifiedModel cursor in
  let out := directCandidates ctx directAnswer
             ++ fuzzyCandidates ctx (getNavigateToItems suggestWorker "cd") in
  map label out = ["cdata"; "basic.cdShow"]
  /\ word (ctx_prevWordInfo ctx) = "ab"
  /\ nt_kind cdShow = Kind.function
  /\ nt_kindModifiers cdShow <> ""
  /\ containerName (navigateToCandidate ctx cdShow) = Some (nt_containerName cdShow)
  /\ (word (ctx_prevWordInfo ctx) <> "" ->
      containerName (navigateToCandidate ctx cdShow) <> Some (word (ctx_prevWordInfo ctx))).
Proof.
  intros ctx out. split; [reflexivity|]. split; [reflexivity|].
  apply (fuzzy_candidates_filtered (singleEditor qualifiedModel) qualifiedModel cursor
           suggestWorker out (navigateToCandidate ctx cdShow) cdShow).
  - vm_compute. reflexivity.
  - vm_compute. right. left. reflexivity.
  - reflexivity.
Defined.

Lemma newRange_ordered line startCol endCol :
  startCol <= endCol -> newRange line startCol line endCol = mkRange line startCol line endCol.
Proof.
  intros Hle. unfold newRange.
  replace (line <? line) with false by (symmetry; apply Z.ltb_irrefl).
  replace (endCol <? startCol) with false by (symmetry; apply Z.ltb_ge; lia).
  by rewrite andb_false_r.
Qed.

(** C2, as amended: provided the editor's word at the cursor, and the word
    before it when that one is not empty, start their length before the
    column they were asked for, every candidate of the list that comes from the symbol
    search carries a range on the line of the cursor that ends at the
    column of the cursor and starts where the word being typed starts, or,
    when the word before it is not empty, where that word starts; the
    candidates that come from the direct completions carry no range. *)
Theorem fuzzy_candidates_range editor model position worker out c :
  let ctx := completionContext model position in
  let wordInfo := ctx_wordInfo ctx in
  let prevWordInfo := ctx_prevWordInfo ctx in
  word_startColumn wordInfo + JS.length (word wordInfo) = column position ->
  (word prevWordInfo <> "" ->
   word_startColumn prevWordInfo + JS.length (word prevWordInfo)
   = word_startColumn wordInfo - 1) ->
  settled (provideCompletionItems editor model position worker) = Ok (Some out) ->
  In c out ->
  match navigation c with
  | Some _ =>
      range c = Some {| startLineNumber := lineNumber position;
                        startColumn := if JS.truthy (word prevWordInfo)
                                       then word_startColumn prevWordInfo
                                       else word_startColumn wordInfo;
                        endLineNumber := lineNumber position;
                        endColumn := column position |}
  | None => range c = None
  end.
Proof.
  intros ctx wordInfo prevWordInfo Hword Hprev
    (m & info & Hopen & Hinfo & ->)%provideCompletionItems_settled Hin.
  apply in_app_iff in Hin as [Hc|Hc].
  - apply direct_has_entry in Hc as (entry & _ & _ & ->). reflexivity.
  - apply fuzzy_has_navigation in Hc as (item & _ & _ & ->).
    cbn [navigation range navigateToCandidate].
    fold ctx. fold wordInfo prevWordInfo.
    assert (Hns : ctx_isNamespace ctx = JS.truthy (word prevWordInfo)) by reflexivity.
    assert (Hpos : ctx_position ctx = position) by reflexivity.
    rewrite Hns, Hpos.
    pose proof (length_nonneg (word wordInfo)).
    pose proof (length_nonneg (word prevWordInfo)).
    destruct (JS.truthy (word prevWordInfo)) eqn:Htruthy.
    + apply truthy_nonempty in Htruthy. specialize (Hprev Htruthy).
      rewrite newRange_ordered by lia. do 2 f_equal. lia.
    + rewrite newRange_ordered by lia. do 2 f_equal. lia.
Qed.

Lemma fuzzy_candidates_range_witness :
  let ctx := completionContext qualifiedModel cursor in
  let out := directCandidates ctx directAnswer
             ++ fuzzyCandidates ctx (getNavigateToItems suggestWorker "cd") in
  label (navigateToCandidate ctx cdShow) = "basic.cdShow"
  /\ range (navigateToCandidate ctx cdShow) = Some (mkRange 1 1 1 6).
Proof.
  intros ctx out. split; [reflexivity|].
  apply (fuzzy_candidates_range (singleEditor qualifiedModel) qualifiedModel cursor
           suggestWorker out (navigateToCandidate ctx cdShow)).
  - reflexivity.
  - intros _. reflexivity.
  - vm_compute. reflexivity.
  - vm_compute. right. left. reflexivity.
Defined.

(** C2, the claim as written fails: a candidate made of a direct
    completion carries no range at all. *)
Lemma direct_candidate_without_range :
  let ctx := completionContext qualifiedModel cursor in
  let cdata := suggestionOfEntry ctx (mkEntry "cdata" Kind.variable "0") in
  exists out,
    settled (provideCompletionItems (singleEditor qualifiedModel) qualifiedModel cursor
               suggestWorker) = Ok (Some out)
    /\ In cdata out
    /\ range cdata = None
    /\ ~ (forall c, In c out ->
            exists r, range c = Some r
                      /\ endLineNumber r = lineNumber cursor
                      /\ endColumn r = column cursor).
Proof.
  intros ctx cdata.
  exists (directCandidates ctx directAnswer
          ++ fuzzyCandidates ctx (getNavigateToItems suggestWorker "cd")).
  split; [vm_compute; reflexivity|].
  assert (Hin : In cdata
                  (directCandidates ctx directAnswer
                   ++ fuzzyCandidates ctx (getNavigateToItems suggestWorker "cd")))
    by (vm_compute; left; reflexivity).
  split; [exact Hin|]. split; [reflexivity|].
  intros Hall. destruct (Hall cdata Hin) as (r & Hr & _). discriminate Hr.
Qed.

(* ===================================================================== *)
(** * Properties of the resolution of a candidate *)
(* ===================================================================== *)

(** The table the constructor builds: the three snippets, their bodies
    joined by newlines. *)
Lemma typescriptSnippets_table :
  typescriptSnippets
  = [ {| prefix := "for";
         body := "for (let ${1:index} = 0; ${1:index} < 4; ${1:index}++) {"
                 +:+ JS.newline +:+ JS.tab +:+ "$0" +:+ JS.newline +:+ "}";
         description := Some "For Loop" |};
      {| prefix := "if";
         body := "if (${1:condition}) {"
                 +:+ JS.newline +:+ JS.tab +:+ "$0" +:+ JS.newline +:+ "}";
         description := Some "If Statement" |};
      {| prefix := "while";
         body := "while (${1:condition}) {"
                 +:+ JS.newline +:+ JS.tab +:+ "$0" +:+ JS.newline +:+ "}";
         description := Some "While Statement" |} ].
Proof. reflexivity. Qed.

Lemma snippet_lookup_miss (l : string) :
  ~ In l ["for"; "if"; "while"] ->
  List.filter (fun snippet => String.eqb (prefix snippet) l) typescriptSnippets = [].
Proof.
  intros Hnot. rewrite typescriptSnippets_table. cbn [List.filter prefix].
  destruct (String.eqb_spec "for" l) as [<-|_]; [exfalso; apply Hnot; simpl; tauto|].
  destruct (String.eqb_spec "if" l) as [<-|_]; [exfalso; apply Hnot; simpl; tauto|].
  destruct (String.eqb_spec "while" l) as [<-|_]; [exfalso; apply Hnot; simpl; tauto|].
  reflexivity.
Qed.

Section Resolution.

Variable displayPartsToString : DisplayParts -> string.

(** C8: for a candidate whose label is the prefix of a snippet of the
    table, [resolveCompletionItem] sends no request and settles to the
    candidate with the body of that snippet (its lines joined by newlines)
    as the value of its insert text and the description of the snippet as
    its documentation, every other field as it was. For a candidate with
    any other label it sends one request for the details and the code
    snippet, and when the answer or the details in it are missing it
    settles to the candidate as it was. *)
Theorem resolve_snippet_or_request editor item worker m :
  editor (uri item) = Some m ->
  (forall key snippet,
      In (key, snippet) snippets -> label item = src_prefix snippet ->
      resolveCompletionItem displayPartsToString editor item worker
      = {| requests := [];
           settled :=
             Ok {| uri := uri item;
                   position := position item;
                   label := label item;
                   name := name item;
                   sortText := sortText item;
                   filterText := filterText item;
                   kind := kind item;
                   containerName := containerName item;
                   navigation := navigation item;
                   skipCodeSnippet := skipCodeSnippet item;
                   insertText :=
                     Some (SnippetValue (JS.join JS.newline (src_body snippet)));
                   range := range item;
                   detail := detail item;
                   documentation := src_description snippet |} |})
  /\ (~ In (label item) ["for"; "if"; "while"] ->
      let '(fileName, offset) := resolveTarget m item in
      let answer :=
        getCompletionEntryDetailsAndSnippet worker fileName offset (name item) (label item) in
      resolveCompletionItem displayPartsToString editor item worker
      = {| requests := [ GetCompletionEntryDetailsAndSnippet fileName offset
                           (name item) (label item) ];
           settled := Ok (resolve_then displayPartsToString item answer) |}
      /\ (answer = None \/ (exists codeSnippet, answer = Some (None, codeSnippet)) ->
          settled (resolveCompletionItem displayPartsToString editor item worker) = Ok item)).
Proof.
  intros Hopen. split.
  - intros key snippet Hin Hlabel.
    assert (Hentry :
              head (List.filter (fun entry => String.eqb (prefix entry) (label item))
                      typescriptSnippets)
              = Some {| prefix := src_prefix snippet;
                        body := JS.join JS.newline (src_body snippet);
                        description := src_description snippet |}).
    { rewrite Hlabel. simpl in Hin.
      destruct Hin as [[= <- <-]|[[= <- <-]|[[= <- <-]|[]]]]; reflexivity. }
    unfold resolveCompletionItem. rewrite Hentry. reflexivity.
  - intros Hnot. unfold resolveTarget, resolveCompletionItem.
    rewrite snippet_lookup_miss by assumption. cbn [head].
    destruct (navigation item) as [nav|].
    + split; [reflexivity|].
      unfold bind, call, ret. simpl.
      intros [->|[codeSnippet ->]]; reflexivity.
    + unfold bind, call, ret, lift.
      rewrite (positionToOffset_open _ _ m) by assumption. simpl.
      split; [reflexivity|].
      intros [->|[codeSnippet ->]]; reflexivity.
Qed.

End Resolution.

Lemma resolve_snippet_or_request_witness :
  resolveCompletionItem joinParts (singleEditor qualifiedModel) forCandidate suggestWorker
  = {| requests := [];
       settled :=
         Ok {| uri := "file:///a.ts";
               position := cursor;
               label := "for";
               name := "for";
               sortText := Some "0";
               filterText := None;
               kind := CIK_Keyword;
               containerName := None;
               navigation := None;
               skipCodeSnippet := false;
               insertText :=
                 Some (SnippetValue
                         ("for (let ${1:index} = 0; ${1:index} < 4; ${1:index}++) {"
                          +:+ JS.newline +:+ JS.tab +:+ "$0" +:+ JS.newline +:+ "}"));
               range := None;
               detail := None;
               documentation := Some "For Loop" |} |}
  /\ requests (resolveCompletionItem joinParts (singleEditor qualifiedModel) cdataCandidate
                 suggestWorker)
     = [ GetCompletionEntryDetailsAndSnippet "file:///a.ts" 5 "cdata" "cdata" ]
  /\ settled (resolveCompletionItem joinParts (singleEditor qualifiedModel) cdataCandidate
                suggestWorker)
     = Ok cdataCandidate.
Proof.
  pose proof (resolve_snippet_or_request joinParts (singleEditor qualifiedModel)
                forCandidate suggestWorker qualifiedModel eq_refl) as [Hsnippet _].
  pose proof (resolve_snippet_or_request joinParts (singleEditor qualifiedModel)
                cdataCandidate suggestWorker qualifiedModel eq_refl) as [_ Hrequest].
  split.
  - apply (Hsnippet "For Loop"
             {| src_prefix := "for";
                src_body := [ "for (let ${1:index} = 0; ${1:index} < 4; ${1:index}++) {";
                              JS.tab +:+ "$0"; "}" ];
                src_description := Some "For Loop" |}); [left|]; reflexivity.
  - assert (Hnot : ~ In (label cdataCandidate) ["for"; "if"; "while"]).
    { simpl. intros [H|[H|[H|[]]]]; discriminate H. }
    destruct (Hrequest Hnot) as [Hout Hmissing].
    split.
    + rewrite Hout. reflexivity.
    + apply Hmissing. left. reflexivity.
Defined.

(* ===================================================================== *)
(** * Properties of the hover *)
(* ===================================================================== *)

Section HoverPrecedence.

Variable displayPartsToString : DisplayParts -> string.

(** With quick info, without completion details, and without a first
    signature (no signature help, or one without items), the hover is the
    display text and the span of the quick info. *)
Lemma hover_quickinfo_alone editor model info signature :
  editor (model_uri model) = Some model ->
  (signature = None \/ exists sig, signature = Some sig /\ items sig = []) ->
  hover_then displayPartsToString editor model (Some (Some info, signature, None))
  = Ok (Some (quickInfoHover displayPartsToString model info)).
Proof.
  intros Hopen Hsig. unfold hover_then.
  destruct Hsig as [->|(sig & -> & Hitems)]; [|rewrite Hitems; cbn [head]];
    rewrite (textSpanToRange_open _ _ model) by assumption; reflexivity.
Qed.

(** With a first signature that has no parameter, and without the pair of
    quick info and completion details, there is no hover, with or without
    quick info. *)
Lemma hover_signature_without_parameters editor model info sig item0 rest completion :
  items sig = item0 :: rest ->
  parameters item0 = [] ->
  (info = None \/ completion = None) ->
  hover_then displayPartsToString editor model (Some (info, Some sig, completion))
  = Ok None.
Proof.
  intros Hitems Hparams Hpair. unfold hover_then. rewrite Hitems. cbn [head].
  rewrite Hparams. destruct Hpair as [->| ->]; [|destruct info]; reflexivity.
Qed.

(** Without quick info and without a first signature there is no hover. *)
Lemma hover_nothing editor model signature completion :
  (signature = None \/ exists sig, signature = Some sig /\ items sig = []) ->
  hover_then displayPartsToString editor model (Some (None, signature, completion))
  = Ok None.
Proof.
  intros [->|(sig & -> & Hitems)]; unfold hover_then; [|rewrite Hitems]; reflexivity.
Qed.

End HoverPrecedence.

(** C6: the code at the failing input. Quick info is present, completion
    details are absent and the signature help has a first signature
    without parameters: [provideHover] settles to no hover, where the
    hover of the quick info alone was expected. The same request with a
    signature help without items settles to the hover of the quick info. *)
Theorem hover_quickinfo_lost_without_parameters :
  settled (provideHover joinParts (singleEditor callModel) callModel (mkPosition 1 5)
             callWorker)
  = Ok None
  /\ hover_then joinParts (singleEditor callModel) callModel
       (Some (Some fooInfo, Some fooSignature, None))
     <> Ok (Some (quickInfoHover joinParts callModel fooInfo))
  /\ hover_then joinParts (singleEditor callModel) callModel
       (Some (Some fooInfo,
              Some {| items := []; applicableSpan := mkSpan 4 0; selectedItemIndex := 0;
                      argumentIndex := 0; argumentCount := 0 |},
              None))
     = Ok (Some {| hover_range := mkRange 1 1 1 4;
                   hover_contents := ["function foo(): void"] |}).
Proof.
  split; [reflexivity|]. split; [discriminate|reflexivity].
Qed.

(** ** The argument under the cursor *)

Lemma split_nonempty sep s : JS.split sep s <> [].
Proof.
  destruct s as [|c s]; cbn [JS.split]; [discriminate|].
  destruct (Ascii.eqb c sep); [discriminate|]. by destruct (JS.split sep s).
Qed.

(** Every piece of a split text is found in the text at its slot. *)
Lemma split_slot sep s :
  forall i piece,
    JS.split sep s !! i = Some piece ->
    String.substring (slotOffset (JS.split sep s) i) (String.length piece) s = piece.
Proof.
  induction s as [|c s IH]; intros i piece Hpiece.
  - destruct i as [|i]; [|discriminate]. injection Hpiece as <-. reflexivity.
  - cbn [JS.split] in *. destruct (Ascii.eqb c sep).
    + destruct i as [|i].
      * injection Hpiece as <-. reflexivity.
      * cbn [slotOffset String.length]. rewrite Nat.add_0_l, Nat.add_1_l.
        cbn [String.substring]. by apply IH.
    + destruct (JS.split sep s) as [|w ws] eqn:Hsplit; [by apply split_nonempty in Hsplit|].
      destruct i as [|i].
      * injection Hpiece as <-. cbn [slotOffset String.length String.substring].
        f_equal. by apply (IH 0%nat w).
      * cbn [slotOffset String.length]. cbn [lookup list_lookup] in Hpiece.
        replace (S (String.length w) + 1 + slotOffset ws i)%nat
          with (S (String.length w + 1 + slotOffset ws i))%nat by lia.
        cbn [String.substring]. by apply (IH (S i) piece).
Qed.

(** [indexOf] finds an occurrence that is not after a given one, and that
    one when the text does not occur before it. *)
Lemma indexOf_occurrence s t k :
  String.substring k (String.length t) s = t ->
  exists m, JS.indexOf s t = Z.of_nat m /\ (m <= k)%nat
            /\ String.substring m (String.length t) s = t
            /\ ((forall p, (p < k)%nat -> String.substring p (String.length t) s <> t) ->
                m = k).
Proof.
  intros Hocc. unfold JS.indexOf.
  destruct (String.index 0 t s) as [m|] eqn:Hindex.
  - exists m. split; [reflexivity|].
    assert (Hle : (m <= k)%nat).
    { destruct (Nat.le_gt_cases m k) as [Hle|Hgt]; [assumption|].
      exfalso. apply (String.index_correct2 _ _ _ _ Hindex k); [lia|assumption..]. }
    split; [assumption|]. split; [by eapply String.index_correct1|].
    intros Hfirst. destruct (decide (m = k)) as [->|Hne]; [reflexivity|].
    exfalso. apply (Hfirst m); [lia|]. by eapply String.index_correct1.
  - exfalso. destruct t as [|c t].
    + apply String.index_correct4 in Hindex. lia.
    + apply (String.index_correct3 _ k _ _ Hindex); [discriminate|lia|assumption].
Qed.

(** [indexOf] finds the first occurrence. *)
Lemma indexOf_first s t m :
  JS.indexOf s t = Z.of_nat m ->
  forall p, (p < m)%nat -> String.substring p (String.length t) s <> t.
Proof.
  unfold JS.indexOf. destruct (String.index 0 t s) as [m'|] eqn:Hindex; [|lia].
  intros Heq p Hp. apply Nat2Z.inj in Heq. subst m'.
  apply (String.index_correct2 _ _ _ _ Hindex p); lia.
Qed.

(** X7: with more than one argument, the span the code narrows to has the
    length of the active argument (the piece of the applicable span, split
    at commas, at the argument index) and holds its text, at the first
    place of the applicable span where that text occurs. So it starts at
    the slot of the active argument or before it, and at the slot exactly
    when the text of the argument does not occur before its slot. *)
Lemma narrowToArgument_slot model signature slot :
  1 < argumentCount signature ->
  argumentSlot model signature = Some slot ->
  let span := applicableSpan signature in
  let parametersStr := JS.substr (getValue model) (span_start span) (span_length span) in
  let len := Z.to_nat (span_length slot) in
  exists argument m,
    at_index (JS.split "," parametersStr) (argumentIndex signature) = Some argument
    /\ String.substring (Z.to_nat (span_start slot - span_start span)) len parametersStr
       = argument
    /\ narrowToArgument model signature
       = Ok {| span_start := span_start span + Z.of_nat m; span_length := span_length slot |}
    /\ String.substring m len parametersStr = argument
    /\ (forall p, (p < m)%nat -> String.substring p len parametersStr <> argument)
    /\ span_start span + Z.of_nat m <= span_start slot
    /\ ((forall p, span_start span + Z.of_nat p < span_start slot ->
                   String.substring p len parametersStr <> argument) ->
        span_start span + Z.of_nat m = span_start slot).
Proof.
  intros Hcount Hslot span parametersStr len. unfold argumentSlot in Hslot.
  fold span parametersStr in Hslot. unfold narrowToArgument. fold span parametersStr.
  replace (1 <? argumentCount signature) with true by (symmetry; by apply Z.ltb_lt).
  destruct (at_index (JS.split "," parametersStr) (argumentIndex signature))
    as [argument|] eqn:Hat; [|discriminate].
  injection Hslot as <-. subst len. cbn [deref rbind span_start span_length].
  exists argument. unfold at_index in Hat.
  destruct (argumentIndex signature <? 0); [discriminate|].
  pose proof (split_slot _ _ _ _ Hat) as Hocc.
  destruct (indexOf_occurrence parametersStr argument _ Hocc) as (m & Hm & Hle & Hsub & Hfirst).
  exists m. unfold JS.length. rewrite Nat2Z.id.
  replace (Z.to_nat (span_start span + Z.of_nat (slotOffset (JS.split "," parametersStr)
                                                   (Z.to_nat (argumentIndex signature)))
                     - span_start span))
    with (slotOffset (JS.split "," parametersStr) (Z.to_nat (argumentIndex signature)))
    by lia.
  split; [reflexivity|]. split; [assumption|]. split; [by rewrite Hm|].
  split; [assumption|]. split; [by apply indexOf_first|]. split; [lia|].
  intros Hearlier. rewrite Hfirst; [reflexivity|].
  intros p Hp. apply Hearlier. lia.
Qed.

(** C7: the code at the failing input. In [f(x,x)] with the second
    argument active, the text of the argument occurs earlier in the
    applicable span; the range of the hover is that of the first
    occurrence (columns 3 to 4, the first argument), not that of the
    second argument at its own place (columns 5 to 6). *)
Theorem hover_argument_first_occurrence :
  settled (provideHover joinParts (singleEditor twiceModel) twiceModel (mkPosition 1 5)
             twiceWorker)
  = Ok (Some {| hover_range := mkRange 1 3 1 4; hover_contents := ["b: number"] |})
  /\ narrowToArgument twiceModel twiceSignature = Ok (mkSpan 2 1)
  /\ argumentSlot twiceModel twiceSignature = Some (mkSpan 4 1)
  /\ spanRange twiceModel (mkSpan 4 1) = mkRange 1 5 1 6.
Proof.
  repeat split; reflexivity.
Qed.

(* ===================================================================== *)
(** * Properties of the diagnostics life cycle *)
(* ===================================================================== *)

Lemma has_uri_true u m : has_uri u m = true <-> m_uri m = u.
Proof. unfold has_uri. apply String.eqb_eq. Qed.

Lemma getModel_Some s u m :
  getModel s u = Some m -> In m (models s) /\ m_uri m = u.
Proof.
  unfold getModel. intros Hhead.
  assert (Hin : In m (List.filter (has_uri u) (models s))).
  { destruct (List.filter (has_uri u) (models s)) as [|m' l]; [discriminate|].
    injection Hhead as ->. by left. }
  apply filter_In in Hin as [Hin Huri]. split; [assumption|]. by apply has_uri_true.
Qed.

Lemma getModel_None s u :
  getModel s u = None <-> ~ In u (map m_uri (models s)).
Proof.
  unfold getModel. split.
  - intros Hhead (m & Huri & Hin)%in_map_iff.
    assert (Hf : In m (List.filter (has_uri u) (models s))).
    { apply filter_In. split; [assumption|]. by apply has_uri_true. }
    destruct (List.filter (has_uri u) (models s)); [contradiction|discriminate].
  - intros Hnot. destruct (List.filter (has_uri u) (models s)) as [|m l] eqn:Hf; [reflexivity|].
    exfalso. apply Hnot. apply in_map_iff. exists m.
    assert (Hin : In m (List.filter (has_uri u) (models s))) by (rewrite Hf; by left).
    apply filter_In in Hin as [Hin Huri]. split; [by apply has_uri_true|assumption].
Qed.

Lemma getModel_open s u :
  In u (map m_uri (models s)) -> exists m, getModel s u = Some m.
Proof.
  intros Hin. destruct (getModel s u) as [m|] eqn:Hget; [by exists m|].
  by apply getModel_None in Hget.
Qed.

Lemma Core_add_effect e s : Core s -> Core (add_effect e s).
Proof. intros [H1 H2 H3 H4 H5 H6 H7]. by constructor. Qed.

Lemma Core_set_clock now s : Core s -> Core (set_clock now s).
Proof. intros [H1 H2 H3 H4 H5 H6 H7]. by constructor. Qed.

Lemma Core_doValidate u s : Core s -> Core (_doValidate u s).
Proof. apply Core_add_effect. Qed.

Lemma NoDup_cons_In {A} (a : A) (l : list A) :
  NoDup (a :: l) <-> ~ In a l /\ NoDup l.
Proof. rewrite NoDup_cons. by rewrite list_elem_of_In. Qed.

Lemma NoDup_map_filter {A B} (f : A -> B) (p : A -> bool) (l : list A) :
  NoDup (map f l) -> NoDup (map f (List.filter p l)).
Proof.
  induction l as [|a l IH]; simpl; [done|].
  intros [Hnot Hnd]%NoDup_cons_In. destruct (p a); simpl; [|by apply IH].
  apply NoDup_cons_In. split; [|by apply IH].
  intros (a' & Heq & Hin)%in_map_iff. apply filter_In in Hin as [Hin _].
  apply Hnot. apply in_map_iff. by exists a'.
Qed.

(** Fewer pending timers keep the invariant. *)
Lemma Core_filter_timers p s :
  Core s -> Core (set_timers (List.filter p (timers s)) s).
Proof.
  intros [H1 H2 H3 H4 H5 H6 H7]. constructor; simpl; try assumption.
  - intros t [Hin _]%filter_In. by apply H3.
  - intros t [Hin _]%filter_In. by apply H4.
  - by apply NoDup_map_filter.
Qed.

Lemma Core_clearTimeout h s : Core s -> Core (clearTimeout h s).
Proof. destruct h; simpl; [apply Core_filter_timers | done]. Qed.

Lemma clearTimeout_cleared h s t :
  In t (timers (clearTimeout h s)) -> h <> Some (timer_id t).
Proof.
  destruct h as [h|]; simpl; [|discriminate].
  intros [_ Hne]%filter_In [= ->]. by rewrite Nat.eqb_refl in Hne.
Qed.

Lemma clearTimeout_timers h s t :
  In t (timers (clearTimeout h s)) <-> In t (timers s) /\ h <> Some (timer_id t).
Proof.
  destruct h as [h|]; simpl.
  - rewrite filter_In. rewrite negb_true_iff, Nat.eqb_neq. split.
    + intros [Hin Hne]. split; [assumption|]. congruence.
    + intros [Hin Hne]. split; [assumption|]. congruence.
  - split; [intros Hin; split; [assumption|discriminate] | tauto].
Qed.

Lemma lookup_insert_closure (l : list Closure) id id' c c' :
  l !! id = Some c ->
  <[id := c']> l !! id' = (if decide (id' = id) then Some c' else l !! id').
Proof.
  intros Hlook. destruct (decide (id' = id)) as [->|Hne].
  - apply list_lookup_insert_eq. by eapply lookup_lt_Some.
  - apply list_lookup_insert_ne. congruence.
Qed.

(** The listener of a subscribed closure keeps the invariant. *)
Lemma Core_onDidChangeContent id c s :
  Core s -> closures s !! id = Some c -> c_subscribed c = true ->
  Core (onDidChangeContent id s).
Proof.
  intros Hcore Hlook Hsub. unfold onDidChangeContent. rewrite Hlook.
  pose proof (Core_clearTimeout (c_handle c) s Hcore) as [H1 H2 H3 H4 H5 H6 H7].
  assert (Hclosures : closures (clearTimeout (c_handle c) s) = closures s)
    by (destruct (c_handle c); reflexivity).
  assert (Hnext : nextTimer (clearTimeout (c_handle c) s) = nextTimer s)
    by (destruct (c_handle c); reflexivity).
  pose proof (clearTimeout_cleared (c_handle c) s) as Hcleared.
  set (s1 := clearTimeout (c_handle c) s) in *.
  cbn [setTimeout]. constructor; cbn -[quietPeriod].
  - intros u id' Hl. destruct (H1 u id' Hl) as (c' & Hc' & Huri & Hsub').
    rewrite (lookup_insert_closure _ id id' c) by (by rewrite Hclosures).
    destruct (decide (id' = id)) as [->|Hne]; [|by exists c'].
    rewrite Hclosures, Hlook in Hc'. injection Hc' as <-.
    eexists. split; [reflexivity|]. by split.
  - intros id' c'. rewrite (lookup_insert_closure _ id id' c) by (by rewrite Hclosures).
    destruct (decide (id' = id)) as [->|Hne].
    + intros [= <-] Hs. simpl. apply (H2 id c); [by rewrite Hclosures|assumption].
    + apply H2.
  - intros t [Hin|[<-|[]]]%in_app_iff.
    + destruct (H3 t Hin) as (id' & c' & Hc' & Hsub' & Hh & Huri).
      exists id', c'. split; [|by repeat split].
      rewrite (lookup_insert_closure _ id id' c) by (by rewrite Hclosures).
      destruct (decide (id' = id)) as [->|Hne]; [|assumption].
      rewrite Hclosures, Hlook in Hc'. injection Hc' as <-.
      exfalso. by apply (Hcleared t Hin).
    + exists id. eexists. split.
      * rewrite (lookup_insert_closure _ id id c) by (by rewrite Hclosures).
        rewrite decide_True by reflexivity. reflexivity.
      * by repeat split.
  - intros t [Hin|[<-|[]]]%in_app_iff.
    + specialize (H4 t Hin). lia.
    + simpl. lia.
  - rewrite map_app. apply NoDup_app. split; [assumption|]. split.
    + intros x Hx [->|[]%elem_of_nil]%elem_of_cons.
      apply list_elem_of_In, in_map_iff in Hx as (t & Hid & Hin).
      specialize (H4 t Hin). simpl in Hid. lia.
    + apply NoDup_singleton.
  - assumption.
  - assumption.
Qed.

Lemma clearTimeout_other h s :
  closures (clearTimeout h s) = closures s
  /\ _listener (clearTimeout h s) = _listener s
  /\ models (clearTimeout h s) = models s
  /\ nextTimer (clearTimeout h s) = nextTimer s
  /\ hooks (clearTimeout h s) = hooks s
  /\ _disposables (clearTimeout h s) = _disposables s
  /\ effects (clearTimeout h s) = effects s
  /\ clock (clearTimeout h s) = clock s.
Proof. destruct h; repeat split; reflexivity. Qed.

Section DiagnosticsProperties.

Variable _selector : string.

(** What [onModelRemoved] leaves alone, and what it does to the listeners
    and to the log. *)
Lemma onModelRemoved_other m s :
  models (onModelRemoved _selector m s) = models s
  /\ nextTimer (onModelRemoved _selector m s) = nextTimer s
  /\ hooks (onModelRemoved _selector m s) = hooks s
  /\ _disposables (onModelRemoved _selector m s) = _disposables s
  /\ clock (onModelRemoved _selector m s) = clock s
  /\ effects (onModelRemoved _selector m s) = ClearMarkers (m_uri m) _selector :: effects s
  /\ _listener (onModelRemoved _selector m s) = delete (m_uri m) (_listener s).
Proof.
  unfold onModelRemoved. cbn [_listener add_effect].
  destruct (_listener s !! m_uri m) as [id|] eqn:Hl.
  - unfold listener_dispose. cbn [closures add_effect].
    destruct (closures s !! id) as [c|]; [|by repeat split].
    cbn [models nextTimer hooks _disposables clock effects _listener set_listener].
    destruct (clearTimeout_other (c_handle c)
                (set_closures (<[id:=mkClosure (c_uri c) (c_handle c) false]> (closures s))
                   (add_effect (ClearMarkers (m_uri m) _selector) s)))
      as (_ & Hl' & Hm & Hn & Hh & Hd & He & Hc).
    rewrite Hl', Hm, Hn, Hh, Hd, He, Hc. by repeat split.
  - repeat split; try reflexivity. cbn. symmetry. by apply delete_id.
Qed.

Lemma Core_onModelRemoved m s : Core s -> Core (onModelRemoved _selector m s).
Proof.
  intros Hcore. unfold onModelRemoved. cbn [_listener add_effect].
  destruct (_listener s !! m_uri m) as [id|] eqn:Hl; [|by apply Core_add_effect].
  destruct (core_listener s Hcore _ _ Hl) as (c & Hc & Huri & Hsub).
  unfold listener_dispose. cbn [closures add_effect]. rewrite Hc.
  set (s1 := set_closures _ _).
  destruct (clearTimeout_other (c_handle c) s1) as (Hcl & Hli & Hmo & Hne & _).
  destruct Hcore as [H1 H2 H3 H4 H5 H6 H7].
  constructor; cbn [_listener set_listener closures timers nextTimer models];
    rewrite ?Hcl, ?Hli, ?Hmo, ?Hne; subst s1; cbn [closures set_closures _listener
      models nextTimer add_effect].
  - intros u id' Hd. apply lookup_delete_Some in Hd as [Hne' Hl'].
    destruct (H1 u id' Hl') as (c' & Hc' & Huri' & Hsub'). exists c'.
    split; [|by split].
    rewrite (lookup_insert_closure _ id id' c) by assumption.
    rewrite decide_False; [assumption|]. intros ->. congruence.
  - intros id' c'. rewrite (lookup_insert_closure _ id id' c) by assumption.
    destruct (decide (id' = id)) as [->|Hne']; [intros [= <-]; discriminate|].
    intros Hc' Hsub'. rewrite lookup_delete_ne; [by apply H2|].
    intros Heq. specialize (H2 id' c' Hc' Hsub'). rewrite <- Heq in H2. congruence.
  - intros t [Hin Hh]%clearTimeout_timers. cbn in Hin.
    destruct (H3 t Hin) as (id' & c' & Hc' & Hsub' & Hh' & Huri').
    exists id', c'. split; [|by repeat split].
    rewrite (lookup_insert_closure _ id id' c) by assumption.
    rewrite decide_False; [assumption|]. intros ->. congruence.
  - intros t [Hin _]%clearTimeout_timers. by apply H4.
  - destruct (c_handle c); [by apply NoDup_map_filter | assumption].
  - intros u id' Hd. apply lookup_delete_Some in Hd as [_ Hl']. by eapply H6.
  - assumption.
Qed.

Lemma onModelAdd_other m s :
  models (onModelAdd _selector m s) = models s
  /\ timers (onModelAdd _selector m s) = timers s
  /\ nextTimer (onModelAdd _selector m s) = nextTimer s
  /\ hooks (onModelAdd _selector m s) = hooks s
  /\ _disposables (onModelAdd _selector m s) = _disposables s
  /\ clock (onModelAdd _selector m s) = clock s.
Proof.
  unfold onModelAdd.
  destruct (negb (String.eqb (m_modeId m) _selector)); by repeat split.
Qed.

Lemma Core_onModelAdd m s :
  Core s -> _listener s !! m_uri m = None -> In (m_uri m) (map m_uri (models s)) ->
  Core (onModelAdd _selector m s).
Proof.
  intros Hcore Hfree Hopen. unfold onModelAdd.
  destruct (negb (String.eqb (m_modeId m) _selector)); [assumption|].
  apply Core_add_effect. destruct Hcore as [H1 H2 H3 H4 H5 H6 H7].
  constructor; cbn [_listener set_listener closures set_closures timers nextTimer models];
    try assumption.
  - intros u id Hl. apply lookup_insert_Some in Hl as [[<- <-]|[Hne Hl]].
    + eexists. split; [by apply list_lookup_middle|]. by split.
    + destruct (H1 u id Hl) as (c & Hc & Huri & Hsub). exists c.
      split; [|by split]. by apply lookup_app_l_Some.
  - intros id c [Hc|[Hlen Hc]]%lookup_app_Some Hsub.
    + rewrite lookup_insert_ne; [by apply H2|].
      intros Heq. specialize (H2 id c Hc Hsub). congruence.
    + destruct (id - length (closures s))%nat as [|k] eqn:Hk; [|by destruct k].
      injection Hc as <-. cbn [c_uri]. replace id with (length (closures s)) by lia.
      apply lookup_insert_eq.
  - intros t Hin. destruct (H3 t Hin) as (id & c & Hc & Hrest).
    exists id, c. split; [by apply lookup_app_l_Some | assumption].
  - intros u id Hl. apply lookup_insert_Some in Hl as [[<- <-]|[Hne Hl]];
      [assumption | by eapply H6].
Qed.

Lemma Core_readd m s :
  Core s -> In (m_uri m) (map m_uri (models s)) ->
  Core (onModelAdd _selector m (onModelRemoved _selector m s)).
Proof.
  intros Hcore Hopen.
  destruct (onModelRemoved_other m s) as (Hmo & _ & _ & _ & _ & _ & Hli).
  apply Core_onModelAdd.
  - by apply Core_onModelRemoved.
  - rewrite Hli. apply lookup_delete_eq.
  - by rewrite Hmo.
Qed.

Lemma readd_other m s :
  models (onModelAdd _selector m (onModelRemoved _selector m s)) = models s
  /\ hooks (onModelAdd _selector m (onModelRemoved _selector m s)) = hooks s
  /\ _disposables (onModelAdd _selector m (onModelRemoved _selector m s)) = _disposables s.
Proof.
  destruct (onModelRemoved_other m s) as (Hmo & _ & Hh & Hd & _).
  destruct (onModelAdd_other m (onModelRemoved _selector m s)) as (Hmo' & _ & _ & Hh' & Hd' & _).
  rewrite Hmo', Hh', Hd'. by repeat split.
Qed.

(** The loop of the defaults listener over the open documents. *)
Lemma Core_readd_all l s :
  Core s -> (forall m, In m l -> In (m_uri m) (map m_uri (models s))) ->
  let s' := foldl (fun s model => onModelAdd _selector model (onModelRemoved _selector model s)) s l in
  Core s' /\ models s' = models s /\ hooks s' = hooks s /\ _disposables s' = _disposables s.
Proof.
  revert s. induction l as [|m l IH]; intros s Hcore Hopen; [done|].
  cbn [foldl]. destruct (readd_other m s) as (Hmo & Hh & Hd).
  destruct (IH (onModelAdd _selector m (onModelRemoved _selector m s))) as (Hc' & Hmo' & Hh' & Hd').
  - apply Core_readd; [assumption|]. apply Hopen. by left.
  - intros m' Hin. rewrite Hmo. apply Hopen. by right.
  - cbn zeta. rewrite Hmo', Hh', Hd', Hmo, Hh, Hd. split; [exact Hc'|]. by repeat split.
Qed.

(** The loop of the fourth disposable over the open documents: afterwards
    no document of the loop has a listener. *)
Lemma Core_remove_all l s :
  Core s ->
  let s' := foldl (fun s model => onModelRemoved _selector model s) s l in
  Core s'
  /\ models s' = models s /\ hooks s' = hooks s /\ _disposables s' = _disposables s
  /\ nextTimer s' = nextTimer s /\ clock s' = clock s
  /\ (forall u, _listener s' !! u
                = if bool_decide (u ∈ map m_uri l) then None else _listener s !! u).
Proof.
  revert s. induction l as [|m l IH]; intros s Hcore.
  - cbn. split; [exact Hcore|]. repeat split.
  - cbn [foldl]. destruct (onModelRemoved_other m s) as (Hmo & Hn & Hh & Hd & Hc & _ & Hli).
    destruct (IH (onModelRemoved _selector m s)) as (Hc' & Hmo' & Hh' & Hd' & Hn' & Hcl' & Hli').
    { by apply Core_onModelRemoved. }
    cbn zeta. rewrite Hmo', Hh', Hd', Hn', Hcl', Hmo, Hh, Hd, Hn, Hc.
    split; [exact Hc'|]. repeat split.
    intros u. rewrite Hli', Hli. cbn [map].
    destruct (decide (u ∈ map m_uri l)) as [Hin|Hnot].
    + rewrite !bool_decide_eq_true_2; [reflexivity | by apply elem_of_cons; right | assumption].
    + rewrite (bool_decide_eq_false_2 _ Hnot).
      destruct (decide (m_uri m = u)) as [<-|Hne].
      * rewrite bool_decide_eq_true_2 by (apply elem_of_cons; by left).
        apply lookup_delete_eq.
      * rewrite bool_decide_eq_false_2; [by apply lookup_delete_ne|].
        intros [?|?]%elem_of_cons; [congruence|contradiction].
Qed.

Lemma remove_all_untracked s :
  Core s ->
  _listener (foldl (fun s model => onModelRemoved _selector model s) s (models s)) = ∅.
Proof.
  intros Hcore. destruct (Core_remove_all (models s) s Hcore) as (_ & _ & _ & _ & _ & _ & Hli).
  apply map_eq. intros u. rewrite Hli, lookup_empty.
  destruct (decide (u ∈ map m_uri (models s))) as [Hin|Hnot].
  - by rewrite bool_decide_eq_true_2.
  - rewrite bool_decide_eq_false_2 by assumption.
    destruct (_listener s !! u) as [id|] eqn:Hl; [|reflexivity].
    exfalso. apply Hnot. apply list_elem_of_In. by eapply core_tracked.
Qed.

(** Without listeners there are no subscribed closures and no timers. *)
Lemma untracked_no_timers s :
  Core s -> _listener s = ∅ -> timers s = [].
Proof.
  intros Hcore Hempty. destruct (timers s) as [|t l] eqn:Ht; [reflexivity|].
  destruct (core_timers s Hcore t) as (id & c & Hc & Hsub & _); [rewrite Ht; by left|].
  pose proof (core_subscribed s Hcore id c Hc Hsub) as Hl.
  rewrite Hempty in Hl. by rewrite lookup_empty in Hl.
Qed.

Lemma fire_other due s :
  let s' := foldl (fun s t => _doValidate (timer_uri t) s) s due in
  models s' = models s /\ closures s' = closures s
  /\ _listener s' = _listener s /\ nextTimer s' = nextTimer s
  /\ hooks s' = hooks s /\ _disposables s' = _disposables s
  /\ clock s' = clock s /\ timers s' = timers s.
Proof.
  revert s. induction due as [|t due IH]; intros s; [done|].
  exact (IH (_doValidate (timer_uri t) s)).
Qed.

Lemma tick_other dt s :
  models (tick dt s) = models s
  /\ closures (tick dt s) = closures s
  /\ _listener (tick dt s) = _listener s
  /\ nextTimer (tick dt s) = nextTimer s
  /\ hooks (tick dt s) = hooks s
  /\ _disposables (tick dt s) = _disposables s
  /\ clock (tick dt s) = clock s + Z.max 0 dt
  /\ timers (tick dt s)
     = List.filter (fun t => negb (is_due (clock s + Z.max 0 dt) t)) (timers s).
Proof.
  unfold tick.
  exact (fire_other (List.filter (is_due (clock s + Z.max 0 dt)) (timers s))
           (set_timers
              (List.filter (fun t => negb (is_due (clock s + Z.max 0 dt) t)) (timers s))
              (set_clock (clock s + Z.max 0 dt) s))).
Qed.

Lemma Core_tick dt s : Core s -> Core (tick dt s).
Proof.
  intros Hcore. unfold tick.
  set (now := clock s + Z.max 0 dt).
  assert (Hgen : forall due s1, Core s1 ->
             Core (foldl (fun s t => _doValidate (timer_uri t) s) s1 due)).
  { induction due as [|t due IH]; intros s1 H1; [done|].
    cbn [foldl]. apply IH. by apply Core_doValidate. }
  apply Hgen.
  apply (Core_filter_timers (fun t => negb (is_due now t)) (set_clock now s)).
  by apply Core_set_clock.
Qed.

Lemma filter_seq_unique (p : nat -> bool) (n id : nat) :
  (forall x, (x < n)%nat -> p x = true -> x = id) ->
  List.filter p (seq 0 n) = if (id <? n)%nat && p id then [id] else [].
Proof.
  induction n as [|n IH]; intros Huniq; [reflexivity|].
  rewrite seq_S, List.filter_app, IH by (intros x Hx; apply Huniq; lia).
  cbn [List.filter Nat.add].
  destruct (p n) eqn:Hpn.
  - assert (n = id) as <- by (apply Huniq; [lia | assumption]).
    rewrite Nat.ltb_irrefl. cbn [andb app].
    replace (n <? S n)%nat with true by (symmetry; apply Nat.ltb_lt; lia).
    by rewrite Hpn.
  - rewrite app_nil_r. destruct (p id) eqn:Hpid; [|by rewrite !andb_false_r].
    rewrite !andb_true_r.
    destruct (Nat.ltb_spec id n) as [Hlt|Hge].
    + replace (id <? S n)%nat with true by (symmetry; apply Nat.ltb_lt; lia). reflexivity.
    + replace (id <? S n)%nat with false; [reflexivity|].
      symmetry. apply Nat.ltb_ge. destruct (decide (id = n)) as [->|Hne]; [congruence|lia].
Qed.

Lemma subscribers_tracked s u id :
  Core s -> _listener s !! u = Some id -> subscribers u s = [id].
Proof.
  intros Hcore Hl. unfold subscribers.
  destruct (core_listener s Hcore u id Hl) as (c & Hc & Huri & Hsub).
  rewrite (filter_seq_unique _ _ id).
  - replace (id <? length (closures s))%nat with true
      by (symmetry; apply Nat.ltb_lt; by eapply lookup_lt_Some).
    rewrite Hc, Hsub, Huri, String.eqb_refl. reflexivity.
  - intros x _. destruct (closures s !! x) as [c'|] eqn:Hc'; [|discriminate].
    intros [Hsub' Huri'%String.eqb_eq]%andb_true_iff.
    pose proof (core_subscribed s Hcore x c' Hc' Hsub') as Hl'.
    rewrite Huri' in Hl'. congruence.
Qed.

Lemma subscribers_untracked s u :
  Core s -> _listener s !! u = None -> subscribers u s = [].
Proof.
  intros Hcore Hl. unfold subscribers.
  rewrite (filter_seq_unique _ _ 0%nat).
  - destruct (closures s !! 0%nat) as [c|] eqn:Hc; [|by rewrite andb_false_r].
    destruct (c_subscribed c) eqn:Hsub; [|by rewrite andb_false_r].
    destruct (String.eqb_spec (c_uri c) u) as [Huri|_]; [|by rewrite andb_false_r].
    pose proof (core_subscribed s Hcore _ c Hc Hsub) as Hl'. congruence.
  - intros x _. destruct (closures s !! x) as [c'|] eqn:Hc'; [|discriminate].
    intros [Hsub' Huri'%String.eqb_eq]%andb_true_iff.
    pose proof (core_subscribed s Hcore x c' Hc' Hsub') as Hl'. congruence.
Qed.

Lemma Core_set_models ms s :
  map m_uri ms = map m_uri (models s) -> Core s -> Core (set_models ms s).
Proof.
  intros Huris [H1 H2 H3 H4 H5 H6 H7]. constructor; cbn; rewrite ?Huris; assumption.
Qed.

Lemma map_uri_update (f : ModelState -> ModelState) u ms :
  (forall m, m_uri (f m) = m_uri m) ->
  map m_uri (map (fun m => if has_uri u m then f m else m) ms) = map m_uri ms.
Proof.
  intros Hf. rewrite map_map. apply map_ext. intros m. by destruct (has_uri u m).
Qed.

Lemma Core_bumpVersion u s : Core s -> Core (bumpVersion u s).
Proof.
  apply Core_set_models.
  apply (map_uri_update (fun m => mkModelState (m_uri m) (m_modeId m) (m_version m + 1))).
  reflexivity.
Qed.

Lemma Core_setModeId u mode s : Core s -> Core (setModeId u mode s).
Proof.
  apply Core_set_models.
  apply (map_uri_update (fun m => mkModelState (m_uri m) mode (m_version m))).
  reflexivity.
Qed.

(** A content change of a tracked document runs the one listener of the
    document; a change of a document without listener runs none. *)
Lemma step_change_tracked s u id :
  Core s -> _listener s !! u = Some id ->
  step _selector (ChangeContent u) s = onDidChangeContent id (bumpVersion u s).
Proof.
  intros Hcore Hl. cbn [step].
  destruct (getModel_open s u) as [m ->]; [by eapply core_tracked|].
  rewrite (subscribers_tracked _ u id); [reflexivity | by apply Core_bumpVersion | assumption].
Qed.

Lemma step_change_untracked s u :
  Core s -> _listener s !! u = None ->
  step _selector (ChangeContent u) s = s
  \/ step _selector (ChangeContent u) s = bumpVersion u s.
Proof.
  intros Hcore Hl. cbn [step]. destruct (getModel s u); [right|by left].
  rewrite subscribers_untracked; [reflexivity | by apply Core_bumpVersion | assumption].
Qed.

Lemma Core_step_change u s : Core s -> Core (step _selector (ChangeContent u) s).
Proof.
  intros Hcore. destruct (_listener s !! u) as [id|] eqn:Hl.
  - rewrite (step_change_tracked s u id) by assumption.
    destruct (core_listener s Hcore u id Hl) as (c & Hc & _ & Hsub).
    apply (Core_onDidChangeContent id c); [by apply Core_bumpVersion | assumption..].
  - destruct (step_change_untracked s u Hcore Hl) as [-> | ->];
      [assumption | by apply Core_bumpVersion].
Qed.

Lemma dropListeners_untracked u s :
  Core s -> _listener s !! u = None -> dropListeners u s = s.
Proof.
  intros Hcore Hl. unfold dropListeners.
  assert (Hmap : map (fun c => if String.eqb (c_uri c) u
                               then mkClosure (c_uri c) (c_handle c) false else c)
                     (closures s) = closures s).
  { rewrite <- (map_id (closures s)) at 2. apply map_ext_in. intros c Hin.
    destruct (String.eqb_spec (c_uri c) u) as [Huri|_]; [|reflexivity].
    apply list_elem_of_In, list_elem_of_lookup in Hin as [id Hc].
    destruct (c_subscribed c) eqn:Hsub.
    - pose proof (core_subscribed s Hcore id c Hc Hsub). congruence.
    - destruct c. simpl in *. congruence. }
  rewrite Hmap. by destruct s.
Qed.

Lemma Core_set_hooks hs s : Core s -> Core (set_hooks hs s).
Proof. intros [H1 H2 H3 H4 H5 H6 H7]. by constructor. Qed.

Lemma Core_set_disposables ds s : Core s -> Core (set_disposables ds s).
Proof. intros [H1 H2 H3 H4 H5 H6 H7]. by constructor. Qed.

Lemma has_hook_Hooked d s :
  Hooked s -> has_hook d s = true ->
  hooks s = fourHooks /\ _disposables s = allDisposables.
Proof.
  intros [Hon|(Hoff & _ & _)] Hhook; [assumption|].
  unfold has_hook in Hhook. rewrite Hoff in Hhook.
  apply bool_decide_eq_true in Hhook. by apply elem_of_nil in Hhook.
Qed.

Lemma no_hook_Hooked d s :
  Hooked s -> In d fourHooks -> has_hook d s = false ->
  hooks s = [] /\ _disposables s = [] /\ _listener s = ∅.
Proof.
  intros [[Hon _]|Hoff] Hin Hhook; [|assumption].
  unfold has_hook in Hhook. rewrite Hon in Hhook.
  apply bool_decide_eq_false in Hhook. exfalso. apply Hhook. by apply list_elem_of_In.
Qed.

Lemma Hooked_same s s' :
  hooks s' = hooks s -> _disposables s' = _disposables s ->
  (hooks s = [] -> _listener s' = _listener s) ->
  Hooked s -> Hooked s'.
Proof.
  intros Hh Hd Hl [[Hon Hdis]|(Hoff & Hdis & Hempty)].
  - left. by rewrite Hh, Hd.
  - right. rewrite Hh, Hd, (Hl Hoff). by repeat split.
Qed.

(** ** dispose *)

Lemma dispose_disposed s : _disposables s = [] -> dispose _selector s = s.
Proof. intros Hd. unfold dispose. rewrite Hd. cbn [foldl]. destruct s. cbn in *. by subst. Qed.

Lemma dispose_disposables s : _disposables (dispose _selector s) = [].
Proof. reflexivity. Qed.

(** After [dispose] the invariant holds, nothing is subscribed, no
    document has a listener and no timer is pending. *)
Lemma Inv_dispose s :
  Inv s ->
  Inv (dispose _selector s)
  /\ hooks (dispose _selector s) = []
  /\ _listener (dispose _selector s) = ∅
  /\ timers (dispose _selector s) = [].
Proof.
  intros [Hcore Hhooked].
  assert (Hgoal : Core (dispose _selector s)
                  /\ hooks (dispose _selector s) = []
                  /\ _listener (dispose _selector s) = ∅).
  { destruct Hhooked as [[Hon Hdis]|(Hoff & Hdis & Hempty)].
    - unfold dispose. rewrite Hdis. cbn [foldl allDisposables dispose_one].
      set (s3 := set_hooks _ (set_hooks _ (set_hooks _ s))).
      assert (Hcore3 : Core s3) by (by do 3 apply Core_set_hooks).
      assert (Hhooks3 : hooks s3 = [D_onDidChangeDefaults])
        by (subst s3; cbn [hooks set_hooks]; rewrite Hon; reflexivity).
      destruct (Core_remove_all (models s3) s3 Hcore3) as (Hcore4 & _ & Hhooks4 & _).
      pose proof (remove_all_untracked s3 Hcore3) as Hempty4.
      set (s4 := foldl _ s3 (models s3)) in *.
      split; [by apply Core_set_disposables, Core_set_hooks|].
      cbn [hooks set_hooks set_disposables _listener].
      rewrite Hhooks4, Hhooks3. split; [reflexivity | assumption].
    - rewrite dispose_disposed by assumption. split; [assumption|]. by split. }
  destruct Hgoal as (Hc & Hh & Hl).
  split; [split; [assumption|]; right; by repeat split|].
  split; [assumption|]. split; [assumption|]. by apply untracked_no_timers.
Qed.

(** ** The constructor *)

Lemma onModelAdd_listener m s u id :
  _listener (onModelAdd _selector m s) !! u = Some id ->
  u = m_uri m \/ _listener s !! u = Some id.
Proof.
  unfold onModelAdd. destruct (negb (String.eqb (m_modeId m) _selector)); [by right|].
  cbn. intros [[<- _]|[_ Hl]]%lookup_insert_Some; [by left | by right].
Qed.

Lemma Core_add_all l s :
  Core s -> NoDup (map m_uri l) ->
  (forall m, In m l -> In (m_uri m) (map m_uri (models s))) ->
  (forall m, In m l -> _listener s !! m_uri m = None) ->
  let s' := foldl (fun s model => onModelAdd _selector model s) s l in
  Core s' /\ hooks s' = hooks s /\ _disposables s' = _disposables s.
Proof.
  revert s. induction l as [|m l IH]; intros s Hcore Hnd Hopen Hfree; [done|].
  cbn [foldl]. cbn [map] in Hnd. apply NoDup_cons_In in Hnd as [Hnot Hnd].
  destruct (onModelAdd_other m s) as (Hmo & _ & _ & Hh & Hd & _).
  destruct (IH (onModelAdd _selector m s)) as (Hc' & Hh' & Hd').
  - apply Core_onModelAdd; [assumption | apply Hfree; by left | apply Hopen; by left].
  - assumption.
  - intros m' Hin. rewrite Hmo. apply Hopen. by right.
  - intros m' Hin.
    destruct (_listener (onModelAdd _selector m s) !! m_uri m') as [id|] eqn:Hl; [|reflexivity].
    apply onModelAdd_listener in Hl as [Heq|Hl].
    + exfalso. apply Hnot. rewrite <- Heq. by apply in_map.
    + rewrite Hfree in Hl by (by right). discriminate.
  - cbn zeta. rewrite Hh', Hd', Hh, Hd. split; [exact Hc'|]. by split.
Qed.

Lemma Inv_new now ms :
  NoDup (map m_uri ms) -> Inv (DiagnostcsAdapter_new _selector now ms).
Proof.
  intros Hnd. unfold DiagnostcsAdapter_new.
  set (s0 := mkState _ _ _ _ _ _ _ _ _).
  destruct (Core_add_all ms s0) as (Hc & Hh & Hd).
  - constructor; cbn; try done.
    + apply NoDup_nil_2.
  - assumption.
  - intros m Hin. by apply in_map.
  - intros m _. apply lookup_empty.
  - split; [assumption|]. left. cbn zeta in Hh, Hd. by rewrite Hh, Hd.
Qed.

(** ** Every event keeps the invariant *)

Lemma onDidChangeContent_other id s :
  hooks (onDidChangeContent id s) = hooks s
  /\ _disposables (onDidChangeContent id s) = _disposables s
  /\ _listener (onDidChangeContent id s) = _listener s
  /\ models (onDidChangeContent id s) = models s
  /\ clock (onDidChangeContent id s) = clock s
  /\ effects (onDidChangeContent id s) = effects s.
Proof.
  unfold onDidChangeContent. destruct (closures s !! id) as [c|]; [|by repeat split].
  destruct (clearTimeout_other (c_handle c) s) as (_ & Hl & Hm & _ & Hh & Hd & He & Hc).
  cbn -[quietPeriod]. rewrite Hl, Hm, Hh, Hd, He, Hc. by repeat split.
Qed.

Lemma step_change_other u s :
  Core s ->
  hooks (step _selector (ChangeContent u) s) = hooks s
  /\ _disposables (step _selector (ChangeContent u) s) = _disposables s
  /\ _listener (step _selector (ChangeContent u) s) = _listener s
  /\ clock (step _selector (ChangeContent u) s) = clock s
  /\ effects (step _selector (ChangeContent u) s) = effects s.
Proof.
  intros Hcore. destruct (_listener s !! u) as [id|] eqn:Hl.
  - rewrite (step_change_tracked s u id) by assumption.
    destruct (onDidChangeContent_other id (bumpVersion u s)) as (Hh & Hd & Hli & _ & Hc & He).
    rewrite Hh, Hd, Hli, Hc, He. by repeat split.
  - destruct (step_change_untracked s u Hcore Hl) as [-> | ->]; by repeat split.
Qed.

Lemma onModelAdd_other_language m s :
  m_modeId m <> _selector -> onModelAdd _selector m s = s.
Proof.
  intros Hne. unfold onModelAdd.
  by replace (String.eqb (m_modeId m) _selector) with false
    by (symmetry; by apply String.eqb_neq).
Qed.

(** Every event keeps the invariant, but the creation of a document of
    the language of the adapter while the adapter listens to the editor. *)
Lemma Inv_step e s :
  Inv s -> creates _selector e = false \/ hooks s = [] -> Inv (step _selector e s).
Proof.
  intros [Hcore Hhooked] Hquiet. destruct e as [u mode|u|u mode| |u|dt|].
  - (* CreateModel *)
    cbn [step]. destruct (getModel s u) eqn:Hget; [by split|].
    apply getModel_None in Hget.
    set (model := mkModelState u mode 1).
    set (s1 := set_models (models s ++ [model]) s).
    assert (Hcore1 : Core s1).
    { destruct Hcore as [H1 H2 H3 H4 H5 H6 H7]. constructor; cbn; try assumption.
      - intros u' id Hl. rewrite map_app. apply in_app_iff. left. by eapply H6.
      - rewrite map_app. apply NoDup_app. split; [assumption|]. split.
        + intros x Hx [->|[]%elem_of_nil]%elem_of_cons. by apply list_elem_of_In in Hx.
        + apply NoDup_singleton. }
    assert (Hhooked1 : Hooked s1) by (by apply (Hooked_same s)).
    assert (Hopen : In (m_uri model) (map m_uri (models s1))).
    { cbn. rewrite map_app. apply in_app_iff. right. by left. }
    assert (Hfree : _listener s1 !! m_uri model = None).
    { destruct (_listener s1 !! m_uri model) as [id|] eqn:Hl; [|reflexivity].
      exfalso. apply Hget. by apply (core_tracked s Hcore u id). }
    destruct (negb (String.eqb mode plaintext)
              && has_hook D_onDidChangeModelLanguage s1) eqn:Hchange.
    + (* the language is set: the document is removed and added *)
      apply andb_true_iff in Hchange as [Hplain Hhook].
      assert (Hother : m_modeId model <> _selector).
      { destruct Hquiet as [Hquiet|Hnone].
        - cbn [creates] in Hquiet. rewrite Hplain, andb_true_r in Hquiet.
          by apply String.eqb_neq.
        - exfalso. unfold has_hook in Hhook. change (hooks s1) with (hooks s) in Hhook.
          rewrite Hnone in Hhook. apply bool_decide_eq_true_1 in Hhook.
          by apply not_elem_of_nil in Hhook. }
      rewrite !(onModelAdd_other_language model) by assumption.
      assert (Hinv2 : Inv (onModelRemoved _selector model s1)).
      { destruct (onModelRemoved_other model s1) as (_ & _ & Hh & Hd & _).
        split; [by apply Core_onModelRemoved|].
        left. rewrite Hh, Hd. by apply (has_hook_Hooked D_onDidChangeModelLanguage s1). }
      by destruct (has_hook D_onDidCreateModel _).
    + destruct (has_hook D_onDidCreateModel s1) eqn:Hhook; [|by split].
      destruct (onModelAdd_other model s1) as (_ & _ & _ & Hh & Hd & _). split.
      * by apply Core_onModelAdd.
      * left. rewrite Hh, Hd. by apply (has_hook_Hooked D_onDidCreateModel s1).
  - (* DisposeModel *)
    cbn [step]. destruct (getModel s u) as [model|] eqn:Hget; [|by split].
    apply getModel_Some in Hget as [Hin Huri].
    set (s1 := if has_hook D_onWillDisposeModel s then onModelRemoved _selector model s else s).
    assert (H1 : Core s1 /\ Hooked s1 /\ _listener s1 !! u = None /\ models s1 = models s).
    { subst s1. destruct (has_hook D_onWillDisposeModel s) eqn:Hhook.
      - destruct (onModelRemoved_other model s) as (Hmo & _ & Hh & Hd & _ & _ & Hli).
        split; [by apply Core_onModelRemoved|]. split; [|split; [|assumption]].
        + left. rewrite Hh, Hd. by apply (has_hook_Hooked D_onWillDisposeModel s).
        + rewrite Hli, Huri. apply lookup_delete_eq.
      - destruct (no_hook_Hooked D_onWillDisposeModel s Hhooked) as (_ & _ & Hempty);
          [cbn; tauto | assumption |].
        split; [assumption|]. split; [assumption|]. split; [|reflexivity].
        rewrite Hempty. apply lookup_empty. }
    destruct H1 as (Hcore1 & Hhooked1 & Hfree & Hmodels).
    rewrite (dropListeners_untracked u s1) by assumption. split.
    + destruct Hcore1 as [C1 C2 C3 C4 C5 C6 C7]. constructor; cbn; try assumption.
      * intros u' id Hl. specialize (C6 u' id Hl).
        apply in_map_iff in C6 as (m' & Hu' & Hin'). apply in_map_iff. exists m'.
        split; [assumption|]. apply filter_In. split; [assumption|].
        apply negb_true_iff. destruct (has_uri u m') eqn:Hu; [|reflexivity].
        apply has_uri_true in Hu. congruence.
      * by apply NoDup_map_filter.
    + by apply (Hooked_same s1).
  - (* SetModelLanguage *)
    cbn [step]. destruct (getModel s u) as [m0|] eqn:Hget0; [|by split].
    destruct (String.eqb (m_modeId m0) mode); [by split|].
    pose proof (Core_setModeId u mode s Hcore) as Hcore1.
    assert (Hhooked1 : Hooked (setModeId u mode s)) by (by apply (Hooked_same s)).
    destruct (getModel (setModeId u mode s) u) as [model|] eqn:Hget; [|by split].
    destruct (has_hook D_onDidChangeModelLanguage (setModeId u mode s)) eqn:Hhook;
      [|by split].
    apply getModel_Some in Hget as [Hin Huri].
    destruct (readd_other model (setModeId u mode s)) as (_ & Hh & Hd). split.
    + apply Core_readd; [assumption|]. by apply in_map.
    + left. rewrite Hh, Hd. by apply (has_hook_Hooked D_onDidChangeModelLanguage).
  - (* ChangeDefaults *)
    cbn [step]. destruct (has_hook D_onDidChangeDefaults s) eqn:Hhook; [|by split].
    destruct (Core_readd_all (models s) s Hcore) as (Hc & _ & Hh & Hd).
    { intros m Hin. by apply in_map. }
    split; [assumption|]. left. cbn zeta in Hh, Hd. rewrite Hh, Hd.
    by apply (has_hook_Hooked D_onDidChangeDefaults).
  - (* ChangeContent *)
    split; [by apply Core_step_change|].
    destruct (step_change_other u s Hcore) as (Hh & Hd & Hl & _).
    by apply (Hooked_same s).
  - (* Tick *)
    cbn [step]. split; [by apply Core_tick|].
    destruct (tick_other dt s) as (_ & _ & Hl & _ & Hh & Hd & _).
    by apply (Hooked_same s).
  - (* Dispose *)
    cbn [step]. by apply Inv_dispose.
Qed.

Lemma Inv_run events s :
  Inv s -> forallb (fun e => negb (creates _selector e)) events = true ->
  Inv (run _selector events s).
Proof.
  revert s. induction events as [|e events IH]; intros s Hinv Hquiet; [assumption|].
  cbn [forallb] in Hquiet. apply andb_true_iff in Hquiet as [He Hquiet].
  cbn [run foldl]. apply IH; [|assumption].
  apply Inv_step; [assumption|]. left. by apply negb_true_iff.
Qed.

(** As long as no document of the language of the adapter is created, the
    invariant holds. *)
Lemma steady_Inv s : steady _selector s -> Inv s.
Proof.
  intros (now & ms & events & Hnd & Hquiet & ->).
  apply Inv_run; [by apply Inv_new | assumption].
Qed.

Lemma steady_reachable s : steady _selector s -> reachable _selector s.
Proof. intros (now & ms & events & Hnd & _ & ->). by exists now, ms, events. Qed.

(** ** Timers and validation passes *)

Lemma filter_none {A} (p : A -> bool) (l : list A) :
  (forall x, In x l -> p x = false) -> List.filter p l = [].
Proof.
  induction l as [|a l IH]; intros Hall; [reflexivity|].
  cbn [List.filter]. rewrite (Hall a) by (by left). apply IH. intros x Hx. apply Hall. by right.
Qed.

Lemma filter_all {A} (p : A -> bool) (l : list A) :
  (forall x, In x l -> p x = true) -> List.filter p l = l.
Proof.
  induction l as [|a l IH]; intros Hall; [reflexivity|].
  cbn [List.filter]. rewrite (Hall a) by (by left). f_equal. apply IH.
  intros x Hx. apply Hall. by right.
Qed.

Lemma filter_comm {A} (p q : A -> bool) (l : list A) :
  List.filter p (List.filter q l) = List.filter q (List.filter p l).
Proof.
  induction l as [|a l IH]; [reflexivity|]. cbn [List.filter].
  destruct (p a) eqn:Hp, (q a) eqn:Hq; cbn [List.filter]; rewrite ?Hp, ?Hq, IH; reflexivity.
Qed.

Lemma getModel_models s s' u : models s' = models s -> getModel s' u = getModel s u.
Proof. unfold getModel. by intros ->. Qed.

Lemma getModel_bumpVersion u s :
  getModel (bumpVersion u s) u
  = (fun m => mkModelState (m_uri m) (m_modeId m) (m_version m + 1)) <$> getModel s u.
Proof.
  unfold getModel, bumpVersion. cbn [models set_models].
  induction (models s) as [|m ms IH]; [reflexivity|].
  cbn [map List.filter]. destruct (has_uri u m) eqn:Hu.
  - assert (Hu' : has_uri u (mkModelState (m_uri m) (m_modeId m) (m_version m + 1)) = true)
      by exact Hu.
    rewrite Hu'. reflexivity.
  - rewrite Hu. exact IH.
Qed.

Lemma validations_cons u u' v log :
  validations u (Validate u' v :: log)
  = if String.eqb u' u then v :: validations u log else validations u log.
Proof. unfold validations. cbn [omap list_omap]. by destruct (String.eqb u' u). Qed.

(** The validation passes of [u] among the timers that fire. *)
Lemma validations_fire u due s :
  validations u (effects (foldl (fun s t => _doValidate (timer_uri t) s) s due))
  = repeat (m_version <$> getModel s u)
      (length (List.filter (fun t => String.eqb (timer_uri t) u) due))
    ++ validations u (effects s).
Proof.
  revert s. induction due as [|t due IH]; intros s; [reflexivity|].
  cbn [foldl List.filter]. rewrite IH.
  rewrite (getModel_models s (_doValidate (timer_uri t) s) u) by reflexivity.
  cbn [_doValidate effects add_effect]. rewrite validations_cons.
  destruct (String.eqb (timer_uri t) u) eqn:Heq.
  - apply String.eqb_eq in Heq. rewrite Heq.
    cbn [length repeat]. rewrite repeat_cons, <- app_assoc. reflexivity.
  - reflexivity.
Qed.

Lemma pending_tick u dt s :
  pending u (tick dt s)
  = List.filter (fun t => negb (is_due (clock s + Z.max 0 dt) t)) (pending u s).
Proof.
  unfold pending. destruct (tick_other dt s) as (_ & _ & _ & _ & _ & _ & _ & ->).
  apply filter_comm.
Qed.

Lemma validations_tick u dt s :
  validations u (effects (tick dt s))
  = repeat (m_version <$> getModel s u)
      (length (List.filter (is_due (clock s + Z.max 0 dt)) (pending u s)))
    ++ validations u (effects s).
Proof.
  unfold tick. rewrite validations_fire. unfold pending. rewrite filter_comm. reflexivity.
Qed.

(** A tick shorter than what is left of the quiet period fires no timer of
    the document; a tick that reaches the due time fires it. *)
Lemma tick_short u dt s :
  (forall t, In t (pending u s) -> clock s + Z.max 0 dt < timer_due t) ->
  pending u (tick dt s) = pending u s
  /\ validations u (effects (tick dt s)) = validations u (effects s).
Proof.
  intros Hlate. rewrite pending_tick, validations_tick. split.
  - apply filter_all. intros t Hin. apply negb_true_iff. apply Z.leb_gt. by apply Hlate.
  - rewrite filter_none; [reflexivity|].
    intros t Hin. apply Z.leb_gt. by apply Hlate.
Qed.

Lemma tick_long u dt s t :
  pending u s = [t] -> timer_due t <= clock s + Z.max 0 dt ->
  pending u (tick dt s) = []
  /\ validations u (effects (tick dt s))
     = (m_version <$> getModel s u) :: validations u (effects s).
Proof.
  intros Hpending Hdue. rewrite pending_tick, validations_tick, Hpending.
  cbn [List.filter]. unfold is_due.
  replace (timer_due t <=? clock s + Z.max 0 dt) with true by (symmetry; by apply Z.leb_le).
  split; reflexivity.
Qed.

(** After a content change of a tracked document exactly one timer of the
    document is pending, due one quiet period later; no validation pass
    has started and the version of the document is one more. *)
Lemma change_arms u id s :
  Core s -> _listener s !! u = Some id ->
  let s' := step _selector (ChangeContent u) s in
  pending u s' = [mkTimer (nextTimer s) (clock s + quietPeriod) u]
  /\ clock s' = clock s
  /\ effects s' = effects s
  /\ _listener s' = _listener s
  /\ getModel s' u
     = (fun m => mkModelState (m_uri m) (m_modeId m) (m_version m + 1)) <$> getModel s u.
Proof.
  intros Hcore Hl.
  destruct (step_change_other u s Hcore) as (_ & _ & Hli & Hclock & Heff).
  cbn zeta. rewrite Hli, Hclock, Heff. split; [|split; [done|split; [done|split; [done|]]]].
  - rewrite (step_change_tracked s u id) by assumption.
    pose proof (Core_bumpVersion u s Hcore) as Hcore1.
    destruct (core_listener _ Hcore1 u id Hl) as (c & Hc & Huri & Hsub).
    unfold onDidChangeContent. rewrite Hc.
    destruct (clearTimeout_other (c_handle c) (bumpVersion u s))
      as (_ & _ & _ & Hnext & _ & _ & _ & Hclk).
    unfold pending. cbn -[quietPeriod String.eqb]. rewrite List.filter_app.
    rewrite filter_none.
    + cbn -[quietPeriod]. rewrite Hnext, Hclk, Huri, String.eqb_refl. reflexivity.
    + intros t Hin. destruct (String.eqb_spec (timer_uri t) u) as [Htu|_]; [|reflexivity].
      exfalso. pose proof (clearTimeout_cleared _ _ _ Hin) as Hcleared.
      apply clearTimeout_timers in Hin as [Hin _].
      destruct (core_timers _ Hcore1 t Hin) as (id' & c' & Hc' & Hsub' & Hh' & Huri').
      pose proof (core_subscribed _ Hcore1 id' c' Hc' Hsub') as Hl'.
      rewrite <- Huri', Htu in Hl'. cbn in Hl'. rewrite Hl in Hl'. injection Hl' as <-.
      rewrite Hc in Hc'. injection Hc' as <-. contradiction.
  - rewrite (step_change_tracked s u id) by assumption.
    destruct (onDidChangeContent_other id (bumpVersion u s)) as (_ & _ & _ & Hmo & _).
    rewrite (getModel_models _ _ u Hmo). apply getModel_bumpVersion.
Qed.

Lemma versionOf_models s s' u : models s' = models s -> versionOf s' u = versionOf s u.
Proof. intros Hmo. unfold versionOf. by rewrite (getModel_models s s' u Hmo). Qed.

Lemma run_app events1 events2 s :
  run _selector (events1 ++ events2) s = run _selector events2 (run _selector events1 s).
Proof. unfold run. apply foldl_app. Qed.

Lemma run_cons e events s :
  run _selector (e :: events) s = run _selector events (step _selector e s).
Proof. reflexivity. Qed.

(** The changes of a burst after the first one: each comes before the
    pending timer is due, cancels it and starts the next one. *)
Lemma burst_rearms u id gaps :
  forall s t,
    Core s -> _listener s !! u = Some id ->
    pending u s = [t] -> timer_due t = clock s + quietPeriod ->
    Forall (fun g => 0 <= g < quietPeriod) gaps ->
    let s' := run _selector (flat_map (fun g => [Tick g; ChangeContent u]) gaps) s in
    Core s'
    /\ _listener s' !! u = Some id
    /\ (exists t', pending u s' = [t'] /\ timer_due t' = clock s' + quietPeriod)
    /\ validations u (effects s') = validations u (effects s)
    /\ versionOf s' u = (fun v => v + Z.of_nat (length gaps)) <$> versionOf s u.
Proof.
  induction gaps as [|g gaps IH]; intros s t Hcore Hl Hpending Hdue Hgaps.
  - cbn. split; [assumption|]. split; [assumption|]. split; [by exists t|].
    split; [reflexivity|]. destruct (versionOf s u); cbn; [f_equal; lia | reflexivity].
  - apply Forall_cons in Hgaps as [Hg Hgaps].
    cbn [flat_map app]. rewrite !run_cons.
    change (step _selector (Tick g) s) with (tick g s).
    set (s1 := tick g s).
    destruct (tick_short u g s) as (Hpending1 & Hval1).
    { intros t' Hin. rewrite Hpending in Hin. destruct Hin as [<-|[]]. lia. }
    destruct (tick_other g s) as (Hmo1 & _ & Hli1 & _ & _ & _ & Hclock1 & _).
    fold s1 in Hpending1, Hval1, Hmo1, Hli1, Hclock1.
    assert (Hcore1 : Core s1) by (by apply Core_tick).
    assert (Hl1 : _listener s1 !! u = Some id) by (by rewrite Hli1).
    destruct (change_arms u id s1 Hcore1 Hl1) as (Hpending2 & Hclock2 & Heff2 & Hli2 & Hget2).
    set (s2 := step _selector (ChangeContent u) s1) in *.
    destruct (IH s2 (mkTimer (nextTimer s1) (clock s1 + quietPeriod) u))
      as (Hcore' & Hl' & Ht' & Hval' & Hver').
    + by apply Core_step_change.
    + by rewrite Hli2.
    + assumption.
    + cbn [timer_due]. by rewrite Hclock2.
    + assumption.
    + split; [assumption|]. split; [assumption|]. split; [assumption|]. split.
      * by rewrite Hval', Heff2, Hval1.
      * rewrite Hver'. unfold versionOf at 1. rewrite Hget2.
        rewrite (getModel_models s s1 u Hmo1). unfold versionOf.
        destruct (getModel s u); cbn; [f_equal; lia | reflexivity].
Qed.

(** ** What holds in every state *)

Lemma lookup_map {A B} (f : A -> B) (l : list A) (i : nat) :
  map f l !! i = f <$> l !! i.
Proof.
  revert i. induction l as [|a l IH]; intros [|i]; try reflexivity. cbn. apply IH.
Qed.

Lemma Handles_same s s' :
  (forall id, handleOf s' id = handleOf s id) -> nextTimer s' = nextTimer s ->
  Handles s -> Handles s'.
Proof.
  intros Hsame Hnext [Hstarted Hunique]. constructor.
  - intros id h. rewrite Hsame, Hnext. apply Hstarted.
  - intros id id' h. rewrite !Hsame. apply Hunique.
Qed.

Lemma handleOf_clearTimeout h s id : handleOf (clearTimeout h s) id = handleOf s id.
Proof. by destruct h. Qed.

Lemma handleOf_listener_dispose id' s id :
  handleOf (listener_dispose id' s) id = handleOf s id.
Proof.
  unfold listener_dispose. destruct (closures s !! id') as [c|] eqn:Hc; [|reflexivity].
  rewrite handleOf_clearTimeout. unfold handleOf. cbn [closures set_closures].
  rewrite (lookup_insert_closure _ id' id c) by assumption.
  destruct (decide (id = id')) as [->|_]; [|reflexivity]. by rewrite Hc.
Qed.

Lemma handleOf_onModelRemoved m s id :
  handleOf (onModelRemoved _selector m s) id = handleOf s id.
Proof.
  unfold onModelRemoved. cbn [_listener add_effect].
  destruct (_listener s !! m_uri m) as [id'|]; [|reflexivity].
  change (handleOf (set_listener _ ?s') id) with (handleOf s' id).
  by rewrite handleOf_listener_dispose.
Qed.

Lemma handleOf_onModelAdd m s id :
  handleOf (onModelAdd _selector m s) id = handleOf s id.
Proof.
  unfold onModelAdd. destruct (negb (String.eqb (m_modeId m) _selector)); [reflexivity|].
  unfold handleOf. cbv zeta. cbn [_doValidate add_effect set_listener set_closures closures].
  destruct (decide (id < length (closures s))%nat) as [Hlt|Hge].
  - by rewrite lookup_app_l.
  - rewrite lookup_app_r by lia. rewrite (lookup_ge_None_2 (closures s)) by lia.
    by destruct (id - length (closures s))%nat.
Qed.

Lemma Handles_onModelRemoved m s : Handles s -> Handles (onModelRemoved _selector m s).
Proof.
  apply Handles_same; [apply handleOf_onModelRemoved|].
  by destruct (onModelRemoved_other m s) as (_ & -> & _).
Qed.

Lemma Handles_onModelAdd m s : Handles s -> Handles (onModelAdd _selector m s).
Proof.
  apply Handles_same; [apply handleOf_onModelAdd|].
  by destruct (onModelAdd_other m s) as (_ & _ & -> & _).
Qed.

Lemma Handles_fold {A} (f : State -> A -> State) l s :
  (forall s a, Handles s -> Handles (f s a)) -> Handles s -> Handles (foldl f s l).
Proof.
  intros Hf. revert s. induction l as [|a l IH]; intros s Hs; [assumption|].
  cbn [foldl]. by apply IH, Hf.
Qed.

Lemma Handles_dispose_one d s : Handles s -> Handles (dispose_one _selector d s).
Proof.
  intros Hs. destruct d; cbn [dispose_one];
    try (revert Hs; apply Handles_same; reflexivity).
  apply Handles_fold; [|assumption].
  intros s' m. apply Handles_onModelRemoved.
Qed.

Lemma Handles_dispose s : Handles s -> Handles (dispose _selector s).
Proof.
  intros Hs. unfold dispose.
  apply (Handles_same (foldl (fun s d => dispose_one _selector d s) s (_disposables s)));
    [reflexivity..|].
  apply Handles_fold; [|assumption]. intros s' d. apply Handles_dispose_one.
Qed.

Lemma Handles_onDidChangeContent s id : Handles s -> Handles (onDidChangeContent id s).
Proof.
  intros [Hstarted Hunique]. unfold onDidChangeContent.
  destruct (closures s !! id) as [c|] eqn:Hc; [|by constructor].
  assert (Hof : forall id',
             handleOf (let '(h, s2) := setTimeout (c_uri c) quietPeriod
                                         (clearTimeout (c_handle c) s) in
                       set_closures (<[id := mkClosure (c_uri c) (Some h) (c_subscribed c)]>
                                       (closures s2)) s2) id'
             = if decide (id' = id) then Some (nextTimer s) else handleOf s id').
  { intros id'. unfold handleOf. cbn -[quietPeriod].
    destruct (clearTimeout_other (c_handle c) s) as (Hcl & _ & _ & Hnext & _).
    rewrite Hcl, Hnext, (lookup_insert_closure _ id id' c) by assumption.
    by destruct (decide (id' = id)). }
  assert (Hnext : nextTimer (let '(h, s2) := setTimeout (c_uri c) quietPeriod
                                               (clearTimeout (c_handle c) s) in
                             set_closures (<[id := mkClosure (c_uri c) (Some h)
                                                     (c_subscribed c)]>
                                             (closures s2)) s2)
                  = S (nextTimer s)).
  { cbn -[quietPeriod].
    by destruct (clearTimeout_other (c_handle c) s) as (_ & _ & _ & -> & _). }
  constructor.
  - intros id' h. rewrite Hof, Hnext.
    destruct (decide (id' = id)) as [_|_]; [intros [= <-]; lia|].
    intros Hh%Hstarted. lia.
  - intros id1 id2 h. rewrite !Hof.
    destruct (decide (id1 = id)) as [->|Hne1], (decide (id2 = id)) as [->|Hne2].
    + done.
    + intros [= <-] Hh%Hstarted. lia.
    + intros Hh%Hstarted [= <-]. lia.
    + apply Hunique.
Qed.

Lemma Handles_new now ms : Handles (DiagnostcsAdapter_new _selector now ms).
Proof.
  unfold DiagnostcsAdapter_new. apply Handles_fold.
  - intros s m. apply Handles_onModelAdd.
  - constructor; intros id; unfold handleOf; cbn; by rewrite ?lookup_nil.
Qed.

Lemma Handles_readd m s :
  Handles s -> Handles (onModelAdd _selector m (onModelRemoved _selector m s)).
Proof. intros Hs. by apply Handles_onModelAdd, Handles_onModelRemoved. Qed.

Lemma Handles_step e s : Handles s -> Handles (step _selector e s).
Proof.
  intros Hs. destruct e as [u mode|u|u mode| |u|dt|]; cbn [step].
  - destruct (getModel s u); [assumption|].
    assert (Hs1 : Handles (set_models (models s ++ [mkModelState u mode 1]) s))
      by (revert Hs; apply Handles_same; reflexivity).
    revert Hs1. generalize (set_models (models s ++ [mkModelState u mode 1]) s).
    intros s1 Hs1.
    assert (Hs2 : Handles (if negb (String.eqb mode plaintext)
                              && has_hook D_onDidChangeModelLanguage s1
                           then onModelAdd _selector (mkModelState u mode 1)
                                  (onModelRemoved _selector (mkModelState u mode 1) s1)
                           else s1))
      by (destruct (_ && _); [by apply Handles_readd | assumption]).
    revert Hs2. generalize (if negb (String.eqb mode plaintext)
                               && has_hook D_onDidChangeModelLanguage s1
                            then onModelAdd _selector (mkModelState u mode 1)
                                   (onModelRemoved _selector (mkModelState u mode 1) s1)
                            else s1).
    intros s2 Hs2. destruct (has_hook _ _); [by apply Handles_onModelAdd | assumption].
  - destruct (getModel s u) as [model|]; [|assumption].
    assert (Hs1 : Handles (if has_hook D_onWillDisposeModel s
                           then onModelRemoved _selector model s else s))
      by (destruct (has_hook _ _); [by apply Handles_onModelRemoved | assumption]).
    revert Hs1. generalize (if has_hook D_onWillDisposeModel s
                            then onModelRemoved _selector model s else s).
    intros s1. apply Handles_same; [|reflexivity].
    intros id. unfold handleOf, dropListeners. cbn [closures set_models set_closures].
    rewrite lookup_map. destruct (closures s1 !! id) as [c|]; [|reflexivity].
    cbn. by destruct (String.eqb (c_uri c) u).
  - destruct (getModel s u) as [model0|]; [|assumption].
    destruct (String.eqb (m_modeId model0) mode); [assumption|].
    assert (Hs1 : Handles (setModeId u mode s))
      by (revert Hs; apply Handles_same; reflexivity).
    destruct (getModel (setModeId u mode s) u) as [model|]; [|exact Hs1].
    destruct (has_hook _ _); [|exact Hs1].
    by apply Handles_readd.
  - destruct (has_hook _ _); [|assumption].
    apply Handles_fold; [|assumption].
    intros s' m Hs'. by apply Handles_readd.
  - destruct (getModel s u); [|assumption].
    apply Handles_fold; [intros s' id; apply Handles_onDidChangeContent|].
    revert Hs. apply Handles_same; reflexivity.
  - destruct (tick_other dt s) as (_ & Hcl & _ & Hnext & _).
    revert Hs. apply Handles_same; [|assumption].
    intros id. unfold handleOf. by rewrite Hcl.
  - by apply Handles_dispose.
Qed.

(** The registry, the closures and the timers. *)
Lemma Core_Sound s : Core s -> Sound s.
Proof.
  intros [H1 H2 H3 H4 H5 H6 H7]. constructor; try assumption.
  - intros t Hin. destruct (H3 t Hin) as (id & c & Hc & _ & Hh & Huri). by exists id, c.
  - intros id c Hc Hsub. by apply (H6 (c_uri c) id), H2.
Qed.

Lemma Sound_same s s' :
  closures s' = closures s -> _listener s' = _listener s -> timers s' = timers s ->
  map m_uri (models s') = map m_uri (models s) -> Sound s -> Sound s'.
Proof.
  intros Hc Hl Ht Hm [H1 H2 H3 H4 H5 H6].
  constructor; rewrite ?Hc, ?Hl, ?Ht, ?Hm; assumption.
Qed.

Lemma Sound_filter_timers p s :
  Sound s -> Sound (set_timers (List.filter p (timers s)) s).
Proof.
  intros [H1 H2 H3 H4 H5 H6]. constructor; cbn; try assumption.
  - intros t [Hin _]%filter_In. by apply H2.
  - by apply NoDup_map_filter.
Qed.

Lemma Sound_clearTimeout h s : Sound s -> Sound (clearTimeout h s).
Proof. destruct h; simpl; [apply Sound_filter_timers | done]. Qed.

Lemma Sound_onModelRemoved m s : Sound s -> Sound (onModelRemoved _selector m s).
Proof.
  intros Hsound. unfold onModelRemoved. cbn [_listener add_effect].
  destruct (_listener s !! m_uri m) as [id|] eqn:Hl;
    [|revert Hsound; apply Sound_same; reflexivity].
  destruct (sound_listener s Hsound _ _ Hl) as (c & Hc & Huri & Hsub).
  unfold listener_dispose. cbn [closures add_effect]. rewrite Hc.
  set (s1 := set_closures _ _).
  destruct (clearTimeout_other (c_handle c) s1) as (Hcl & Hli & Hmo & _).
  destruct Hsound as [H1 H2 H3 H4 H5 H6].
  constructor; cbn [_listener set_listener closures timers models];
    rewrite ?Hcl, ?Hli, ?Hmo; subst s1;
    cbn [closures set_closures _listener models add_effect].
  - intros u id' Hd. apply lookup_delete_Some in Hd as [Hne' Hl'].
    destruct (H1 u id' Hl') as (c' & Hc' & Huri' & Hsub'). exists c'.
    split; [|by split].
    rewrite (lookup_insert_closure _ id id' c) by assumption.
    rewrite decide_False; [assumption|]. intros ->. congruence.
  - intros t [Hin Hh]%clearTimeout_timers. cbn in Hin.
    destruct (H2 t Hin) as (id' & c' & Hc' & Hh' & Huri').
    destruct (decide (id' = id)) as [->|Hne'].
    + rewrite Hc in Hc'. injection Hc' as <-. contradiction.
    + exists id', c'. split; [|by split].
      rewrite (lookup_insert_closure _ id id' c) by assumption.
      by rewrite decide_False.
  - destruct (c_handle c); [by apply NoDup_map_filter | assumption].
  - intros u id' Hd. apply lookup_delete_Some in Hd as [_ Hl']. by eapply H4.
  - assumption.
  - intros id' c'. rewrite (lookup_insert_closure _ id id' c) by assumption.
    destruct (decide (id' = id)) as [->|Hne']; [intros [= <-]; discriminate|].
    apply H6.
Qed.

Lemma Sound_onModelAdd m s :
  Sound s -> In (m_uri m) (map m_uri (models s)) -> Sound (onModelAdd _selector m s).
Proof.
  intros Hsound Hopen. unfold onModelAdd.
  destruct (negb (String.eqb (m_modeId m) _selector)); [assumption|].
  destruct Hsound as [H1 H2 H3 H4 H5 H6].
  constructor; cbv zeta;
    cbn [_doValidate add_effect set_listener set_closures _listener closures timers models].
  - intros u id. rewrite lookup_insert_Some. intros [[<- <-]|[Hne Hl]].
    + eexists. split; [by apply list_lookup_middle | by split].
    + destruct (H1 u id Hl) as (c & Hc & Huri & Hsub). exists c. split; [|by split].
      rewrite lookup_app_l; [assumption | by eapply lookup_lt_Some].
  - intros t Hin. destruct (H2 t Hin) as (id & c & Hc & Hh & Huri).
    exists id, c. split; [|by split].
    rewrite lookup_app_l; [assumption | by eapply lookup_lt_Some].
  - assumption.
  - intros u id. rewrite lookup_insert_Some. intros [[<- _]|[_ Hl]];
      [assumption | by eapply H4].
  - assumption.
  - intros id c Hc Hsub. destruct (decide (id < length (closures s))%nat) as [Hlt|Hge].
    + rewrite lookup_app_l in Hc by assumption. by eapply H6.
    + rewrite lookup_app_r in Hc by lia.
      apply list_lookup_singleton_Some in Hc as [_ <-]. exact Hopen.
Qed.

Lemma Sound_readd m s :
  Sound s -> In (m_uri m) (map m_uri (models s)) ->
  Sound (onModelAdd _selector m (onModelRemoved _selector m s)).
Proof.
  intros Hsound Hopen. apply Sound_onModelAdd; [by apply Sound_onModelRemoved|].
  by destruct (onModelRemoved_other m s) as (-> & _).
Qed.

Lemma Sound_onDidChangeContent id s :
  Sound s -> Handles s -> Sound (onDidChangeContent id s).
Proof.
  intros Hsound Hs. unfold onDidChangeContent.
  destruct (closures s !! id) as [c|] eqn:Hlook; [|assumption].
  assert (Hfresh : forall t, In t (timers (clearTimeout (c_handle c) s)) ->
                             (timer_id t < nextTimer (clearTimeout (c_handle c) s))%nat).
  { intros t [Hin _]%clearTimeout_timers.
    destruct (clearTimeout_other (c_handle c) s) as (_ & _ & _ & -> & _).
    destruct (sound_timers s Hsound t Hin) as (id' & c' & Hc' & Hh' & _).
    apply (handles_started s Hs id'). unfold handleOf. by rewrite Hc'. }
  pose proof (Sound_clearTimeout (c_handle c) s Hsound) as [H1 H2 H3 H4 H5 H6].
  assert (Hclosures : closures (clearTimeout (c_handle c) s) = closures s)
    by (destruct (c_handle c); reflexivity).
  pose proof (clearTimeout_cleared (c_handle c) s) as Hcleared.
  set (s1 := clearTimeout (c_handle c) s) in *.
  cbn [setTimeout]. constructor; cbn -[quietPeriod].
  - intros u id' Hl. destruct (H1 u id' Hl) as (c' & Hc' & Huri & Hsub').
    rewrite (lookup_insert_closure _ id id' c) by (by rewrite Hclosures).
    destruct (decide (id' = id)) as [->|Hne]; [|by exists c'].
    rewrite Hclosures, Hlook in Hc'. injection Hc' as <-.
    eexists. split; [reflexivity|]. by split.
  - intros t [Hin|[<-|[]]]%in_app_iff.
    + destruct (H2 t Hin) as (id' & c' & Hc' & Hh & Huri).
      exists id', c'. split; [|by split].
      rewrite (lookup_insert_closure _ id id' c) by (by rewrite Hclosures).
      destruct (decide (id' = id)) as [->|Hne]; [|assumption].
      rewrite Hclosures, Hlook in Hc'. injection Hc' as <-.
      exfalso. by apply (Hcleared t Hin).
    + exists id. eexists. split.
      * rewrite (lookup_insert_closure _ id id c) by (by rewrite Hclosures).
        rewrite decide_True by reflexivity. reflexivity.
      * by split.
  - rewrite map_app. apply NoDup_app. split; [assumption|]. split.
    + intros x Hx [->|[]%elem_of_nil]%elem_of_cons.
      apply list_elem_of_In, in_map_iff in Hx as (t & Hid & Hin).
      specialize (Hfresh t Hin). simpl in Hid. lia.
    + apply NoDup_singleton.
  - assumption.
  - assumption.
  - intros id' c'. rewrite (lookup_insert_closure _ id id' c) by (by rewrite Hclosures).
    destruct (decide (id' = id)) as [->|Hne]; [|apply H6].
    intros [= <-]. cbn. intros Hsub. apply (H6 id c); [by rewrite Hclosures | assumption].
Qed.

Lemma Sound_tick dt s : Sound s -> Sound (tick dt s).
Proof.
  intros Hsound. destruct (tick_other dt s) as (Hmo & Hcl & Hli & _ & _ & _ & _ & Hti).
  apply (Sound_same
           (set_timers (List.filter (fun t => negb (is_due (clock s + Z.max 0 dt) t))
                          (timers s)) s)).
  - by rewrite Hcl.
  - by rewrite Hli.
  - by rewrite Hti.
  - by rewrite Hmo.
  - by apply Sound_filter_timers.
Qed.

Lemma Sound_add_model m s :
  Sound s -> ~ In (m_uri m) (map m_uri (models s)) ->
  Sound (set_models (models s ++ [m]) s).
Proof.
  intros [H1 H2 H3 H4 H5 H6] Hnew. constructor; cbn; try assumption.
  - intros u id Hl. rewrite map_app. apply in_app_iff. left. by eapply H4.
  - rewrite map_app. apply NoDup_app. split; [assumption|]. split.
    + intros x Hx [->|[]%elem_of_nil]%elem_of_cons. by apply list_elem_of_In in Hx.
    + apply NoDup_singleton.
  - intros id c Hc Hsub. rewrite map_app. apply in_app_iff. left. by eapply H6.
Qed.

(** A document without listener in the registry is closed: the document
    drops the listeners it still has. *)
Lemma Sound_close u s :
  Sound s -> _listener s !! u = None ->
  Sound (set_models (List.filter (fun m => negb (has_uri u m)) (models s))
           (dropListeners u s)).
Proof.
  intros [H1 H2 H3 H4 H5 H6] Hfree.
  assert (Hkeep : forall u', u' <> u -> In u' (map m_uri (models s)) ->
                    In u' (map m_uri (List.filter (fun m => negb (has_uri u m))
                                        (models s)))).
  { intros u' Hne (m' & Hu' & Hin')%in_map_iff. apply in_map_iff. exists m'.
    split; [assumption|]. apply filter_In. split; [assumption|].
    apply negb_true_iff. destruct (has_uri u m') eqn:Hu; [|reflexivity].
    apply has_uri_true in Hu. congruence. }
  constructor;
    cbn [closures dropListeners set_closures set_models _listener timers models].
  - intros u' id Hl. destruct (H1 u' id Hl) as (c & Hc & Huri & Hsub).
    exists c. split; [|by split]. rewrite lookup_map, Hc. cbn. f_equal.
    replace (String.eqb (c_uri c) u) with false; [reflexivity|].
    symmetry. apply String.eqb_neq. intros Heq. congruence.
  - intros t Hin. destruct (H2 t Hin) as (id & c & Hc & Hh & Huri).
    exists id. eexists. split; [rewrite lookup_map, Hc; reflexivity|].
    by destruct (String.eqb (c_uri c) u).
  - assumption.
  - intros u' id Hl. apply Hkeep; [intros ->; congruence | by eapply H4].
  - by apply NoDup_map_filter.
  - intros id c'. rewrite lookup_map.
    destruct (closures s !! id) as [c|] eqn:Hc; [|discriminate].
    cbn. intros [= <-]. destruct (String.eqb_spec (c_uri c) u) as [Heq|Hne]; [discriminate|].
    intros Hsub. apply Hkeep; [assumption | by eapply H6].
Qed.

Lemma Sound_remove_all l s :
  Sound s -> Sound (foldl (fun s model => onModelRemoved _selector model s) s l).
Proof.
  revert s. induction l as [|m l IH]; intros s Hsound; [assumption|].
  cbn [foldl]. by apply IH, Sound_onModelRemoved.
Qed.

Lemma Sound_readd_all l s :
  Sound s -> (forall m, In m l -> In (m_uri m) (map m_uri (models s))) ->
  Sound (foldl (fun s model =>
                  onModelAdd _selector model (onModelRemoved _selector model s)) s l).
Proof.
  revert s. induction l as [|m l IH]; intros s Hsound Hopen; [assumption|].
  cbn [foldl]. apply IH.
  - apply Sound_readd; [assumption|]. apply Hopen. by left.
  - intros m' Hm'. destruct (readd_other m s) as (-> & _). apply Hopen. by right.
Qed.

Lemma Sound_add_all l s :
  Sound s -> (forall m, In m l -> In (m_uri m) (map m_uri (models s))) ->
  Sound (foldl (fun s model => onModelAdd _selector model s) s l).
Proof.
  revert s. induction l as [|m l IH]; intros s Hsound Hopen; [assumption|].
  cbn [foldl]. apply IH.
  - apply Sound_onModelAdd; [assumption|]. apply Hopen. by left.
  - intros m' Hm'. destruct (onModelAdd_other m s) as (-> & _). apply Hopen. by right.
Qed.

Lemma Sound_dispose s : Sound s -> Sound (dispose _selector s).
Proof.
  intros Hsound. unfold dispose.
  apply (Sound_same (foldl (fun s d => dispose_one _selector d s) s (_disposables s)));
    [reflexivity..|].
  generalize (_disposables s). intros l. revert s Hsound.
  induction l as [|d l IH]; intros s Hsound; [assumption|].
  cbn [foldl]. apply IH. destruct d; cbn [dispose_one];
    try (revert Hsound; apply Sound_same; reflexivity).
  by apply Sound_remove_all.
Qed.

Lemma Sound_new now ms :
  NoDup (map m_uri ms) -> Sound (DiagnostcsAdapter_new _selector now ms).
Proof.
  intros Hnd. unfold DiagnostcsAdapter_new. apply Sound_add_all.
  - constructor; cbn; try done. apply NoDup_nil_2.
  - intros m Hin. by apply in_map.
Qed.

(** The content listeners of a document, whatever their number. *)
Lemma fold_change_other ids s :
  let s' := foldl (fun s id => onDidChangeContent id s) s ids in
  hooks s' = hooks s /\ _disposables s' = _disposables s /\ _listener s' = _listener s
  /\ models s' = models s /\ clock s' = clock s /\ effects s' = effects s.
Proof.
  revert s. induction ids as [|id ids IH]; intros s; [by repeat split|].
  cbn [foldl]. cbv zeta.
  destruct (IH (onDidChangeContent id s)) as (-> & -> & -> & -> & -> & ->).
  apply onDidChangeContent_other.
Qed.

Lemma change_other u s :
  hooks (step _selector (ChangeContent u) s) = hooks s
  /\ _disposables (step _selector (ChangeContent u) s) = _disposables s
  /\ _listener (step _selector (ChangeContent u) s) = _listener s
  /\ map m_uri (models (step _selector (ChangeContent u) s)) = map m_uri (models s)
  /\ clock (step _selector (ChangeContent u) s) = clock s
  /\ effects (step _selector (ChangeContent u) s) = effects s.
Proof.
  cbn [step]. destruct (getModel s u); [|by repeat split].
  destruct (fold_change_other (subscribers u (bumpVersion u s)) (bumpVersion u s))
    as (-> & -> & -> & -> & -> & ->).
  repeat split.
  apply (map_uri_update (fun m => mkModelState (m_uri m) (m_modeId m) (m_version m + 1))).
  reflexivity.
Qed.

Lemma Sound_step e s :
  Sound s -> Handles s -> Hooked s -> Sound (step _selector e s).
Proof.
  intros Hsound Hs Hhooked. destruct e as [u mode|u|u mode| |u|dt|]; cbn [step].
  - destruct (getModel s u) eqn:Hget; [assumption|].
    apply getModel_None in Hget.
    set (model := mkModelState u mode 1).
    pose proof (Sound_add_model model s Hsound Hget) as Hsound1.
    set (s1 := set_models (models s ++ [model]) s) in *.
    assert (Hopen : In (m_uri model) (map m_uri (models s1))).
    { cbn. rewrite map_app. apply in_app_iff. right. by left. }
    set (s2 := if negb (String.eqb mode plaintext)
                  && has_hook D_onDidChangeModelLanguage s1
               then onModelAdd _selector model (onModelRemoved _selector model s1)
               else s1).
    assert (H2 : Sound s2 /\ models s2 = models s1).
    { subst s2. destruct (_ && _); [|by split].
      split; [by apply Sound_readd|]. by destruct (readd_other model s1) as (-> & _). }
    destruct H2 as [Hsound2 Hmodels2].
    destruct (has_hook D_onDidCreateModel s2); [|assumption].
    apply Sound_onModelAdd; [assumption|]. by rewrite Hmodels2.
  - destruct (getModel s u) as [model|] eqn:Hget; [|assumption].
    apply getModel_Some in Hget as [Hin Huri].
    destruct (has_hook D_onWillDisposeModel s) eqn:Hhook.
    + destruct (onModelRemoved_other model s) as (Hmo & _ & _ & _ & _ & _ & Hli).
      change (models (dropListeners u (onModelRemoved _selector model s)))
        with (models (onModelRemoved _selector model s)).
      apply Sound_close; [by apply Sound_onModelRemoved|].
      rewrite Hli, Huri. apply lookup_delete_eq.
    + destruct (no_hook_Hooked D_onWillDisposeModel s Hhooked) as (_ & _ & Hempty);
        [cbn; tauto | assumption |].
      change (models (dropListeners u s)) with (models s).
      apply Sound_close; [assumption|]. rewrite Hempty. apply lookup_empty.
  - destruct (getModel s u) as [model0|]; [|assumption].
    destruct (String.eqb (m_modeId model0) mode); [assumption|].
    assert (Hsound1 : Sound (setModeId u mode s)).
    { revert Hsound. apply Sound_same; try reflexivity.
      apply (map_uri_update (fun m => mkModelState (m_uri m) mode (m_version m))).
      reflexivity. }
    destruct (getModel (setModeId u mode s) u) as [model|] eqn:Hget; [|assumption].
    destruct (has_hook _ _); [|assumption].
    apply getModel_Some in Hget as [Hin Huri].
    apply Sound_readd; [assumption|]. by apply in_map.
  - destruct (has_hook _ _); [|assumption].
    apply Sound_readd_all; [assumption|]. intros m Hin. by apply in_map.
  - destruct (getModel s u); [|assumption].
    assert (Hfold : forall ids s', Sound s' -> Handles s' ->
                      Sound (foldl (fun s id => onDidChangeContent id s) s' ids)).
    { induction ids as [|id ids IH]; intros s' Hsound' Hs'; [assumption|].
      cbn [foldl]. apply IH; [by apply Sound_onDidChangeContent|].
      by apply Handles_onDidChangeContent. }
    apply Hfold.
    + revert Hsound. apply Sound_same; try reflexivity.
      apply (map_uri_update
               (fun m => mkModelState (m_uri m) (m_modeId m) (m_version m + 1))).
      reflexivity.
    + revert Hs. apply Handles_same; reflexivity.
  - by apply Sound_tick.
  - by apply Sound_dispose.
Qed.

(** The subscriptions of the adapter to the editor. *)
Lemma has_hook_nil d s : hooks s = [] -> has_hook d s = false.
Proof.
  intros Hh. unfold has_hook. rewrite Hh. apply bool_decide_eq_false_2, not_elem_of_nil.
Qed.

Lemma has_hook_four d s : hooks s = fourHooks -> In d fourHooks -> has_hook d s = true.
Proof.
  intros Hh Hin. unfold has_hook. rewrite Hh. apply bool_decide_eq_true_2.
  by apply list_elem_of_In.
Qed.

Lemma readd_all_other l s :
  let s' := foldl (fun s model =>
                     onModelAdd _selector model (onModelRemoved _selector model s)) s l in
  models s' = models s /\ hooks s' = hooks s /\ _disposables s' = _disposables s.
Proof.
  revert s. induction l as [|m l IH]; intros s; [done|].
  cbn [foldl]. cbv zeta.
  destruct (IH (onModelAdd _selector m (onModelRemoved _selector m s))) as (-> & -> & ->).
  apply readd_other.
Qed.

Lemma remove_all_other l s :
  let s' := foldl (fun s model => onModelRemoved _selector model s) s l in
  models s' = models s /\ hooks s' = hooks s /\ _disposables s' = _disposables s
  /\ (forall u, _listener s' !! u
                = if bool_decide (u ∈ map m_uri l) then None else _listener s !! u).
Proof.
  revert s. induction l as [|m l IH]; intros s.
  - cbn. repeat split.
  - cbn [foldl]. destruct (onModelRemoved_other m s) as (Hmo & _ & Hh & Hd & _ & _ & Hli).
    destruct (IH (onModelRemoved _selector m s)) as (Hmo' & Hh' & Hd' & Hli').
    cbn zeta. rewrite Hmo', Hh', Hd', Hmo, Hh, Hd. repeat split.
    intros u. rewrite Hli', Hli. cbn [map].
    destruct (decide (u ∈ map m_uri l)) as [Hin|Hnot].
    + rewrite !bool_decide_eq_true_2; [reflexivity | by apply elem_of_cons; right | assumption].
    + rewrite (bool_decide_eq_false_2 _ Hnot).
      destruct (decide (m_uri m = u)) as [<-|Hne].
      * rewrite bool_decide_eq_true_2 by (apply elem_of_cons; by left).
        apply lookup_delete_eq.
      * rewrite bool_decide_eq_false_2; [by apply lookup_delete_ne|].
        intros [?|?]%elem_of_cons; [congruence|contradiction].
Qed.

Lemma dispose_Hooked s :
  Hooked s ->
  (forall u id, _listener s !! u = Some id -> In u (map m_uri (models s))) ->
  hooks (dispose _selector s) = [] /\ _listener (dispose _selector s) = ∅.
Proof.
  intros [[Hon Hdis]|(Hoff & Hdis & Hempty)] Htracked.
  - unfold dispose. rewrite Hdis. cbn [foldl allDisposables dispose_one].
    set (s3 := set_hooks _ (set_hooks _ (set_hooks _ s))).
    assert (Hhooks3 : hooks s3 = [D_onDidChangeDefaults])
      by (subst s3; cbn [hooks set_hooks]; rewrite Hon; reflexivity).
    destruct (remove_all_other (models s3) s3) as (_ & Hhooks4 & _ & Hli4).
    set (s4 := foldl _ s3 (models s3)) in *.
    cbn [hooks set_hooks set_disposables _listener].
    rewrite Hhooks4, Hhooks3. split; [reflexivity|].
    apply map_eq. intros u. rewrite Hli4, lookup_empty.
    destruct (decide (u ∈ map m_uri (models s3))) as [Hin|Hnot].
    + by rewrite bool_decide_eq_true_2.
    + rewrite bool_decide_eq_false_2 by assumption.
      destruct (_listener s3 !! u) as [id|] eqn:Hl; [|reflexivity].
      exfalso. apply Hnot. apply list_elem_of_In. by apply (Htracked u id).
  - rewrite dispose_disposed by assumption. by split.
Qed.

(** What an event other than [dispose] leaves alone. *)
Lemma step_other e s :
  e <> Dispose ->
  hooks (step _selector e s) = hooks s
  /\ _disposables (step _selector e s) = _disposables s
  /\ (hooks s = [] -> _listener (step _selector e s) = _listener s).
Proof.
  intros Hne. destruct e as [u mode|u|u mode| |u|dt|]; [..|contradiction].
  - cbn [step]. destruct (getModel s u); [by repeat split|].
    set (model := mkModelState u mode 1). set (s1 := set_models _ s).
    set (s2 := if negb (String.eqb mode plaintext)
                  && has_hook D_onDidChangeModelLanguage s1
               then onModelAdd _selector model (onModelRemoved _selector model s1)
               else s1).
    assert (H2 : hooks s2 = hooks s /\ _disposables s2 = _disposables s
                 /\ (hooks s = [] -> _listener s2 = _listener s)).
    { subst s2. destruct (negb (String.eqb mode plaintext)); cbn [andb];
        [|by repeat split].
      destruct (has_hook D_onDidChangeModelLanguage s1) eqn:Hhook; [|by repeat split].
      destruct (readd_other model s1) as (_ & -> & ->).
      split; [reflexivity|]. split; [reflexivity|].
      intros Hnil. rewrite (has_hook_nil _ s1 Hnil) in Hhook. discriminate. }
    destruct H2 as (Hh2 & Hd2 & Hl2).
    destruct (has_hook D_onDidCreateModel s2) eqn:Hhook; [|by repeat split].
    destruct (onModelAdd_other model s2) as (_ & _ & _ & -> & -> & _).
    split; [assumption|]. split; [assumption|].
    intros Hnil. rewrite (has_hook_nil _ s2) in Hhook by (by rewrite Hh2). discriminate.
  - cbn [step]. destruct (getModel s u) as [model|]; [|by repeat split].
    set (s1 := if has_hook D_onWillDisposeModel s
               then onModelRemoved _selector model s else s).
    change (hooks s1 = hooks s /\ _disposables s1 = _disposables s
            /\ (hooks s = [] -> _listener s1 = _listener s)).
    subst s1. destruct (has_hook D_onWillDisposeModel s) eqn:Hhook; [|by repeat split].
    destruct (onModelRemoved_other model s) as (_ & _ & -> & -> & _).
    split; [reflexivity|]. split; [reflexivity|].
    intros Hnil. rewrite (has_hook_nil _ s Hnil) in Hhook. discriminate.
  - cbn [step]. destruct (getModel s u) as [model0|]; [|by repeat split].
    destruct (String.eqb (m_modeId model0) mode); [by repeat split|].
    destruct (getModel (setModeId u mode s) u) as [model|]; [|by repeat split].
    destruct (has_hook D_onDidChangeModelLanguage (setModeId u mode s)) eqn:Hhook;
      [|by repeat split].
    destruct (readd_other model (setModeId u mode s)) as (_ & -> & ->).
    split; [reflexivity|]. split; [reflexivity|].
    intros Hnil. rewrite (has_hook_nil _ (setModeId u mode s) Hnil) in Hhook. discriminate.
  - cbn [step]. destruct (has_hook D_onDidChangeDefaults s) eqn:Hhook; [|by repeat split].
    destruct (readd_all_other (models s) s) as (_ & -> & ->).
    split; [reflexivity|]. split; [reflexivity|].
    intros Hnil. rewrite (has_hook_nil _ s Hnil) in Hhook. discriminate.
  - destruct (change_other u s) as (-> & -> & -> & _). by repeat split.
  - cbn [step]. destruct (tick_other dt s) as (_ & _ & -> & _ & -> & -> & _).
    by repeat split.
Qed.

Lemma Hooked_step e s : Hooked s -> Sound s -> Hooked (step _selector e s).
Proof.
  intros Hhooked Hsound.
  assert (Hother : e <> Dispose -> Hooked (step _selector e s)).
  { intros Hne. destruct (step_other e s Hne) as (Hh & Hd & Hl). by apply (Hooked_same s). }
  destruct e; try (apply Hother; discriminate).
  cbn [step]. right.
  destruct (dispose_Hooked s Hhooked (sound_tracked s Hsound)) as [Hh Hl].
  split; [assumption|]. split; [reflexivity | assumption].
Qed.

(** Every state the adapter can be in. *)
Lemma run_sound events s :
  Sound s -> Handles s -> Hooked s ->
  Sound (run _selector events s) /\ Handles (run _selector events s)
  /\ Hooked (run _selector events s).
Proof.
  revert s. induction events as [|e events IH]; intros s Hsound Hs Hhooked;
    [split; [assumption | split; assumption]|].
  rewrite run_cons. apply IH;
    [by apply Sound_step | by apply Handles_step | by apply Hooked_step].
Qed.

Lemma reachable_sound s :
  reachable _selector s -> Sound s /\ Handles s /\ Hooked s.
Proof.
  intros (now & ms & events & Hnd & ->).
  apply run_sound; [by apply Sound_new | apply Handles_new|].
  by destruct (Inv_new now ms Hnd).
Qed.

(** ** The documents the adapter listens to *)

Lemma getModel_In s u m :
  NoDup (map m_uri (models s)) -> In m (models s) -> m_uri m = u -> getModel s u = Some m.
Proof.
  unfold getModel. intros Hnd Hin Huri.
  induction (models s) as [|m' ms IH]; [contradiction|].
  cbn [map] in Hnd. apply NoDup_cons_In in Hnd as [Hnot Hnd].
  cbn [List.filter]. destruct Hin as [->|Hin].
  - apply has_uri_true in Huri. rewrite Huri. reflexivity.
  - destruct (has_uri u m') eqn:Hu; [|by apply IH].
    apply has_uri_true in Hu. exfalso. apply Hnot. rewrite Hu, <- Huri. by apply in_map.
Qed.

Lemma getModel_setModeId u mode s :
  getModel (setModeId u mode s) u
  = (fun m => mkModelState (m_uri m) mode (m_version m)) <$> getModel s u.
Proof.
  unfold getModel, setModeId. cbn [models set_models].
  induction (models s) as [|m ms IH]; [reflexivity|].
  cbn [map List.filter]. destruct (has_uri u m) eqn:Hu.
  - assert (Hu' : has_uri u (mkModelState (m_uri m) mode (m_version m)) = true) by exact Hu.
    rewrite Hu'. reflexivity.
  - rewrite Hu. exact IH.
Qed.

Lemma onModelAdd_tracks m s u :
  is_Some (_listener (onModelAdd _selector m s) !! u)
  <-> is_Some (_listener s !! u) \/ (m_uri m = u /\ m_modeId m = _selector).
Proof.
  unfold onModelAdd. destruct (String.eqb_spec (m_modeId m) _selector) as [Heq|Hne]; cbn [negb].
  - cbv zeta. cbn [_doValidate add_effect set_listener set_closures _listener].
    rewrite lookup_insert_is_Some. split.
    + intros [Hu|[_ Hl]]; [by right | by left].
    + intros [Hl|[Hu _]]; [|by left].
      destruct (decide (m_uri m = u)); [by left | by right].
  - split; [by left|]. intros [Hl|[_ Hm]]; [assumption | contradiction].
Qed.

Lemma onModelRemoved_tracks m s u :
  is_Some (_listener (onModelRemoved _selector m s) !! u)
  <-> m_uri m <> u /\ is_Some (_listener s !! u).
Proof.
  destruct (onModelRemoved_other m s) as (_ & _ & _ & _ & _ & _ & ->).
  apply lookup_delete_is_Some.
Qed.

Lemma add_all_tracks l s u :
  is_Some (_listener (foldl (fun s model => onModelAdd _selector model s) s l) !! u)
  <-> is_Some (_listener s !! u)
      \/ (exists m, In m l /\ m_uri m = u /\ m_modeId m = _selector).
Proof.
  revert s. induction l as [|m l IH]; intros s; cbn [foldl].
  - split; [by left|]. by intros [Hl|(m & [] & _)].
  - rewrite IH, onModelAdd_tracks. split.
    + intros [[Hl|Hm]|(m' & Hin & Hm')].
      * by left.
      * right. exists m. split; [by left | assumption].
      * right. exists m'. split; [by right | assumption].
    + intros [Hl|(m' & [<-|Hin] & Hm')].
      * left. by left.
      * left. by right.
      * right. by exists m'.
Qed.

Lemma add_all_models l s :
  models (foldl (fun s model => onModelAdd _selector model s) s l) = models s.
Proof.
  revert s. induction l as [|m l IH]; intros s; [reflexivity|].
  cbn [foldl]. rewrite IH. by destruct (onModelAdd_other m s) as (-> & _).
Qed.

Lemma readd_all_tracks l s u :
  NoDup (map m_uri l) ->
  is_Some (_listener (foldl (fun s model =>
                               onModelAdd _selector model (onModelRemoved _selector model s))
                        s l) !! u)
  <-> (~ In u (map m_uri l) /\ is_Some (_listener s !! u))
      \/ (exists m, In m l /\ m_uri m = u /\ m_modeId m = _selector).
Proof.
  revert s. induction l as [|m l IH]; intros s Hnd; cbn [foldl].
  - split; [intros Hl; left; split; [intros [] | assumption]|].
    by intros [[_ Hl]|(m & [] & _)].
  - cbn [map] in Hnd. apply NoDup_cons_In in Hnd as [Hnot Hnd].
    rewrite (IH _ Hnd), onModelAdd_tracks, onModelRemoved_tracks. cbn [map]. split.
    + intros [[Hout [[Hne Hl]|Hm]]|(m' & Hin & Hm')].
      * left. split; [|assumption]. intros [Heq|Hin]; contradiction.
      * right. exists m. split; [by left | assumption].
      * right. exists m'. split; [by right | assumption].
    + intros [[Hout Hl]|(m' & [<-|Hin] & Hm')].
      * left. split; [intros Hin; apply Hout; by right|].
        left. split; [intros Heq; apply Hout; by left | assumption].
      * left. split; [|by right]. destruct Hm' as [<- _]. assumption.
      * right. by exists m'.
Qed.

Lemma Tracking_new now ms : Tracking _selector (DiagnostcsAdapter_new _selector now ms).
Proof.
  intros u. unfold DiagnostcsAdapter_new, ofLanguage.
  rewrite add_all_tracks, add_all_models. cbn [_listener models].
  rewrite lookup_empty. split.
  - intros [[x Hx]|Hm]; [discriminate | assumption].
  - intros Hm. by right.
Qed.

Lemma ofLanguage_models s s' u :
  models s' = models s -> ofLanguage _selector s' u <-> ofLanguage _selector s u.
Proof. unfold ofLanguage. by intros ->. Qed.

Lemma ofLanguage_update (f : ModelState -> ModelState) u s u' :
  (forall m, m_uri (f m) = m_uri m) ->
  (forall m, m_modeId (f m) = m_modeId m) ->
  ofLanguage _selector
    (set_models (map (fun m => if has_uri u m then f m else m) (models s)) s) u'
  <-> ofLanguage _selector s u'.
Proof.
  intros Huri Hmode. unfold ofLanguage. cbn [models set_models]. split.
  - intros (m' & (m & <- & Hin)%in_map_iff & Hu & Hm). exists m. split; [assumption|].
    destruct (has_uri u m); [by rewrite Huri in Hu; rewrite Hmode in Hm | by split].
  - intros (m & Hin & Hu & Hm).
    exists (if has_uri u m then f m else m). split.
    + apply in_map_iff. by exists m.
    + destruct (has_uri u m); [by rewrite Huri, Hmode | by split].
Qed.

(** Every event of the editor but [dispose] keeps the listeners of the
    registry on the open documents of the language. *)
Lemma Tracking_step e s :
  Sound s -> hooks s = fourHooks -> e <> Dispose ->
  Tracking _selector s -> Tracking _selector (step _selector e s).
Proof.
  intros Hsound Hh Hne Htrack. destruct e as [u mode|u|u mode| |u|dt|].
  - (* a document is created *)
    cbn [step]. destruct (getModel s u) as [m|] eqn:Hget; [assumption|].
    apply getModel_None in Hget.
    set (model := mkModelState u mode 1).
    set (s1 := set_models (models s ++ [model]) s).
    assert (Hnew : forall u', ofLanguage _selector s u' -> u <> u').
    { intros u' (m & Hin & Hu & _) ->. apply Hget. rewrite <- Hu. by apply in_map. }
    assert (Hof : forall u', ofLanguage _selector s1 u'
                             <-> ofLanguage _selector s u' \/ (u = u' /\ mode = _selector)).
    { intros u'. unfold ofLanguage. cbn [models set_models s1]. split.
      - intros (m & [Hin|[<-|[]]]%in_app_iff & Hm); [left; by exists m | by right].
      - intros [(m & Hin & Hm)|Hm].
        + exists m. split; [apply in_app_iff; by left | assumption].
        + exists model. split; [apply in_app_iff; right; by left | assumption]. }
    rewrite (has_hook_four D_onDidChangeModelLanguage s1 Hh) by (cbn; tauto).
    rewrite andb_true_r. destruct (negb (String.eqb mode plaintext)).
    + set (s2 := onModelAdd _selector model (onModelRemoved _selector model s1)).
      destruct (readd_other model s1) as (Hmo2 & Hh2 & _). fold s2 in Hmo2, Hh2.
      rewrite (has_hook_four D_onDidCreateModel s2) by (rewrite ?Hh2; cbn; tauto).
      intros u'.
      rewrite (ofLanguage_models s2) by (by destruct (onModelAdd_other model s2) as (-> & _)).
      rewrite (ofLanguage_models s1 s2 u' Hmo2), Hof.
      subst s2. rewrite !onModelAdd_tracks, onModelRemoved_tracks.
      change (_listener s1) with (_listener s). rewrite (Htrack u').
      cbn [m_uri m_modeId model]. split.
      * intros [[[_ H]|H]|H]; [by left | by right | by right].
      * intros [H|H]; [|by right]. left. left. split; [by apply Hnew | assumption].
    + rewrite (has_hook_four D_onDidCreateModel s1 Hh) by (cbn; tauto).
      intros u'.
      rewrite (ofLanguage_models s1) by (by destruct (onModelAdd_other model s1) as (-> & _)).
      rewrite Hof, onModelAdd_tracks.
      change (_listener s1) with (_listener s). by rewrite (Htrack u').
  - (* a document is disposed *)
    cbn [step]. destruct (getModel s u) as [model|] eqn:Hget; [|assumption].
    destruct (getModel_Some s u model Hget) as [Hin Huri].
    rewrite (has_hook_four D_onWillDisposeModel s Hh) by (cbn; tauto).
    destruct (onModelRemoved_other model s) as (Hmo & _ & _ & _ & _ & _ & Hli).
    intros u'.
    change (_listener (set_models _ (dropListeners u ?x))) with (_listener x).
    rewrite onModelRemoved_tracks, (Htrack u'), Huri.
    unfold ofLanguage. cbn [models set_models dropListeners set_closures]. rewrite Hmo. split.
    + intros (Hneq & m & Hm & Hu & Hmode). exists m. split; [|by split].
      apply filter_In. split; [assumption|]. apply negb_true_iff.
      destruct (has_uri u m) eqn:Hum; [|reflexivity].
      apply has_uri_true in Hum. congruence.
    + intros (m & [Hm Hf]%filter_In & Hu & Hmode). split.
      * intros <-. apply negb_true_iff in Hf.
        apply has_uri_true in Hu. congruence.
      * by exists m.
  - (* the language of a document changes *)
    cbn [step]. destruct (getModel s u) as [model|] eqn:Hget; [|assumption].
    destruct (String.eqb (m_modeId model) mode); [assumption|].
    destruct (getModel_Some s u model Hget) as [Hin Huri].
    set (s1 := setModeId u mode s).
    set (model' := mkModelState (m_uri model) mode (m_version model)).
    assert (Hget1 : getModel s1 u = Some model')
      by (unfold s1; rewrite getModel_setModeId, Hget; reflexivity).
    rewrite Hget1.
    rewrite (has_hook_four D_onDidChangeModelLanguage s1 Hh) by (cbn; tauto).
    intros u'. rewrite onModelAdd_tracks, onModelRemoved_tracks.
    change (_listener s1) with (_listener s). rewrite (Htrack u').
    cbn [m_uri m_modeId model']. rewrite Huri.
    unfold ofLanguage.
    destruct (onModelAdd_other model' (onModelRemoved _selector model' s1)) as (-> & _).
    destruct (onModelRemoved_other model' s1) as (-> & _).
    unfold s1, setModeId. cbn [models set_models]. split.
    + intros [(Hneq & m & Hm & Hu & Hmode)|[<- Hmode]].
      * exists m. split; [|by split]. apply in_map_iff. exists m. split; [|assumption].
        destruct (has_uri u m) eqn:Hum; [|reflexivity].
        apply has_uri_true in Hum. congruence.
      * exists model'. split; [|by split; [exact Huri|]].
        apply in_map_iff. exists model. split; [|assumption].
        apply has_uri_true in Huri. by rewrite Huri.
    + intros (m' & (m & <- & Hm)%in_map_iff & Hu & Hmode).
      destruct (has_uri u m) eqn:Hum.
      * right. apply has_uri_true in Hum. cbn in Hu, Hmode. split; congruence.
      * left. split; [|by exists m].
        intros <-. apply has_uri_true in Hu. congruence.
  - (* the defaults change *)
    cbn [step]. rewrite (has_hook_four D_onDidChangeDefaults s Hh) by (cbn; tauto).
    intros u'. rewrite readd_all_tracks by (by apply sound_models).
    rewrite (ofLanguage_models s)
      by (by destruct (readd_all_other (models s) s) as (-> & _)).
    split.
    + intros [[Hout [id Hl]]|Hm]; [|assumption].
      exfalso. apply Hout. by apply (sound_tracked s Hsound u' id).
    + intros Hm. by right.
  - (* the content of a document changes *)
    cbn [step]. destruct (getModel s u); [|assumption].
    destruct (fold_change_other (subscribers u (bumpVersion u s)) (bumpVersion u s))
      as (_ & _ & Hli & Hmo & _).
    intros u'. cbv zeta in Hli, Hmo. rewrite Hli, (ofLanguage_models _ _ u' Hmo).
    change (_listener (bumpVersion u s)) with (_listener s). rewrite (Htrack u').
    symmetry.
    apply (ofLanguage_update
             (fun m => mkModelState (m_uri m) (m_modeId m) (m_version m + 1)) u s);
      reflexivity.
  - (* time passes *)
    cbn [step]. destruct (tick_other dt s) as (Hmo & _ & Hli & _).
    intros u'. unfold ofLanguage. rewrite Hli, Hmo. apply Htrack.
  - contradiction.
Qed.

Lemma not_disposed_before e s :
  Hooked s -> _disposables (step _selector e s) <> [] ->
  hooks s = fourHooks /\ _disposables s <> [] /\ e <> Dispose.
Proof.
  intros Hhooked Hnot.
  assert (He : e <> Dispose) by (intros ->; by apply Hnot).
  destruct (step_other e s He) as (_ & Hd & _). rewrite Hd in Hnot.
  destruct Hhooked as [[Hh _]|(_ & Hdis & _)]; [by repeat split | contradiction].
Qed.

Lemma Tracking_run events s0 :
  Sound s0 -> Handles s0 -> Hooked s0 -> Tracking _selector s0 ->
  _disposables (run _selector events s0) <> [] ->
  Tracking _selector (run _selector events s0).
Proof.
  intros Hsound Hs Hhooked Htrack.
  induction events as [|e events IH] using rev_ind; [done|].
  rewrite run_app. cbn [run foldl]. intros Hnot.
  fold (run _selector events s0) in *.
  destruct (run_sound events s0 Hsound Hs Hhooked) as (Hsound' & _ & Hhooked').
  destruct (not_disposed_before e _ Hhooked' Hnot) as (Hh & Hd & He).
  apply Tracking_step; [assumption.. | by apply IH].
Qed.

(** Until [dispose], the registry has a listener for the open documents
    of the language of the adapter and for no other. *)
Lemma reachable_Tracking s :
  reachable _selector s -> _disposables s <> [] -> Tracking _selector s.
Proof.
  intros (now & ms & events & Hnd & ->).
  apply Tracking_run;
    [by apply Sound_new | apply Handles_new | by destruct (Inv_new now ms Hnd)
     | apply Tracking_new].
Qed.

(** ** The debounce *)

Lemma NoDup_map_same {A B} (f : A -> B) (l : list A) :
  NoDup (map f l) -> (forall x y, In x l -> In y l -> f x = f y) -> (length l <= 1)%nat.
Proof.
  destruct l as [|a [|b l]]; cbn [length]; [lia..|].
  intros Hnd Hsame. exfalso. cbn [map] in Hnd. apply NoDup_cons_In in Hnd as [Hnot _].
  apply Hnot. left. symmetry. apply Hsame; cbn; tauto.
Qed.

(** Without a second listener, the pending timers of a document belong to
    its listener in the registry. *)
Lemma pending_of_listener s u t :
  Core s -> In t (pending u s) ->
  exists id c, _listener s !! u = Some id /\ closures s !! id = Some c
               /\ c_handle c = Some (timer_id t).
Proof.
  intros Hcore [Hin Huri%String.eqb_eq]%filter_In.
  destruct (core_timers s Hcore t Hin) as (id & c & Hc & Hsub & Hh & Huri').
  exists id, c. split; [|by split].
  pose proof (core_subscribed s Hcore id c Hc Hsub) as Hl. by rewrite <- Huri', Huri in Hl.
Qed.

Lemma pending_untracked s u : Core s -> _listener s !! u = None -> pending u s = [].
Proof.
  intros Hcore Hl. destruct (pending u s) as [|t l] eqn:Hp; [reflexivity|].
  destruct (pending_of_listener s u t Hcore) as (id & _ & Hl' & _); [rewrite Hp; by left|].
  congruence.
Qed.

Lemma pending_at_most_one s u : Core s -> (length (pending u s) <= 1)%nat.
Proof.
  intros Hcore. apply (NoDup_map_same timer_id).
  - unfold pending. apply NoDup_map_filter. by apply core_nodup.
  - intros x y Hx Hy.
    destruct (pending_of_listener s u x Hcore Hx) as (id & c & Hl & Hc & Hh).
    destruct (pending_of_listener s u y Hcore Hy) as (id' & c' & Hl' & Hc' & Hh').
    rewrite Hl in Hl'. injection Hl' as <-. rewrite Hc in Hc'. injection Hc' as <-.
    congruence.
Qed.

(** Changes of a document without listener and the passing of time start
    no validation pass for it. *)
Lemma untracked_run u events :
  forall s,
    Forall (fun e => e = ChangeContent u \/ exists dt, e = Tick dt) events ->
    Core s -> _listener s !! u = None ->
    Core (run _selector events s)
    /\ _listener (run _selector events s) !! u = None
    /\ validations u (effects (run _selector events s)) = validations u (effects s).
Proof.
  induction events as [|e events IH]; intros s Hevents Hcore Hl;
    [split; [assumption | by split]|].
  apply Forall_cons in Hevents as [He Hevents]. rewrite run_cons.
  assert (Hstep : Core (step _selector e s)
                  /\ _listener (step _selector e s) !! u = None
                  /\ validations u (effects (step _selector e s))
                     = validations u (effects s)).
  { destruct He as [->|[dt ->]].
    - destruct (step_change_untracked s u Hcore Hl) as [-> | ->];
        [split; [assumption | by split] | split; [by apply Core_bumpVersion | by split]].
    - cbn [step]. split; [by apply Core_tick|].
      destruct (tick_other dt s) as (_ & _ & -> & _). split; [assumption|].
      rewrite validations_tick, (pending_untracked s u Hcore Hl). reflexivity. }
  destruct Hstep as (Hcore' & Hl' & Hval').
  destruct (IH _ Hevents Hcore' Hl') as (Hcore'' & Hl'' & Hval'').
  split; [assumption|]. split; [assumption|]. by rewrite Hval'', Hval'.
Qed.

Lemma burst_events u gaps q :
  Forall (fun e => e = ChangeContent u \/ exists dt, e = Tick dt) (burst u gaps ++ [Tick q]).
Proof.
  unfold burst. cbn [app]. apply Forall_cons. split; [by left|].
  induction gaps as [|g gaps IH]; cbn [flat_map app].
  - apply Forall_cons. split; [right; by exists q | apply Forall_nil_2].
  - apply Forall_cons. split; [right; by exists g|].
    apply Forall_cons. split; [by left | exact IH].
Qed.

(** C3, as amended: as long as no document of its language is created and
    the adapter is not disposed, for an open document of the language of
    the adapter N content changes with less than the quiet period of
    500 ms between consecutive changes start no validation pass while
    they arrive, and once a quiet period has passed after the last one
    exactly one pass has started, for the document as it is after the
    last change (N versions later); each change cancelled the pending
    timer and started a new one, and no timer of the document is pending
    afterwards. For an open document of another language no pass starts
    and no timer is pending. *)
Theorem debounce_coalesces s u m gaps q :
  steady _selector s ->
  _disposables s <> [] ->
  getModel s u = Some m ->
  Forall (fun g => 0 <= g < quietPeriod) gaps ->
  quietPeriod <= q ->
  let changes := S (length gaps) in
  let s1 := run _selector (burst u gaps) s in
  let s2 := step _selector (Tick q) s1 in
  (m_modeId m = _selector ->
   versionOf s1 u = Some (m_version m + Z.of_nat changes)
   /\ validations u (effects s1) = validations u (effects s)
   /\ (exists t, pending u s1 = [t] /\ timer_due t = clock s1 + quietPeriod)
   /\ validations u (effects s2)
      = Some (m_version m + Z.of_nat changes) :: validations u (effects s)
   /\ pending u s2 = [])
  /\ (m_modeId m <> _selector ->
      validations u (effects s2) = validations u (effects s)
      /\ pending u s2 = []).
Proof.
  intros Hsteady Hnot Hget Hgaps Hq changes s1 s2.
  pose proof (steady_Inv s Hsteady) as [Hcore _].
  pose proof (reachable_Tracking s (steady_reachable s Hsteady) Hnot u) as Htrack.
  destruct (getModel_Some s u m Hget) as [Hin Huri].
  split.
  - intros Hmode. destruct (proj2 Htrack) as [id Hl]; [by exists m|].
    destruct (change_arms u id s Hcore Hl) as (Hpending0 & Hclock0 & Heff0 & Hli0 & Hget0).
    set (s0 := step _selector (ChangeContent u) s) in *.
    destruct (burst_rearms u id gaps s0 (mkTimer (nextTimer s) (clock s + quietPeriod) u))
      as (Hcore1 & Hl1 & (t & Hpending1 & Hdue1) & Hval1 & Hver1).
    + by apply Core_step_change.
    + by rewrite Hli0.
    + assumption.
    + cbn [timer_due]. by rewrite Hclock0.
    + assumption.
    + change (run _selector (flat_map (fun g => [Tick g; ChangeContent u]) gaps) s0)
        with s1 in *.
      assert (Hver : versionOf s1 u = Some (m_version m + Z.of_nat changes)).
      { rewrite Hver1. unfold versionOf. rewrite Hget0, Hget. cbn. f_equal. lia. }
      split; [assumption|]. split; [by rewrite Hval1, Heff0|].
      split; [by exists t|].
      destruct (tick_long u q s1 t Hpending1) as (Hpending2 & Hval2); [lia|].
      split; [|assumption].
      change (step _selector (Tick q) s1) with (tick q s1) in s2. subst s2.
      rewrite Hval2. fold (versionOf s1 u). by rewrite Hver, Hval1, Heff0.
  - intros Hmode.
    assert (Hl : _listener s !! u = None).
    { destruct (_listener s !! u) as [id|] eqn:Hl; [|reflexivity].
      destruct (proj1 Htrack) as (m' & Hin' & Hu' & Hm'); [by exists id|].
      rewrite (getModel_In s u m' (core_models s Hcore) Hin' Hu') in Hget. congruence. }
    destruct (untracked_run u (burst u gaps ++ [Tick q]) s (burst_events u gaps q) Hcore Hl)
      as (Hcore2 & Hl2 & Hval2).
    rewrite run_app in Hcore2, Hl2, Hval2.
    change (run _selector [Tick q] (run _selector (burst u gaps) s)) with s2 in *.
    split; [assumption|]. by apply pending_untracked.
Qed.

(** ** dispose *)

Lemma dispose_twice s :
  dispose _selector (dispose _selector s) = dispose _selector s.
Proof. apply dispose_disposed. reflexivity. Qed.

End DiagnosticsProperties.

Lemma NoDup_two_documents :
  NoDup (map m_uri [ mkModelState "file:///a.ts" "typescript" 1;
                     mkModelState "file:///b.json" "json" 1 ]).
Proof.
  cbn [map m_uri]. apply NoDup_cons. split.
  - intros [Heq|[]%elem_of_nil]%elem_of_cons. discriminate Heq.
  - apply NoDup_singleton.
Defined.

Lemma editedState_steady : steady "typescript" editedState.
Proof.
  exists 0, [ mkModelState "file:///a.ts" "typescript" 1;
              mkModelState "file:///b.json" "json" 1 ],
         [ChangeContent "file:///a.ts"].
  split; [exact NoDup_two_documents|]. split; reflexivity.
Defined.

Lemma editedState_reachable : reachable "typescript" editedState.
Proof.
  exists 0, [ mkModelState "file:///a.ts" "typescript" 1;
              mkModelState "file:///b.json" "json" 1 ],
         [ChangeContent "file:///a.ts"].
  split; [exact NoDup_two_documents | reflexivity].
Defined.

Lemma debounce_coalesces_witness :
  ("typescript" = "typescript" ->
   versionOf (run "typescript" (burst "file:///a.ts" [100; 499; 0]) editedState)
     "file:///a.ts" = Some (2 + Z.of_nat 4)
   /\ validations "file:///a.ts"
        (effects (run "typescript" (burst "file:///a.ts" [100; 499; 0]) editedState))
      = validations "file:///a.ts" (effects editedState)
   /\ (exists t,
          pending "file:///a.ts"
            (run "typescript" (burst "file:///a.ts" [100; 499; 0]) editedState) = [t]
          /\ timer_due t
             = clock (run "typescript" (burst "file:///a.ts" [100; 499; 0]) editedState)
               + quietPeriod)
   /\ validations "file:///a.ts"
        (effects (step "typescript" (Tick 500)
                    (run "typescript" (burst "file:///a.ts" [100; 499; 0]) editedState)))
      = Some (2 + Z.of_nat 4) :: validations "file:///a.ts" (effects editedState)
   /\ pending "file:///a.ts"
        (step "typescript" (Tick 500)
           (run "typescript" (burst "file:///a.ts" [100; 499; 0]) editedState)) = [])
  /\ ("typescript" <> "typescript" ->
      validations "file:///a.ts"
        (effects (step "typescript" (Tick 500)
                    (run "typescript" (burst "file:///a.ts" [100; 499; 0]) editedState)))
      = validations "file:///a.ts" (effects editedState)
      /\ pending "file:///a.ts"
           (step "typescript" (Tick 500)
              (run "typescript" (burst "file:///a.ts" [100; 499; 0]) editedState)) = []).
Proof.
  apply (debounce_coalesces "typescript" editedState "file:///a.ts"
           (mkModelState "file:///a.ts" "typescript" 2) [100; 499; 0] 500).
  - exact editedState_steady.
  - vm_compute. discriminate.
  - vm_compute. reflexivity.
  - repeat constructor; unfold quietPeriod; lia.
  - unfold quietPeriod. lia.
Defined.

(** C3, the claim as written fails: the JSON document is open, and three
    changes of it with 100 ms between them, followed by a quiet period,
    start no validation pass for it (the claim says exactly one): the
    adapter for TypeScript does not listen to it. Nor does a pass start
    for the TypeScript document, which is still open, when the three
    changes come after [dispose]. *)
Theorem debounce_skips_other_languages :
  getModel editedState "file:///b.json" = Some (mkModelState "file:///b.json" "json" 1)
  /\ versionOf (run "typescript" (burst "file:///b.json" [100; 100]) editedState)
       "file:///b.json" = Some 4
  /\ validations "file:///b.json"
       (effects (step "typescript" (Tick 500)
                   (run "typescript" (burst "file:///b.json" [100; 100]) editedState)))
     = []
  /\ getModel (dispose "typescript" editedState) "file:///a.ts"
     = Some (mkModelState "file:///a.ts" "typescript" 2)
  /\ versionOf (run "typescript" (burst "file:///a.ts" [100; 100])
                  (dispose "typescript" editedState)) "file:///a.ts" = Some 5
  /\ validations "file:///a.ts"
       (effects (step "typescript" (Tick 500)
                   (run "typescript" (burst "file:///a.ts" [100; 100])
                      (dispose "typescript" editedState))))
     = validations "file:///a.ts" (effects (dispose "typescript" editedState)).
Proof. vm_compute. repeat split; reflexivity. Qed.

(** C9: the code at the failing input. In an editor without documents a
    TypeScript document is created and changed once: the adapter listens
    to it twice (the listener of the language change and the listener of
    the creation both ran [onModelAdd], and the registry keeps the second
    closure only), so that two timers are pending. [dispose] disposes of
    the listener in the registry and cancels its timer; the timer of the
    other closure is left pending, and when it fires a validation pass
    starts after [dispose]. A second [dispose] changes nothing. *)
Theorem dispose_leaves_timer_pending :
  subscribers "file:///c.ts" createdState = [0; 1]%nat
  /\ _listener createdState !! "file:///c.ts" = Some 1%nat
  /\ timers createdState
     = [mkTimer 0 500 "file:///c.ts"; mkTimer 1 500 "file:///c.ts"]
  /\ timers (dispose "typescript" createdState) = [mkTimer 0 500 "file:///c.ts"]
  /\ _listener (dispose "typescript" createdState) !! "file:///c.ts" = None
  /\ validations "file:///c.ts"
       (effects (step "typescript" (Tick 500) (dispose "typescript" createdState)))
     = Some 2 :: validations "file:///c.ts" (effects (dispose "typescript" createdState))
  /\ dispose "typescript" (dispose "typescript" createdState)
     = dispose "typescript" createdState.
Proof. vm_compute. repeat split; reflexivity. Qed.


(* ===================================================================== *)
(** * Further properties of the outline *)
(* ===================================================================== *)

Lemma outline_postorder_settled editor model m worker forest :
  editor (model_uri model) = Some m ->
  getNavigationBarItems worker (model_uri model) = Some forest ->
  forallb has_span forest = true ->
  settled (provideDocumentSymbols editor model worker)
  = Ok (Some (flat_map (flattenPostOrder m (model_uri model) None) forest)).
Proof.
  intros Hopen Hanswer Hspans.
  unfold provideDocumentSymbols, bind, call, lift. cbn [settled requests app].
  rewrite Hanswer. unfold documentSymbols_then.
  rewrite (forEach_app_flat_map _ (flattenPostOrder m (model_uri model) None)).
  - reflexivity.
  - rewrite forallb_forall in Hspans. apply Forall_forall. intros item Hin bucket.
    apply convert_postorder; [assumption|]. apply Hspans. by apply list_elem_of_In.
Qed.

(** A loop stops with the exception of the first element that throws. *)
Lemma forEach_throws {A B} (f : B -> A -> result B) (l : list A) :
  Forall (fun a => (forall b, exists b', f b a = Ok b') \/ (forall b, f b a = TypeError)) l ->
  Exists (fun a => forall b, f b a = TypeError) l ->
  forall b, forEach f l b = TypeError.
Proof.
  induction l as [|a l IH]; intros Hall Hex b.
  - by apply Exists_nil in Hex.
  - apply Forall_cons in Hall as [Ha Hall]. cbn [forEach].
    destruct Ha as [Hok|Hthrow].
    + destruct (Hok b) as [b' Hb']. rewrite Hb'. cbn [rbind].
      apply Exists_cons in Hex as [Hex|Hex].
      * rewrite Hex in Hb'. discriminate.
      * by apply IH.
    + by rewrite Hthrow.
Qed.

Lemma forallb_false_Exists {A} (p : A -> bool) (l : list A) :
  forallb p l = false -> Exists (fun a => p a = false) l.
Proof.
  induction l as [|a l IH]; [discriminate|]. cbn [forallb].
  destruct (p a) eqn:Hp; cbn [andb].
  - intros H. apply Exists_cons. right. by apply IH.
  - intros _. apply Exists_cons. by left.
Qed.

(** A node without a span, anywhere in a tree, makes [convert] throw. *)
Lemma convert_missing_span editor resource m item :
  editor resource = Some m ->
  has_span item = false ->
  forall bucket container, convert editor resource bucket item container = TypeError.
Proof.
  intros Hopen. induction item as [item IH] using NavigationBarItem_ind_children.
  destruct item as [text kind spans childItems]. unfold childrenOf in IH. cbn in IH.
  intros Hspan bucket container. cbn [has_span] in Hspan. cbn [convert].
  destruct spans as [|span0 spans]; [reflexivity|].
  cbn [head deref rbind]. rewrite (textSpanToRange_open _ _ m) by assumption.
  cbn [rbind]. cbn [andb] in Hspan.
  destruct childItems as [children|]; [|discriminate].
  destruct children as [|child children]; [discriminate|].
  change (0 <? Z.of_nat (length (child :: children))) with true. cbv iota.
  rewrite forEach_throws; [reflexivity| |].
  - rewrite Forall_forall in IH. apply Forall_forall. intros c Hc.
    destruct (has_span c) eqn:Hc'.
    + left. intros b. eexists. by apply (convert_postorder _ _ m).
    + right. intros b. by apply IH.
  - apply forallb_false_Exists in Hspan.
    rewrite Forall_forall in IH. apply Exists_exists in Hspan as (c & Hin & Hc).
    apply Exists_exists. exists c. split; [assumption|]. intros b. by apply IH.
Qed.

(** X1: the outline is all or nothing: when a node of the answer has no span,
    [provideDocumentSymbols] is rejected and no symbol of any other node
    is returned. *)
Theorem outline_rejects_missing_span editor model m worker forest :
  editor (model_uri model) = Some m ->
  getNavigationBarItems worker (model_uri model) = Some forest ->
  forallb has_span forest = false ->
  provideDocumentSymbols editor model worker
  = {| requests := [GetNavigationBarItems (model_uri model)]; settled := TypeError |}.
Proof.
  intros Hopen Hanswer Hspans.
  unfold provideDocumentSymbols, bind, call, lift. cbn [settled requests app].
  rewrite Hanswer. unfold documentSymbols_then.
  rewrite forEach_throws; [reflexivity| |].
  - apply Forall_forall. intros item _. destruct (has_span item) eqn:Hitem.
    + left. intros b. eexists. by apply (convert_postorder _ _ m).
    + right. intros b. by apply (convert_missing_span _ _ m).
  - apply forallb_false_Exists in Hspans. apply Exists_exists in Hspans as (item & Hin & Hitem).
    apply Exists_exists. exists item. split; [assumption|].
    intros b. by apply (convert_missing_span _ _ m).
Qed.

Lemma outline_rejects_missing_span_witness :
  provideDocumentSymbols (singleEditor exampleModel) exampleModel spanlessWorker
  = {| requests := [GetNavigationBarItems "file:///a.ts"]; settled := TypeError |}.
Proof.
  apply (outline_rejects_missing_span (singleEditor exampleModel) exampleModel exampleModel
           spanlessWorker [spanlessTree]); reflexivity.
Defined.

Lemma flattenPostOrder_length m resource item :
  forall container,
    length (flattenPostOrder m resource container item) = nodeCount item.
Proof.
  induction item as [item IH] using NavigationBarItem_ind_children.
  destruct item as [text kind spans childItems]. unfold childrenOf in IH. cbn in IH.
  intros container. cbn [flattenPostOrder nodeCount]. rewrite length_app. cbn [length].
  destruct childItems as [children|]; [|reflexivity].
  assert (Hsum : length (flat_map (flattenPostOrder m resource (Some text)) children)
                 = list_sum (map nodeCount children)).
  { induction children as [|c children IHc]; [reflexivity|].
    apply Forall_cons in IH as [Hc IH]. cbn [flat_map map list_sum].
    rewrite length_app, (Hc (Some text)), (IHc IH). reflexivity. }
  rewrite Hsum. lia.
Qed.

Lemma flattenPostOrder_uri m resource item :
  forall container sym,
    In sym (flattenPostOrder m resource container item) ->
    loc_uri (sym_location sym) = resource.
Proof.
  induction item as [item IH] using NavigationBarItem_ind_children.
  destruct item as [text kind spans childItems]. unfold childrenOf in IH. cbn in IH.
  intros container sym. cbn [flattenPostOrder].
  intros [Hin|[<-|[]]]%in_app_iff; [|reflexivity].
  destruct childItems as [children|]; [|contradiction].
  apply in_flat_map in Hin as (c & Hc & Hin).
  rewrite Forall_forall in IH. apply list_elem_of_In in Hc. by apply (IH c Hc (Some text)).
Qed.

(** X2: when the outline settles to a list, the list has exactly one symbol
    per node of the answer, and every symbol is located in the document
    of the request. *)
Theorem outline_one_symbol_per_node editor model m worker out :
  editor (model_uri model) = Some m ->
  settled (provideDocumentSymbols editor model worker) = Ok (Some out) ->
  exists forest,
    getNavigationBarItems worker (model_uri model) = Some forest
    /\ forallb has_span forest = true
    /\ length out = list_sum (map nodeCount forest)
    /\ (forall sym, In sym out -> loc_uri (sym_location sym) = model_uri model).
Proof.
  intros Hopen Hout.
  destruct (getNavigationBarItems worker (model_uri model)) as [forest|] eqn:Hanswer.
  - exists forest. split; [reflexivity|].
    destruct (forallb has_span forest) eqn:Hspans.
    + rewrite (outline_postorder_settled editor model m worker forest) in Hout by assumption.
      injection Hout as <-. split; [reflexivity|]. split.
      * clear. induction forest as [|item forest IH]; [reflexivity|].
        cbn [flat_map map list_sum]. rewrite length_app, flattenPostOrder_length.
        by rewrite IH.
      * intros sym (item & _ & Hin)%in_flat_map. by eapply flattenPostOrder_uri.
    + exfalso. revert Hout.
      unfold provideDocumentSymbols, bind, call, lift. cbn [settled requests app].
      rewrite Hanswer. unfold documentSymbols_then.
      rewrite forEach_throws; [discriminate| |].
      * apply Forall_forall. intros item _. destruct (has_span item) eqn:Hitem.
        -- left. intros b. eexists. by apply (convert_postorder _ _ m).
        -- right. intros b. by apply (convert_missing_span _ _ m).
      * apply forallb_false_Exists in Hspans.
        apply Exists_exists in Hspans as (item & Hin & Hitem).
        apply Exists_exists. exists item. split; [assumption|].
        intros b. by apply (convert_missing_span _ _ m).
  - exfalso. revert Hout.
    unfold provideDocumentSymbols, bind, call, lift. cbn [settled requests app].
    rewrite Hanswer. discriminate.
Qed.

Lemma outline_one_symbol_per_node_witness :
  exists forest,
    getNavigationBarItems outlineWorker (model_uri exampleModel) = Some forest
    /\ forallb has_span forest = true
    /\ length (flat_map (flattenPostOrder exampleModel "file:///a.ts" None) [exampleTree])
       = list_sum (map nodeCount forest)
    /\ (forall sym,
           In sym (flat_map (flattenPostOrder exampleModel "file:///a.ts" None) [exampleTree]) ->
           loc_uri (sym_location sym) = model_uri exampleModel).
Proof.
  apply (outline_one_symbol_per_node (singleEditor exampleModel) exampleModel exampleModel
           outlineWorker).
  - reflexivity.
  - vm_compute. reflexivity.
Defined.

(* ===================================================================== *)
(** * Further properties of the completion list and of the resolution *)
(* ===================================================================== *)

(** X3: the merged list keeps the order of the service: the names of the
    direct entries that are not excluded, in their order, then the names
    of the symbols of the search that pass the filter, in their order. *)
Theorem completion_names_in_service_order editor model position worker out :
  settled (provideCompletionItems editor model position worker) = Ok (Some out) ->
  exists m info,
    editor (model_uri model) = Some m
    /\ getCompletionsAtPosition worker (model_uri model) (getOffsetAt m position) = Some info
    /\ map name out
       = map ce_name
           (List.filter (fun entry => negb (excluded (ce_name entry))) (entries info))
         ++ map nt_name
              (List.filter (keepNavigateTo (completionContext model position))
                 (default [] (getNavigateToItems worker
                                (word (getWordUntilPosition model position))))).
Proof.
  intros (m & info & Hopen & Hinfo & ->)%provideCompletionItems_settled.
  exists m, info. split; [assumption|]. split; [assumption|].
  unfold directCandidates, fuzzyCandidates. rewrite map_app, !map_map. reflexivity.
Qed.

Lemma completion_names_in_service_order_witness :
  exists m info,
    singleEditor qualifiedModel (model_uri qualifiedModel) = Some m
    /\ getCompletionsAtPosition suggestWorker (model_uri qualifiedModel)
         (getOffsetAt m cursor) = Some info
    /\ map name
         (directCandidates (completionContext qualifiedModel cursor) directAnswer
          ++ fuzzyCandidates (completionContext qualifiedModel cursor)
               (getNavigateToItems suggestWorker "cd"))
       = map ce_name
           (List.filter (fun entry => negb (excluded (ce_name entry))) (entries info))
         ++ map nt_name
              (List.filter (keepNavigateTo (completionContext qualifiedModel cursor))
                 (default [] (getNavigateToItems suggestWorker
                                (word (getWordUntilPosition qualifiedModel cursor))))).
Proof.
  apply (completion_names_in_service_order (singleEditor qualifiedModel) qualifiedModel
           cursor suggestWorker).
  vm_compute. reflexivity.
Defined.

Lemma convertKind_function : convertKind Kind.function = CIK_Function.
Proof. reflexivity. Qed.

(** X4: every candidate that comes from the symbol search is shown as a
    function; its insert text is its filter text: the name of the symbol
    after the word before the cursor word and a dot when that word is not
    empty, else after the container of the symbol and a dot when the
    symbol has one, else the bare name. Its label is the name after the
    container and a dot, or the bare name. *)
Theorem fuzzy_candidate_texts editor model position worker out c item :
  settled (provideCompletionItems editor model position worker) = Ok (Some out) ->
  In c out ->
  navigation c = Some item ->
  let prevWord := word (ctx_prevWordInfo (completionContext model position)) in
  let container := nt_containerName item in
  let text :=
    (if JS.truthy prevWord then prevWord +:+ "."
     else if JS.truthy container then container +:+ "." else "") +:+ nt_name item in
  kind c = CIK_Function
  /\ insertText c = Some (SnippetValue text)
  /\ filterText c = Some text
  /\ sortText c = Some (nt_name item)
  /\ label c = (if JS.truthy container then container +:+ "." +:+ nt_name item
                else nt_name item).
Proof.
  intros (m & info & Hopen & Hinfo & ->)%provideCompletionItems_settled Hin Hnav.
  apply in_app_iff in Hin as [Hc|Hc].
  - apply direct_has_entry in Hc as (entry & _ & _ & ->). discriminate Hnav.
  - apply fuzzy_has_navigation in Hc as (item' & _ & Hkeep & ->).
    cbn [navigation navigateToCandidate] in Hnav. injection Hnav as ->.
    apply keepNavigateTo_true in Hkeep as (Hkind & _ & _).
    cbn zeta. cbn [kind insertText filterText sortText label navigateToCandidate].
    rewrite Hkind, convertKind_function. repeat split; reflexivity.
Qed.

Lemma fuzzy_candidate_texts_witness :
  let ctx := completionContext qualifiedModel cursor in
  let out := directCandidates ctx directAnswer
             ++ fuzzyCandidates ctx (getNavigateToItems suggestWorker "cd") in
  kind (navigateToCandidate ctx cdShow) = CIK_Function
  /\ insertText (navigateToCandidate ctx cdShow) = Some (SnippetValue "ab.cdShow")
  /\ filterText (navigateToCandidate ctx cdShow) = Some "ab.cdShow"
  /\ sortText (navigateToCandidate ctx cdShow) = Some "cdShow"
  /\ label (navigateToCandidate ctx cdShow) = "basic.cdShow".
Proof.
  intros ctx out.
  apply (fuzzy_candidate_texts (singleEditor qualifiedModel) qualifiedModel cursor
           suggestWorker out (navigateToCandidate ctx cdShow) cdShow).
  - vm_compute. reflexivity.
  - vm_compute. right. left. reflexivity.
  - reflexivity.
Defined.

Section ResolutionFurther.

Variable displayPartsToString : DisplayParts -> string.

Lemma resolve_unfold editor item worker m :
  editor (uri item) = Some m ->
  resolveCompletionItem displayPartsToString editor item worker
  = match head (List.filter (fun snippet => String.eqb (prefix snippet) (label item))
                  typescriptSnippets) with
    | Some entry => {| requests := []; settled := Ok (fillSnippet item entry) |}
    | None =>
        let '(fileName, offset) := resolveTarget m item in
        {| requests := [ GetCompletionEntryDetailsAndSnippet fileName offset
                           (name item) (label item) ];
           settled :=
             Ok (resolve_then displayPartsToString item
                   (getCompletionEntryDetailsAndSnippet worker fileName offset
                      (name item) (label item))) |}
    end.
Proof.
  intros Hopen. unfold resolveCompletionItem, resolveTarget.
  destruct (head _) as [entry|]; [reflexivity|].
  destruct (navigation item) as [nav|].
  - reflexivity.
  - unfold bind, call, ret, lift.
    rewrite (positionToOffset_open _ _ m) by assumption. reflexivity.
Qed.

(** X5: resolving a candidate again, with the same worker, sends the same
    request and changes nothing more: the resolution is idempotent. *)
Theorem resolve_idempotent editor item worker m item1 :
  editor (uri item) = Some m ->
  settled (resolveCompletionItem displayPartsToString editor item worker) = Ok item1 ->
  resolveCompletionItem displayPartsToString editor item1 worker
  = {| requests := requests (resolveCompletionItem displayPartsToString editor item worker);
       settled := Ok item1 |}.
Proof.
  intros Hopen. rewrite (resolve_unfold editor item worker m Hopen).
  destruct (head (List.filter (fun snippet => String.eqb (prefix snippet) (label item))
                    typescriptSnippets)) as [entry|] eqn:Hentry.
  - cbn [settled requests]. intros [= <-].
    rewrite (resolve_unfold editor (fillSnippet item entry) worker m Hopen).
    cbn [label fillSnippet]. rewrite Hentry. reflexivity.
  - unfold resolveTarget.
    destruct (navigation item) as [nav|] eqn:Hnav; cbn [settled requests].
    + remember (getCompletionEntryDetailsAndSnippet worker (nt_fileName nav)
                  (span_start (nt_textSpan nav)) (name item) (label item)) as answer eqn:Hans.
      intros [= <-].
      destruct answer as [[[details|] codeSnippet]|]; cbn [resolve_then];
        (rewrite (resolve_unfold editor _ worker m) by exact Hopen);
        cbn [label name navigation uri position fillDetails];
        rewrite Hentry; unfold resolveTarget;
        cbn [label name navigation uri position fillDetails];
        rewrite Hnav, <- Hans; reflexivity.
    + remember (getCompletionEntryDetailsAndSnippet worker (uri item)
                  (getOffsetAt m (position item)) (name item) (label item)) as answer eqn:Hans.
      intros [= <-].
      destruct answer as [[[details|] codeSnippet]|]; cbn [resolve_then];
        (rewrite (resolve_unfold editor _ worker m) by exact Hopen);
        cbn [label name navigation uri position fillDetails];
        rewrite Hentry; unfold resolveTarget;
        cbn [label name navigation uri position fillDetails];
        rewrite Hnav, <- Hans; reflexivity.
Qed.

(** X6: a candidate of the completion list that is not a snippet and whose
    details the worker knows is resolved to the code snippet of the worker
    as insert text, unless something other than white space follows the
    cursor on its line: then its insert text is [null]. Label and range
    stay as they were. *)
Theorem resolved_snippet_suppressed editor model position worker out c worker' details
    codeSnippet :
  settled (provideCompletionItems editor model position worker) = Ok (Some out) ->
  In c out ->
  ~ In (label c) ["for"; "if"; "while"] ->
  (forall m, editor (model_uri model) = Some m ->
     getCompletionEntryDetailsAndSnippet worker' (resolveTarget m c).1 (resolveTarget m c).2
       (name c) (label c) = Some (Some details, codeSnippet)) ->
  let lineContentAfter :=
    JS.substr_from (getLineContent model (lineNumber position)) (column position - 1) in
  exists c',
    settled (resolveCompletionItem displayPartsToString editor c worker') = Ok c'
    /\ insertText c'
       = Some (if JS.trim_nonempty lineContentAfter then InsertNull
               else SnippetValue codeSnippet)
    /\ label c' = label c
    /\ range c' = range c.
Proof.
  intros (m & info & Hopen & Hinfo & ->)%provideCompletionItems_settled Hin Hlabel Hanswer after.
  specialize (Hanswer m Hopen).
  assert (Hc : uri c = model_uri model
               /\ skipCodeSnippet c = JS.trim_nonempty after).
  { apply in_app_iff in Hin as [Hc|Hc].
    - apply direct_has_entry in Hc as (entry & _ & _ & ->). by split.
    - apply fuzzy_has_navigation in Hc as (item & _ & _ & ->). by split. }
  destruct Hc as [Huri Hskip].
  rewrite (resolve_unfold editor c worker' m) by (by rewrite Huri).
  rewrite snippet_lookup_miss by assumption. cbn [head].
  destruct (resolveTarget m c) as [fileName offset]. cbn [fst snd] in Hanswer.
  rewrite Hanswer. cbn [settled resolve_then].
  eexists. split; [reflexivity|]. cbn [insertText label range fillDetails].
  rewrite Hskip. by destruct (JS.trim_nonempty after).
Qed.

End ResolutionFurther.

Lemma resolve_idempotent_witness :
  exists item1,
    settled (resolveCompletionItem joinParts (singleEditor qualifiedModel) cdataCandidate
               detailsWorker) = Ok item1
    /\ detail item1 = Some "var cdata: number"
    /\ resolveCompletionItem joinParts (singleEditor qualifiedModel) item1 detailsWorker
       = {| requests := [ GetCompletionEntryDetailsAndSnippet "file:///a.ts" 5 "cdata" "cdata" ];
            settled := Ok item1 |}.
Proof.
  eexists. split; [vm_compute; reflexivity|]. split; [reflexivity|].
  apply (resolve_idempotent joinParts (singleEditor qualifiedModel) cdataCandidate
           detailsWorker qualifiedModel).
  - reflexivity.
  - vm_compute. reflexivity.
Defined.

Lemma resolved_snippet_suppressed_witness :
  exists c',
    settled (resolveCompletionItem joinParts (singleEditor midLineModel) midLineCandidate
               detailsWorker) = Ok c'
    /\ insertText c'
       = Some (if JS.trim_nonempty
                    (JS.substr_from (getLineContent midLineModel (lineNumber cursor))
                       (column cursor - 1))
               then InsertNull else SnippetValue "cdata()")
    /\ label c' = label midLineCandidate
    /\ range c' = range midLineCandidate.
Proof.
  apply (resolved_snippet_suppressed joinParts (singleEditor midLineModel) midLineModel cursor
           detailsWorker
           (directCandidates (completionContext midLineModel cursor) directAnswer
            ++ fuzzyCandidates (completionContext midLineModel cursor) None)
           midLineCandidate detailsWorker cdataDetails "cdata()").
  - vm_compute. reflexivity.
  - vm_compute. left. reflexivity.
  - vm_compute. intros [H|[H|[H|[]]]]; discriminate H.
  - intros m _. reflexivity.
Defined.

(* ===================================================================== *)
(** * Further properties of the hover *)
(* ===================================================================== *)

Lemma narrowToArgument_slot_witness :
  exists argument m,
    at_index (JS.split "," "ab,cd") 1 = Some argument
    /\ String.substring (Z.to_nat (5 - 2)) (Z.to_nat 2) "ab,cd" = argument
    /\ narrowToArgument pairModel pairSignature
       = Ok {| span_start := 2 + Z.of_nat m; span_length := 2 |}
    /\ String.substring m (Z.to_nat 2) "ab,cd" = argument
    /\ (forall p, (p < m)%nat -> String.substring p (Z.to_nat 2) "ab,cd" <> argument)
    /\ 2 + Z.of_nat m <= 5
    /\ ((forall p, 2 + Z.of_nat p < 5 ->
                   String.substring p (Z.to_nat 2) "ab,cd" <> argument) ->
        2 + Z.of_nat m = 5).
Proof.
  apply (narrowToArgument_slot pairModel pairSignature (mkSpan 5 2)).
  - reflexivity.
  - reflexivity.
Defined.

Section HoverFurther.

Variable displayPartsToString : DisplayParts -> string.

(** X8: with quick info and completion details both present, the hover has
    the span of the quick info and the documentation of the details, or
    the display text of the quick info when that documentation is empty,
    whatever the signature help says. *)
Theorem hover_prefers_completion_details editor model m info signature completion :
  editor (model_uri model) = Some m ->
  let documentation := displayPartsToString (det_documentation completion) in
  hover_then displayPartsToString editor model (Some (Some info, signature, Some completion))
  = Ok (Some {| hover_range := spanRange m (qi_textSpan info);
                hover_contents :=
                  [ if JS.truthy documentation then documentation
                    else displayPartsToString (qi_displayParts info) ] |}).
Proof.
  intros Hopen documentation. unfold hover_then.
  rewrite (textSpanToRange_open _ _ m) by assumption. cbn [rbind]. unfold textOr.
  fold documentation. by destruct (JS.truthy documentation).
Qed.

(** X9: when the signature help applies and its argument index names no
    parameter of the first signature (more arguments than parameters),
    the hover is rejected with a TypeError instead of settling. *)
Theorem hover_rejects_missing_parameter editor model info sig item0 rest completion :
  (info = None \/ completion = None) ->
  items sig = item0 :: rest ->
  parameters item0 <> [] ->
  at_index (parameters item0) (argumentIndex sig) = None ->
  hover_then displayPartsToString editor model (Some (info, Some sig, completion))
  = TypeError.
Proof.
  intros Hpair Hitems Hparams Hat. unfold hover_then. rewrite Hitems. cbn [head].
  destruct (parameters item0) as [|p ps] eqn:Hps; [contradiction|].
  change (0 <? Z.of_nat (length (p :: ps))) with true. cbv iota. rewrite Hat.
  destruct Hpair as [-> | ->]; [|destruct info]; reflexivity.
Qed.

(** X10: when the signature help applies with at most one argument, the hover
    covers the whole applicable span and shows the documentation of the
    active parameter, or its display text when the documentation is
    empty. *)
Theorem hover_single_argument editor model m info sig item0 rest completion parameter :
  editor (model_uri model) = Some m ->
  (info = None \/ completion = None) ->
  items sig = item0 :: rest ->
  at_index (parameters item0) (argumentIndex sig) = Some parameter ->
  argumentCount sig <= 1 ->
  let documentation := displayPartsToString (par_documentation parameter) in
  hover_then displayPartsToString editor model (Some (info, Some sig, completion))
  = Ok (Some {| hover_range := spanRange m (applicableSpan sig);
                hover_contents :=
                  [ if JS.truthy documentation then documentation
                    else displayPartsToString (par_displayParts parameter) ] |}).
Proof.
  intros Hopen Hpair Hitems Hat Hcount documentation. unfold hover_then.
  rewrite Hitems. cbn [head].
  destruct (parameters item0) as [|p ps] eqn:Hps.
  { unfold at_index in Hat. destruct (argumentIndex sig <? 0); [discriminate|].
    by rewrite lookup_nil in Hat. }
  change (0 <? Z.of_nat (length (p :: ps))) with true. cbv iota. rewrite Hat.
  cbn [deref rbind]. unfold narrowToArgument.
  replace (1 <? argumentCount sig) with false by (symmetry; apply Z.ltb_ge; lia).
  cbn [rbind]. rewrite (textSpanToRange_open _ _ m) by assumption. cbn [rbind].
  unfold textOr. fold documentation.
  destruct Hpair as [-> | ->]; [|destruct info]; by destruct (JS.truthy documentation).
Qed.

End HoverFurther.

Lemma hover_prefers_completion_details_witness :
  hover_then joinParts (singleEditor callModel) callModel
    (Some (Some fooInfo, Some fooSignature, Some fooDetails))
  = Ok (Some {| hover_range := mkRange 1 1 1 4; hover_contents := ["Does foo."] |}).
Proof.
  apply (hover_prefers_completion_details joinParts (singleEditor callModel) callModel
           callModel fooInfo (Some fooSignature) fooDetails).
  reflexivity.
Defined.

Lemma hover_rejects_missing_parameter_witness :
  hover_then joinParts (singleEditor pairModel) pairModel (Some (None, Some tripleSignature, None))
  = TypeError.
Proof.
  apply (hover_rejects_missing_parameter joinParts (singleEditor pairModel) pairModel None
           tripleSignature
           {| parameters :=
                [ {| par_documentation := None;
                     par_displayParts := Some [mkPart "a: number" "text"] |};
                  {| par_documentation := None;
                     par_displayParts := Some [mkPart "b: number" "text"] |} ] |} [] None).
  - by left.
  - reflexivity.
  - discriminate.
  - reflexivity.
Defined.

Lemma hover_single_argument_witness :
  hover_then joinParts (singleEditor pairModel) pairModel (Some (None, Some singleSignature, None))
  = Ok (Some {| hover_range := mkRange 1 3 1 5; hover_contents := ["a: number"] |}).
Proof.
  apply (hover_single_argument joinParts (singleEditor pairModel) pairModel pairModel None
           singleSignature
           {| parameters :=
                [ {| par_documentation := None;
                     par_displayParts := Some [mkPart "a: number" "text"] |};
                  {| par_documentation := None;
                     par_displayParts := Some [mkPart "b: number" "text"] |} ] |} [] None
           {| par_documentation := None;
              par_displayParts := Some [mkPart "a: number" "text"] |}).
  - reflexivity.
  - by left.
  - reflexivity.
  - reflexivity.
  - vm_compute. discriminate.
Defined.

(* ===================================================================== *)
(** * Properties of a validation pass *)
(* ===================================================================== *)

Lemma mapM_ok {A B} (f : A -> result B) (g : A -> B) (l : list A) :
  (forall a, In a l -> f a = Ok (g a)) -> mapM f l = Ok (map g l).
Proof.
  induction l as [|a l IH]; intros Hf; [reflexivity|].
  cbn [mapM map]. rewrite (Hf a) by (by left). cbn [rbind].
  rewrite IH by (intros a' Ha'; apply Hf; by right). reflexivity.
Qed.

Lemma offsetToPosition_open editor resource m offset :
  editor resource = Some m ->
  _offsetToPosition editor resource offset = Ok (getPositionAt m offset).
Proof. intros Hopen. unfold _offsetToPosition. rewrite Hopen. reflexivity. Qed.

Section ValidationProperties.

Variable flattenDiagnosticMessageText : MessageText -> string -> string.

Lemma convertDiagnostics_open editor resource m diag :
  editor resource = Some m ->
  _convertDiagnostics flattenDiagnosticMessageText editor resource diag
  = Ok (markerOf flattenDiagnosticMessageText m diag).
Proof.
  intros Hopen. unfold _convertDiagnostics.
  rewrite !(offsetToPosition_open _ _ m) by assumption. reflexivity.
Qed.

(** X11: a pass for a document that is closed when the worker is there asks
    for nothing, and a pass for a document that is closed by then or when
    the answers arrive publishes nothing, whatever the answers are. *)
Theorem validation_of_closed_document editor1 editor2 options resource worker :
  editor1 resource = None \/ editor2 resource = None ->
  (_doValidate_async flattenDiagnosticMessageText editor1 editor2 options resource worker).2
  = Ok None
  /\ (editor1 resource = None ->
      (_doValidate_async flattenDiagnosticMessageText editor1 editor2 options resource worker).1
      = []).
Proof.
  intros Hclosed. unfold _doValidate_async, validate_request. split.
  - destruct (editor1 resource) as [m1|]; [|reflexivity].
    destruct Hclosed as [Hc|Hc]; [discriminate|].
    cbn [snd]. unfold validate_publish. by rewrite Hc.
  - intros ->. reflexivity.
Qed.

(** X12: a pass for a document that stays open always publishes (it never
    throws), one marker of severity Error per diagnostic: the markers of
    the semantic diagnostics first, then those of the syntactic ones,
    each with the range of its diagnostic; a kind of diagnostics that the
    options switch off is not asked for and adds no marker, so that with
    both switched off the empty list is published. *)
Theorem validation_publishes_markers editor1 editor2 m1 m2 options resource worker :
  editor1 resource = Some m1 ->
  editor2 resource = Some m2 ->
  let markers :=
    map (markerOf flattenDiagnosticMessageText m2)
        (semanticOf options worker resource ++ syntacticOf options worker resource) in
  _doValidate_async flattenDiagnosticMessageText editor1 editor2 options resource worker
  = ((if noSyntaxValidation options then [] else [GetSyntacticDiagnostics resource])
     ++ (if noSemanticValidation options then [] else [GetSemanticDiagnostics resource]),
     Ok (Some markers))
  /\ Forall (fun marker => marker_severity marker = Severity_Error) markers
  /\ length markers
     = (length (semanticOf options worker resource)
        + length (syntacticOf options worker resource))%nat.
Proof.
  intros Hopen1 Hopen2 markers. split; [|split].
  - unfold _doValidate_async, validate_request. rewrite Hopen1.
    unfold validate_publish. rewrite Hopen2. subst markers.
    unfold semanticOf, syntacticOf.
    destruct (noSyntaxValidation options), (noSemanticValidation options);
      cbn [negb app map fst snd fold_left];
      rewrite ?app_nil_r;
      (rewrite (mapM_ok _ (markerOf flattenDiagnosticMessageText m2))
        by (intros; by apply convertDiagnostics_open));
      reflexivity.
  - subst markers. apply Forall_forall. intros marker Hin.
    apply list_elem_of_In, in_map_iff in Hin as (diag & <- & _). reflexivity.
  - subst markers. by rewrite length_map, length_app.
Qed.

End ValidationProperties.

Lemma validation_of_closed_document_witness :
  (_doValidate_async messageTextOf (singleEditor qualifiedModel) (fun _ => None)
     (mkOptions false false) "file:///a.ts" exampleDiagnosticsWorker).2
  = Ok None
  /\ ((singleEditor qualifiedModel) "file:///a.ts" = None ->
      (_doValidate_async messageTextOf (singleEditor qualifiedModel) (fun _ => None)
         (mkOptions false false) "file:///a.ts" exampleDiagnosticsWorker).1
      = []).
Proof.
  apply (validation_of_closed_document messageTextOf (singleEditor qualifiedModel)
           (fun _ => None) (mkOptions false false) "file:///a.ts" exampleDiagnosticsWorker).
  by right.
Defined.

Lemma validation_publishes_markers_witness :
  map marker_message
    (map (markerOf messageTextOf qualifiedModel)
       (semanticOf (mkOptions false false) exampleDiagnosticsWorker "file:///a.ts"
        ++ syntacticOf (mkOptions false false) exampleDiagnosticsWorker "file:///a.ts"))
  = ["Cannot find name 'cd'."; "';' expected."]
  /\ (let markers :=
        map (markerOf messageTextOf qualifiedModel)
          (semanticOf (mkOptions false false) exampleDiagnosticsWorker "file:///a.ts"
           ++ syntacticOf (mkOptions false false) exampleDiagnosticsWorker "file:///a.ts") in
      _doValidate_async messageTextOf (singleEditor qualifiedModel)
        (singleEditor qualifiedModel) (mkOptions false false) "file:///a.ts"
        exampleDiagnosticsWorker
      = ((if noSyntaxValidation (mkOptions false false) then []
          else [GetSyntacticDiagnostics "file:///a.ts"])
         ++ (if noSemanticValidation (mkOptions false false) then []
             else [GetSemanticDiagnostics "file:///a.ts"]),
         Ok (Some markers))
      /\ Forall (fun marker => marker_severity marker = Severity_Error) markers
      /\ length markers
         = (length (semanticOf (mkOptions false false) exampleDiagnosticsWorker "file:///a.ts")
            + length (syntacticOf (mkOptions false false) exampleDiagnosticsWorker
                        "file:///a.ts"))%nat).
Proof.
  split; [reflexivity|].
  apply (validation_publishes_markers messageTextOf (singleEditor qualifiedModel)
           (singleEditor qualifiedModel) qualifiedModel qualifiedModel
           (mkOptions false false) "file:///a.ts" exampleDiagnosticsWorker); reflexivity.
Defined.

(* ===================================================================== *)
(** * Properties of the signature help *)
(* ===================================================================== *)

Lemma append_assoc (a b c : string) : (a +:+ b) +:+ c = a +:+ (b +:+ c).
Proof.
  induction a as [|x a IH]; [reflexivity|].
  change (String x ((a +:+ b) +:+ c) = String x (a +:+ (b +:+ c))). by rewrite IH.
Qed.

Lemma append_empty_r (a : string) : a +:+ "" = a.
Proof.
  induction a as [|x a IH]; [reflexivity|].
  change (String x (a +:+ "") = String x a). by rewrite IH.
Qed.

Section SignatureHelpProperties.

Variable displayPartsToString : DisplayParts -> string.

Lemma addParameter_fields item n signature p i :
  si_label (addParameter displayPartsToString item n signature p i)
  = (si_label signature +:+ displayPartsToString (par_displayParts p))
    +:+ (if i <? n - 1 then displayPartsToString (separatorDisplayParts item) else "")
  /\ si_documentation (addParameter displayPartsToString item n signature p i)
     = si_documentation signature
  /\ si_parameters (addParameter displayPartsToString item n signature p i)
     = si_parameters signature
       ++ [ {| pi_label := displayPartsToString (par_displayParts p);
               pi_documentation := displayPartsToString (par_documentation p) |} ].
Proof.
  unfold addParameter. destruct (i <? n - 1); cbn [si_label si_documentation si_parameters].
  - by repeat split.
  - rewrite append_empty_r. by repeat split.
Qed.

(** The loop over the parameters of an item appends to the label the
    labels of the parameters with the separator between them, and to the
    parameters their labels and documentations. *)
Lemma forEachIndexed_addParameter item n :
  forall ps i signature,
    i + Z.of_nat (length ps) = n ->
    forEachIndexed (addParameter displayPartsToString item n) i ps signature
    = {| si_label :=
           si_label signature
           +:+ JS.join (displayPartsToString (separatorDisplayParts item))
                 (map (fun p => displayPartsToString (par_displayParts p)) ps);
         si_documentation := si_documentation signature;
         si_parameters :=
           si_parameters signature
           ++ map (fun p => {| pi_label := displayPartsToString (par_displayParts p);
                               pi_documentation :=
                                 displayPartsToString (par_documentation p) |}) ps |}.
Proof.
  induction ps as [|p ps IH]; intros i signature Hlen.
  - cbn [forEachIndexed map JS.join]. rewrite append_empty_r, app_nil_r. by destruct signature.
  - cbn [forEachIndexed]. cbn [length] in Hlen. rewrite IH by lia.
    destruct (addParameter_fields item n signature p i) as (-> & -> & ->).
    rewrite <- app_assoc. cbn [map app]. f_equal.
    destruct ps as [|p' ps].
    + replace (i <? n - 1) with false by (symmetry; apply Z.ltb_ge; cbn [length] in Hlen; lia).
      cbn [map JS.join]. by rewrite !append_empty_r.
    + replace (i <? n - 1) with true by (symmetry; apply Z.ltb_lt; cbn [length] in Hlen; lia).
      cbn [map JS.join]. by rewrite !append_assoc.
Qed.

(** X13: the signature help passes the selected signature and the argument
    index through, and has one signature per item, in the order of the
    items: its label is the prefix, the labels of the parameters joined by
    the separator (no separator after the last one, none for an item
    without parameters), and the suffix; its parameters carry their label
    and documentation. *)
Theorem signature_labels_joined info :
  signatureHelp_then displayPartsToString (Some info)
  = Some {| activeSignature := sh_selectedItemIndex info;
            activeParameter := sh_argumentIndex info;
            signatures := map (signatureSpelledOut displayPartsToString) (sh_items info) |}.
Proof.
  unfold signatureHelp_then. f_equal. f_equal.
  assert (Hfold : forall its acc,
             foldl (fun signatures item =>
                      signatures ++ [signatureOfItem displayPartsToString item]) acc its
             = acc ++ map (signatureSpelledOut displayPartsToString) its).
  { induction its as [|item its IH]; intros acc; cbn [foldl map].
    - by rewrite app_nil_r.
    - rewrite IH, <- app_assoc. f_equal. cbn [app]. f_equal.
      unfold signatureOfItem, signatureSpelledOut.
      rewrite forEachIndexed_addParameter by lia.
      cbn [si_label si_documentation si_parameters app String.append].
      by rewrite append_assoc. }
  apply (Hfold (sh_items info) []).
Qed.

End SignatureHelpProperties.

(* ===================================================================== *)
(** * Properties of the definitions, references and highlights *)
(* ===================================================================== *)

Lemma forEach_omap {A B} (f : list B -> A -> result (list B)) (g : A -> option B)
    (l : list A) :
  (forall b a, f b a = Ok (match g a with Some x => b ++ [x] | None => b end)) ->
  forall b, forEach f l b = Ok (b ++ omap g l).
Proof.
  intros Hf. induction l as [|a l IH]; intros b.
  - cbn. by rewrite app_nil_r.
  - cbn [forEach]. rewrite Hf. cbn [rbind]. rewrite IH. cbn [omap list_omap].
    destruct (g a); [by rewrite <- app_assoc | reflexivity].
Qed.

Section DefinitionProperties.

(** [Uri.parse], whatever it does to a file name. *)
Variable Uri_parse : string -> Uri.

Lemma pushDefinition_locationIn editor locations entry :
  pushDefinition Uri_parse editor locations entry
  = Ok (match locationIn editor (Uri_parse (def_fileName entry)) (def_textSpan entry) with
        | Some location => locations ++ [location]
        | None => locations
        end).
Proof.
  unfold pushDefinition, locationIn.
  destruct (editor (Uri_parse (def_fileName entry))) as [m|] eqn:Hopen; [|reflexivity].
  by rewrite (textSpanToRange_open _ _ m).
Qed.

(** X14: the definitions never fail and never point into a document that
    is not open: the locations are those of the entries whose file name
    [Uri.parse] turns into the [Uri] of an open document, in the order of
    the entries, each with that [Uri] and the range of its span in that
    document; the other entries are skipped. *)
Theorem definitions_in_open_documents editor entries :
  definition_then Uri_parse editor (Some entries)
  = Ok (Some (omap (fun entry =>
                      locationIn editor (Uri_parse (def_fileName entry))
                        (def_textSpan entry))
                   entries))
  /\ (forall location,
         In location (omap (fun entry =>
                              locationIn editor (Uri_parse (def_fileName entry))
                                (def_textSpan entry))
                           entries) ->
         exists entry m,
           In entry entries
           /\ loc_uri location = Uri_parse (def_fileName entry)
           /\ editor (loc_uri location) = Some m
           /\ loc_range location = spanRange m (def_textSpan entry)).
Proof.
  split.
  - unfold definition_then.
    rewrite (forEach_omap _ (fun entry =>
               locationIn editor (Uri_parse (def_fileName entry)) (def_textSpan entry))).
    + reflexivity.
    + intros b a. apply pushDefinition_locationIn.
  - intros location Hin.
    apply list_elem_of_In, list_elem_of_omap in Hin as (entry & Hentry & Hloc).
    unfold locationIn in Hloc.
    destruct (editor (Uri_parse (def_fileName entry))) as [m|] eqn:Hopen; [|discriminate].
    injection Hloc as <-. exists entry, m. cbn [loc_uri loc_range].
    split; [by apply list_elem_of_In|]. by repeat split.
Qed.

(** X15: the references are converted like the definitions: the locations of
    reference entries are those of the definitions with the same files
    and spans. *)
Theorem references_like_definitions editor entries :
  references_then Uri_parse editor entries
  = definition_then Uri_parse editor
      (map (fun entry => mkDefinitionInfo (ref_fileName entry) (ref_textSpan entry))
         <$> entries).
Proof.
  destruct entries as [entries|]; [|reflexivity].
  unfold references_then, definition_then. cbn [fmap option_fmap option_map].
  assert (Hloop : forall locations,
             forEach (pushReference Uri_parse editor) entries locations
             = forEach (pushDefinition Uri_parse editor)
                 (map (fun entry => mkDefinitionInfo (ref_fileName entry) (ref_textSpan entry))
                    entries) locations).
  { induction entries as [|entry entries IH]; intros locations; [reflexivity|].
    cbn [forEach map].
    change (pushDefinition Uri_parse editor locations
              (mkDefinitionInfo (ref_fileName entry) (ref_textSpan entry)))
      with (pushReference Uri_parse editor locations entry).
    destruct (pushReference Uri_parse editor locations entry); [apply IH | reflexivity]. }
  by rewrite Hloop.
Qed.

End DefinitionProperties.

(** X16: for an open document the highlights are one per occurrence, in the
    order of the occurrences, of kind Write for a write access and of kind
    Text otherwise (never Read); without an answer there is no list. *)
Theorem highlights_of_occurrences editor model m position getOccurrencesAtPosition :
  editor (model_uri model) = Some m ->
  provideDocumentHighlights editor model position getOccurrencesAtPosition
  = Ok (map (highlightOf m)
          <$> getOccurrencesAtPosition (model_uri model) (getOffsetAt m position)).
Proof.
  intros Hopen. unfold provideDocumentHighlights.
  rewrite (positionToOffset_open _ _ m) by assumption. cbn [rbind].
  destruct (getOccurrencesAtPosition _ _) as [entries|]; [|reflexivity].
  unfold documentHighlights_then.
  rewrite (mapM_ok _ (highlightOf m)); [reflexivity|].
  intros entry _. by rewrite (textSpanToRange_open _ _ m).
Qed.

Lemma highlights_of_occurrences_witness :
  provideDocumentHighlights (singleEditor qualifiedModel) qualifiedModel cursor
    (fun _ _ => Some [ mkReferenceEntry "file:///a.ts" (mkSpan 0 2) true;
                       mkReferenceEntry "file:///a.ts" (mkSpan 3 2) false ])
  = Ok (Some [ {| dh_range := mkRange 1 1 1 3; dh_kind := DHK_Write |};
               {| dh_range := mkRange 1 4 1 6; dh_kind := DHK_Text |} ]).
Proof.
  apply (highlights_of_occurrences (singleEditor qualifiedModel) qualifiedModel qualifiedModel
           cursor
           (fun _ _ => Some [ mkReferenceEntry "file:///a.ts" (mkSpan 0 2) true;
                              mkReferenceEntry "file:///a.ts" (mkSpan 3 2) false ])).
  reflexivity.
Defined.

(* ===================================================================== *)
(** * Properties of the formatting *)
(* ===================================================================== *)

(** X17: for an open document both formatting providers ask the worker with
    the offsets of the positions and the converted options, whose indent
    size is the tab size of the editor, and return one edit per text
    change, in order, with the new text and the range of the span of the
    change; without an answer there is no list. *)
Theorem formatting_edits_converted editor model m range position ch options forRange
    afterKeystroke :
  editor (model_uri model) = Some m ->
  provideDocumentRangeFormattingEdits editor model range options forRange
  = Ok (map (editOf m)
          <$> forRange (model_uri model)
                (getOffsetAt m (mkPosition (startLineNumber range) (startColumn range)))
                (getOffsetAt m (mkPosition (endLineNumber range) (endColumn range)))
                (_convertOptions options))
  /\ provideOnTypeFormattingEdits editor model position ch options afterKeystroke
     = Ok (map (editOf m)
             <$> afterKeystroke (model_uri model) (getOffsetAt m position) ch
                   (_convertOptions options))
  /\ IndentSize (_convertOptions options) = tabSize options
  /\ TabSize (_convertOptions options) = tabSize options
  /\ ConvertTabsToSpaces (_convertOptions options) = insertSpaces options.
Proof.
  intros Hopen.
  assert (Hthen : forall edits,
             formattingEdits_then editor (model_uri model) edits
             = Ok (map (editOf m) <$> edits)).
  { intros [edits|]; [|reflexivity]. unfold formattingEdits_then.
    rewrite (mapM_ok _ (editOf m)); [reflexivity|].
    intros change _. unfold _convertTextChanges.
    by rewrite (textSpanToRange_open _ _ m). }
  split; [|split; [|by repeat split]].
  - unfold provideDocumentRangeFormattingEdits.
    rewrite !(positionToOffset_open _ _ m) by assumption. cbn [rbind]. apply Hthen.
  - unfold provideOnTypeFormattingEdits.
    rewrite (positionToOffset_open _ _ m) by assumption. cbn [rbind]. apply Hthen.
Qed.

Lemma formatting_edits_converted_witness :
  provideOnTypeFormattingEdits (singleEditor qualifiedModel) qualifiedModel cursor ";"
    (mkFormattingOptions 4 true)
    (fun _ offset _ options =>
       Some [mkTextChange (mkSpan offset 0) (if ConvertTabsToSpaces options then " " else JS.tab)])
  = Ok (Some [ {| edit_text := " "; edit_range := mkRange 1 6 1 6 |} ]).
Proof.
  pose proof (formatting_edits_converted (singleEditor qualifiedModel) qualifiedModel
                qualifiedModel (mkRange 1 1 1 6) cursor ";" (mkFormattingOptions 4 true)
                (fun _ _ _ _ => None)
                (fun _ offset _ options =>
                   Some [mkTextChange (mkSpan offset 0)
                           (if ConvertTabsToSpaces options then " " else JS.tab)])
                eq_refl) as (_ & Htype & _).
  exact Htype.
Defined.

(* ===================================================================== *)
(** * The life cycle of the diagnostics adapter, event by event *)
(* ===================================================================== *)

Section DiagnosticsLifeCycle.

Variable _selector : string.

(** X18: as long as no document of the language of the adapter was created
    since its construction, a document has at most one pending timer, and
    a document without listener has none. *)
Theorem at_most_one_pending_timer s u :
  steady _selector s ->
  (length (pending u s) <= 1)%nat
  /\ (_listener s !! u = None -> pending u s = []).
Proof.
  intros [Hcore _]%steady_Inv. split.
  - by apply pending_at_most_one.
  - by apply pending_untracked.
Qed.

(** X19: as long as no document of the language of the adapter was created
    since its construction, at most one validation pass starts for a
    document when time passes: either none, or one for a document that
    has a listener, with the version the document has then. *)
Theorem tick_validates_at_most_once s u dt :
  steady _selector s ->
  validations u (effects (step _selector (Tick dt) s)) = validations u (effects s)
  \/ (exists id v,
         _listener s !! u = Some id
         /\ versionOf s u = Some v
         /\ validations u (effects (step _selector (Tick dt) s))
            = Some v :: validations u (effects s)).
Proof.
  intros [Hcore _]%steady_Inv. cbn [step]. rewrite validations_tick.
  pose proof (pending_at_most_one s u Hcore) as Hone.
  destruct (pending u s) as [|t [|t' l]] eqn:Hp; [by left| |cbn [length] in Hone; lia].
  cbn [List.filter]. destruct (is_due (clock s + Z.max 0 dt) t); [|by left]. right.
  destruct (pending_of_listener s u t Hcore) as (id & c & Hl & _); [rewrite Hp; by left|].
  destruct (getModel_open s u) as [m Hget]; [by eapply core_tracked|].
  exists id, (m_version m). split; [assumption|].
  unfold versionOf. rewrite Hget. by split.
Qed.

Lemma Disposed_step e s :
  Core s -> Disposed s ->
  Disposed (step _selector e s) /\ effects (step _selector e s) = effects s.
Proof.
  intros Hcore (Hh & Hd & Hl).
  destruct e as [u mode|u|u mode| |u|dt|]; cbn [step].
  - destruct (getModel s u); [by repeat split|].
    rewrite (has_hook_nil D_onDidChangeModelLanguage) by exact Hh.
    rewrite andb_false_r.
    rewrite (has_hook_nil D_onDidCreateModel) by exact Hh. by repeat split.
  - destruct (getModel s u) as [model|]; [|by repeat split].
    rewrite has_hook_nil by exact Hh.
    rewrite dropListeners_untracked; [by repeat split | assumption|].
    rewrite Hl. apply lookup_empty.
  - destruct (getModel s u) as [model0|]; [|by repeat split].
    destruct (String.eqb (m_modeId model0) mode); [by repeat split|].
    destruct (getModel (setModeId u mode s) u); [|by repeat split].
    rewrite has_hook_nil by exact Hh. by repeat split.
  - rewrite has_hook_nil by exact Hh. by repeat split.
  - destruct (step_change_other _selector u s Hcore) as (Hh' & Hd' & Hl' & _ & He').
    cbn [step] in Hh', Hd', Hl', He'. unfold Disposed. rewrite Hh', Hd', Hl', He'.
    by repeat split.
  - destruct (tick_other dt s) as (_ & _ & Hl' & _ & Hh' & Hd' & _).
    unfold Disposed. rewrite Hh', Hd', Hl'. split; [by repeat split|].
    unfold tick. rewrite (untracked_no_timers s Hcore Hl). reflexivity.
  - rewrite dispose_disposed by exact Hd. by repeat split.
Qed.

(** X20: [dispose] of an adapter in whose life no document of its language
    was created ends the work of the adapter: whatever happens in the
    editor afterwards (documents opened, changed or closed, languages or
    defaults changed, time passing), the adapter retracts no markers and
    starts no validation pass, no timer is pending and no document has a
    listener. A pass that started before [dispose] is not cancelled: its
    answers are published when they arrive, see [_doValidate_async]. *)
Theorem after_dispose_no_new_pass s events :
  steady _selector s ->
  effects (run _selector events (dispose _selector s)) = effects (dispose _selector s)
  /\ timers (run _selector events (dispose _selector s)) = []
  /\ _listener (run _selector events (dispose _selector s)) = ∅.
Proof.
  intros Hinv%steady_Inv.
  destruct (Inv_dispose _selector s Hinv) as (Hinv' & Hh & Hl & _).
  assert (Hdisposed : Disposed (dispose _selector s)) by (by repeat split).
  generalize dependent (dispose _selector s). clear s Hinv.
  induction events as [|e events IH]; intros s Hinv Hh Hl Hdisposed.
  - split; [reflexivity|]. split; [|assumption].
    apply untracked_no_timers; [by destruct Hinv | assumption].
  - rewrite run_cons.
    destruct (Disposed_step e s) as [Hdisposed' He]; [by destruct Hinv | assumption|].
    destruct (IH (step _selector e s)) as (He' & Ht' & Hl').
    + apply Inv_step; [assumption | by right].
    + by destruct Hdisposed'.
    + by destruct Hdisposed' as (_ & _ & ?).
    + assumption.
    + rewrite He', He. by repeat split.
Qed.

Lemma not_disposed_hooks s :
  Hooked s -> _disposables s <> [] -> hooks s = fourHooks.
Proof. intros [[Hh _]|(_ & Hd & _)] Hnot; [assumption | contradiction]. Qed.

(** X21: closing a document, before [dispose] and as long as no document of
    the language of the adapter was created since its construction: the
    markers of the document are retracted, its listener is gone and its
    timer, if one was pending, is cancelled, so that no validation pass
    starts for it when time passes. *)
Theorem closing_a_document s u model :
  steady _selector s ->
  _disposables s <> [] ->
  getModel s u = Some model ->
  let s' := step _selector (DisposeModel u) s in
  effects s' = ClearMarkers u _selector :: effects s
  /\ _listener s' !! u = None
  /\ pending u s' = []
  /\ getModel s' u = None
  /\ (forall dt, validations u (effects (step _selector (Tick dt) s'))
                 = validations u (effects s')).
Proof.
  intros Hsteady Hnot Hget s'.
  pose proof (steady_Inv _selector s Hsteady) as [Hcore Hhooked].
  pose proof (Inv_step _selector (DisposeModel u) s (conj Hcore Hhooked)
                (or_introl eq_refl)) as [Hcore' _].
  fold s' in Hcore'.
  pose proof (not_disposed_hooks s Hhooked Hnot) as Hh.
  destruct (getModel_Some s u model Hget) as [Hin Huri].
  destruct (onModelRemoved_other _selector model s) as (Hmo & _ & _ & _ & _ & Heff & Hli).
  assert (Hfree : _listener (onModelRemoved _selector model s) !! u = None)
    by (rewrite Hli, Huri; apply lookup_delete_eq).
  assert (Hs' : s' = set_models (List.filter (fun m => negb (has_uri u m)) (models s))
                       (onModelRemoved _selector model s)).
  { subst s'. cbn [step]. rewrite Hget.
    rewrite (has_hook_four D_onWillDisposeModel s Hh) by (cbn; tauto).
    rewrite dropListeners_untracked; [|by apply Core_onModelRemoved | assumption].
    by rewrite Hmo. }
  assert (Hl' : _listener s' !! u = None) by (rewrite Hs'; exact Hfree).
  assert (Hp' : pending u s' = []) by (by apply pending_untracked).
  split; [rewrite Hs'; cbn [effects set_models]; by rewrite Heff, Huri|].
  split; [assumption|]. split; [assumption|]. split.
  - apply getModel_None. rewrite Hs'. cbn [models set_models].
    intros (m & Hm & [_ Hf]%filter_In)%in_map_iff.
    apply negb_true_iff in Hf. apply has_uri_true in Hm. congruence.
  - intros dt. cbn [step]. rewrite validations_tick, Hp'. reflexivity.
Qed.

(** X23: as long as no document of the language of the adapter was created
    since its construction, a content change of a document without
    listener (a document of another language, or any document after
    [dispose]) starts no timer and no validation pass. *)
Theorem change_of_untracked_document s u :
  steady _selector s ->
  _listener s !! u = None ->
  let s' := step _selector (ChangeContent u) s in
  timers s' = timers s
  /\ effects s' = effects s
  /\ _listener s' = _listener s
  /\ closures s' = closures s.
Proof.
  intros [Hcore _]%steady_Inv Hl s'.
  destruct (step_change_untracked _selector s u Hcore Hl) as [Hs|Hs];
    subst s'; rewrite Hs; by repeat split.
Qed.

(** X24: a change of the language of a document, before [dispose] and as long
    as no document of the language of the adapter was created since its
    construction. Setting the language the document has already does
    nothing. Setting another language retracts the markers of the
    document and cancels its timer; when the new language is that of the
    adapter a validation pass starts at once and the document has a
    listener, else the document has no listener. *)
Theorem changing_the_language s u mode model :
  steady _selector s ->
  _disposables s <> [] ->
  getModel s u = Some model ->
  let s' := step _selector (SetModelLanguage u mode) s in
  (mode = m_modeId model -> s' = s)
  /\ (mode <> m_modeId model ->
      pending u s' = []
      /\ (mode = _selector ->
          effects s' = Validate u (Some (m_version model))
                       :: ClearMarkers u _selector :: effects s
          /\ is_Some (_listener s' !! u))
      /\ (mode <> _selector ->
          effects s' = ClearMarkers u _selector :: effects s
          /\ _listener s' !! u = None)).
Proof.
  intros Hsteady Hnot Hget s'. split.
  { intros ->. subst s'. cbn [step]. by rewrite Hget, String.eqb_refl. }
  intros Hdiffers.
  pose proof (steady_Inv _selector s Hsteady) as [Hcore Hhooked].
  pose proof (not_disposed_hooks s Hhooked Hnot) as Hh.
  destruct (getModel_Some s u model Hget) as [Hin Huri].
  set (s1 := setModeId u mode s).
  set (model' := mkModelState (m_uri model) mode (m_version model)).
  assert (Hget1 : getModel s1 u = Some model')
    by (unfold s1; rewrite getModel_setModeId, Hget; reflexivity).
  pose proof (Core_setModeId u mode s Hcore) as Hcore1. fold s1 in Hcore1.
  assert (Hs' : s' = onModelAdd _selector model' (onModelRemoved _selector model' s1)).
  { subst s'. cbn [step]. rewrite Hget.
    replace (String.eqb (m_modeId model) mode) with false
      by (symmetry; apply String.eqb_neq; congruence).
    fold s1. rewrite Hget1.
    by rewrite (has_hook_four D_onDidChangeModelLanguage s1 Hh) by (cbn; tauto). }
  set (s2 := onModelRemoved _selector model' s1) in *.
  destruct (onModelRemoved_other _selector model' s1) as (Hmo2 & _ & _ & _ & _ & Heff2 & Hli2).
  fold s2 in Hmo2, Heff2, Hli2.
  assert (Hcore2 : Core s2) by (by apply Core_onModelRemoved).
  assert (Hfree2 : _listener s2 !! u = None).
  { rewrite Hli2. cbn [m_uri model']. rewrite Huri. apply lookup_delete_eq. }
  destruct (onModelAdd_other _selector model' s2) as (Hmo & Hti & _).
  split.
  - rewrite Hs'. unfold pending. rewrite Hti. by apply (pending_untracked s2 u).
  - assert (Heff : effects s2 = ClearMarkers u _selector :: effects s).
    { rewrite Heff2. cbn [m_uri model']. by rewrite Huri. }
    split.
    + intros ->. rewrite Hs'. unfold onModelAdd. cbn [m_modeId model'].
      rewrite String.eqb_refl. cbn [negb]. cbv zeta.
      cbn [_doValidate effects add_effect set_listener set_closures _listener m_uri model'].
      split.
      * rewrite Heff, Huri. f_equal. f_equal.
        change (getModel (set_listener _ (set_closures _ s2)) u) with (getModel s2 u).
        by rewrite (getModel_models s1 s2 u Hmo2), Hget1.
      * rewrite Huri, lookup_insert_eq. by eexists.
    + intros Hne. rewrite Hs'. unfold onModelAdd. cbn [m_modeId model'].
      replace (String.eqb mode _selector) with false by (symmetry; by apply String.eqb_neq).
      cbn [negb]. by split.
Qed.

(** X25: until [dispose], the documents with a listener are exactly the open
    documents whose language is that of the adapter, whatever happened in
    the editor before. *)
Theorem listeners_follow_language s u :
  reachable _selector s ->
  _disposables s <> [] ->
  is_Some (_listener s !! u)
  <-> (exists m, getModel s u = Some m /\ m_modeId m = _selector).
Proof.
  intros Hreach Hnot.
  destruct (reachable_sound _selector s Hreach) as (Hsound & _ & _).
  rewrite (reachable_Tracking _selector s Hreach Hnot u).
  unfold ofLanguage. split.
  - intros (m & Hin & Hu & Hm). exists m. split; [|assumption].
    apply getModel_In; [by apply sound_models | assumption..].
  - intros (m & [Hin Hu]%getModel_Some & Hm). by exists m.
Qed.

Lemma onModelRemoved_timers m s t :
  In t (timers (onModelRemoved _selector m s)) -> In t (timers s).
Proof.
  unfold onModelRemoved. cbn [_listener add_effect].
  destruct (_listener s !! m_uri m) as [id|]; [|by intros H].
  unfold listener_dispose. cbn [closures add_effect].
  destruct (closures s !! id) as [c|]; [|by intros H].
  cbn [timers set_listener]. by intros [Hin _]%clearTimeout_timers.
Qed.

Lemma readd_timers m s t :
  In t (timers (onModelAdd _selector m (onModelRemoved _selector m s))) -> In t (timers s).
Proof.
  destruct (onModelAdd_other _selector m (onModelRemoved _selector m s)) as (_ & -> & _).
  apply onModelRemoved_timers.
Qed.

Lemma readd_all_timers l s t :
  In t (timers (foldl (fun s model =>
                         onModelAdd _selector model (onModelRemoved _selector model s)) s l)) ->
  In t (timers s).
Proof.
  revert s. induction l as [|m l IH]; intros s; [by intros H|].
  cbn [foldl]. intros Hin%IH. by apply readd_timers in Hin.
Qed.

Lemma pending_incl u s s' :
  (forall t, In t (timers s') -> In t (timers s)) -> pending u s = [] -> pending u s' = [].
Proof.
  intros Hincl Hp. unfold pending in *.
  destruct (List.filter _ (timers s')) as [|t l] eqn:Hf; [reflexivity|].
  assert (Hin : In t (List.filter (fun t => String.eqb (timer_uri t) u) (timers s')))
    by (rewrite Hf; by left).
  apply filter_In in Hin as [Hin Hu].
  assert (Hin' : In t (List.filter (fun t => String.eqb (timer_uri t) u) (timers s)))
    by (apply filter_In; split; [by apply Hincl | assumption]).
  rewrite Hp in Hin'. contradiction.
Qed.

Lemma readd_pending m s : 
  Core s -> pending (m_uri m) (onModelAdd _selector m (onModelRemoved _selector m s)) = [].
Proof.
  intros Hcore. unfold pending.
  destruct (onModelAdd_other _selector m (onModelRemoved _selector m s)) as (_ & -> & _).
  apply (pending_untracked (onModelRemoved _selector m s)); [by apply Core_onModelRemoved|].
  destruct (onModelRemoved_other _selector m s) as (_ & _ & _ & _ & _ & _ & ->).
  apply lookup_delete_eq.
Qed.

Lemma readd_all_pending l s u :
  Core s -> (forall m, In m l -> In (m_uri m) (map m_uri (models s))) ->
  In u (map m_uri l) ->
  pending u (foldl (fun s model =>
                      onModelAdd _selector model (onModelRemoved _selector model s)) s l) = [].
Proof.
  revert s. induction l as [|m l IH]; intros s Hcore Hopen Hin; [contradiction|].
  cbn [foldl]. destruct (readd_other _selector m s) as (Hmo & _).
  destruct (in_dec string_dec u (map m_uri l)) as [Hl|Hl].
  - apply IH; [apply Core_readd; [assumption | apply Hopen; by left] | | assumption].
    intros m' Hm'. rewrite Hmo. apply Hopen. by right.
  - destruct Hin as [<-|Hin]; [|contradiction].
    apply (pending_incl _ (onModelAdd _selector m (onModelRemoved _selector m s))).
    + intros t. apply readd_all_timers.
    + by apply readd_pending.
Qed.

Lemma readd_effects m s :
  effects (onModelAdd _selector m (onModelRemoved _selector m s))
  = if String.eqb (m_modeId m) _selector
    then Validate (m_uri m) (m_version <$> getModel s (m_uri m))
         :: ClearMarkers (m_uri m) _selector :: effects s
    else ClearMarkers (m_uri m) _selector :: effects s.
Proof.
  destruct (onModelRemoved_other _selector m s) as (Hmo & _ & _ & _ & _ & Heff & _).
  unfold onModelAdd. destruct (String.eqb (m_modeId m) _selector); cbn [negb]; [|exact Heff].
  cbv zeta. cbn [_doValidate effects add_effect set_listener set_closures].
  rewrite Heff. f_equal. f_equal.
  change (getModel (set_listener _ (set_closures _ (onModelRemoved _selector m s))) (m_uri m))
    with (getModel (onModelRemoved _selector m s) (m_uri m)).
  by rewrite (getModel_models s _ _ Hmo).
Qed.

Lemma readd_all_models l s :
  models (foldl (fun s model =>
                   onModelAdd _selector model (onModelRemoved _selector model s)) s l)
  = models s.
Proof.
  revert s. induction l as [|m l IH]; intros s; [reflexivity|].
  cbn [foldl]. rewrite IH. by destruct (readd_other _selector m s) as (-> & _).
Qed.

Lemma readd_all_validations_other l s u :
  (forall m, In m l -> m_uri m <> u) ->
  validations u (effects (foldl (fun s model =>
                                   onModelAdd _selector model
                                     (onModelRemoved _selector model s)) s l))
  = validations u (effects s).
Proof.
  revert s. induction l as [|m l IH]; intros s Hother; [reflexivity|].
  cbn [foldl]. rewrite IH by (intros m' Hm'; apply Hother; by right).
  rewrite readd_effects.
  assert (Hne : String.eqb (m_uri m) u = false)
    by (apply String.eqb_neq, Hother; by left).
  destruct (String.eqb (m_modeId m) _selector); [|reflexivity].
  rewrite validations_cons, Hne. reflexivity.
Qed.

(** X26: a change of the defaults, before [dispose] and as long as no document
    of the language of the adapter was created since its construction:
    for every open document the pending timer is cancelled; a document of
    the language of the adapter gets exactly one validation pass, at once
    and at its current version, a document of another language gets
    none. *)
Theorem defaults_change_revalidates s u m :
  steady _selector s ->
  _disposables s <> [] ->
  getModel s u = Some m ->
  let s' := step _selector ChangeDefaults s in
  pending u s' = []
  /\ getModel s' u = Some m
  /\ (m_modeId m = _selector ->
      validations u (effects s') = Some (m_version m) :: validations u (effects s))
  /\ (m_modeId m <> _selector ->
      validations u (effects s') = validations u (effects s)).
Proof.
  intros Hsteady Hnot Hget s'.
  pose proof (steady_Inv _selector s Hsteady) as [Hcore Hhooked].
  assert (Hh : hooks s = fourHooks).
  { destruct Hhooked as [[Hh _]|(_ & Hd & _)]; [assumption | contradiction]. }
  destruct (getModel_Some s u m Hget) as [Hin Huri].
  assert (Hs' : s' = foldl (fun s model =>
                              onModelAdd _selector model (onModelRemoved _selector model s))
                       s (models s)).
  { subst s'. cbn [step].
    by rewrite (has_hook_four D_onDidChangeDefaults s Hh) by (cbn; tauto). }
  split; [|split].
  - rewrite Hs'. apply readd_all_pending; [assumption | |].
    + intros m' Hm'. by apply in_map.
    + rewrite <- Huri. by apply in_map.
  - rewrite (getModel_models s s' u); [assumption|]. rewrite Hs'. apply readd_all_models.
  - pose proof (core_models s Hcore) as Hnd.
    destruct (in_split m (models s) Hin) as (l1 & l2 & Hsplit).
    rewrite Hsplit, map_app in Hnd. cbn [map] in Hnd.
    apply NoDup_app in Hnd as (_ & Hdisj & Hnd2).
    apply NoDup_cons_In in Hnd2 as [Hnot2 _].
    assert (Hl1 : forall m', In m' l1 -> m_uri m' <> u).
    { intros m' Hm' Heq. apply (Hdisj (m_uri m')).
      - apply list_elem_of_In. by apply in_map.
      - apply list_elem_of_In. left. congruence. }
    assert (Hl2 : forall m', In m' l2 -> m_uri m' <> u).
    { intros m' Hm' Heq. apply Hnot2. rewrite Huri, <- Heq. by apply in_map. }
    assert (Hval : validations u (effects s')
                   = validations u
                       (effects (onModelAdd _selector m
                                   (onModelRemoved _selector m
                                      (foldl (fun s model =>
                                                onModelAdd _selector model
                                                  (onModelRemoved _selector model s))
                                         s l1))))).
    { rewrite Hs', Hsplit, foldl_app. cbn [foldl].
      by apply readd_all_validations_other. }
    rewrite Hval, readd_effects.
    rewrite (getModel_models s _ (m_uri m) (readd_all_models l1 s)), Huri, Hget.
    split.
    + intros ->. rewrite String.eqb_refl, validations_cons, String.eqb_refl.
      cbn [fmap option_fmap option_map]. f_equal.
      change (validations u (ClearMarkers u _selector :: ?log)) with (validations u log).
      by apply readd_all_validations_other.
    + intros Hne. replace (String.eqb (m_modeId m) _selector) with false
        by (symmetry; by apply String.eqb_neq).
      change (validations u (ClearMarkers u _selector :: ?log)) with (validations u log).
      by apply readd_all_validations_other.
Qed.


(** ** The creation of a document *)

Lemma onModelAdd_language m s :
  m_modeId m = _selector ->
  closures (onModelAdd _selector m s) = closures s ++ [mkClosure (m_uri m) None true]
  /\ _listener (onModelAdd _selector m s)
     = <[m_uri m := length (closures s)]> (_listener s)
  /\ effects (onModelAdd _selector m s)
     = Validate (m_uri m) (versionOf s (m_uri m)) :: effects s.
Proof.
  intros Hm. unfold onModelAdd. rewrite Hm, String.eqb_refl. by repeat split.
Qed.

Lemma onModelRemoved_untracked m s :
  _listener s !! m_uri m = None ->
  onModelRemoved _selector m s = add_effect (ClearMarkers (m_uri m) _selector) s.
Proof. intros Hl. unfold onModelRemoved. cbn [_listener add_effect]. by rewrite Hl. Qed.

(** The listeners of a document whose closures were all added at the end
    of the list. *)
Lemma subscribers_append u s cs s' :
  (forall id c, closures s !! id = Some c -> c_subscribed c = true -> c_uri c <> u) ->
  closures s' = closures s ++ cs ->
  (forall c, In c cs -> c_subscribed c = true /\ c_uri c = u) ->
  subscribers u s' = seq (length (closures s)) (length cs).
Proof.
  intros Hnone Hcl Hcs. unfold subscribers.
  rewrite Hcl, length_app, seq_app, List.filter_app.
  rewrite filter_none, filter_all; [reflexivity | |].
  - intros id [Hge Hlt]%in_seq.
    rewrite lookup_app_r by lia.
    destruct (lookup_lt_is_Some_2 cs (id - length (closures s))) as [c Hc]; [lia|].
    rewrite Hc. destruct (Hcs c) as [-> ->].
    + apply list_elem_of_In. by eapply list_elem_of_lookup_2.
    + by rewrite String.eqb_refl.
  - intros id [_ Hlt]%in_seq.
    rewrite lookup_app_l by lia.
    destruct (closures s !! id) as [c|] eqn:Hc; [|reflexivity].
    destruct (c_subscribed c) eqn:Hsub; [|reflexivity].
    cbn. apply String.eqb_neq. by apply (Hnone id c).
Qed.

(** X22: the creation of a document, before [dispose]. The document is open
    at version 1 and no timer is started. A document of the language of
    the adapter is added twice, once by the listener of the language
    change and once by the listener of the creation: its markers are
    retracted, two validation passes start at once, two closures listen
    to its content and the second is its listener in the registry. When
    the language of the adapter is plain text, for which the editor
    announces no language change, the document is added once. A document
    of another language gets no listener and no pass. *)
Theorem opening_a_document s u mode :
  reachable _selector s ->
  _disposables s <> [] ->
  getModel s u = None ->
  let s' := step _selector (CreateModel u mode) s in
  let n := length (closures s) in
  versionOf s' u = Some 1
  /\ pending u s' = pending u s
  /\ (mode = _selector -> mode <> plaintext ->
      effects s' = Validate u (Some 1) :: Validate u (Some 1)
                   :: ClearMarkers u _selector :: effects s
      /\ _listener s' !! u = Some (S n)
      /\ subscribers u s' = [n; S n])
  /\ (mode = _selector -> mode = plaintext ->
      effects s' = Validate u (Some 1) :: effects s
      /\ _listener s' !! u = Some n
      /\ subscribers u s' = [n])
  /\ (mode <> _selector ->
      effects s' = (if String.eqb mode plaintext then []
                    else [ClearMarkers u _selector]) ++ effects s
      /\ _listener s' !! u = None
      /\ subscribers u s' = []).
Proof.
  intros Hreach Hnot Hget s' n.
  destruct (reachable_sound _selector s Hreach) as (Hsound & _ & Hhooked).
  pose proof (not_disposed_hooks s Hhooked Hnot) as Hh.
  pose proof (proj1 (getModel_None s u) Hget) as Hclosed.
  assert (Hfree : _listener s !! u = None).
  { destruct (_listener s !! u) as [id|] eqn:Hl; [|reflexivity].
    exfalso. apply Hclosed. by eapply sound_tracked. }
  assert (Hnone : forall id c, closures s !! id = Some c -> c_subscribed c = true ->
                               c_uri c <> u).
  { intros id c Hc Hsub Huri. apply Hclosed. rewrite <- Huri.
    by apply (sound_subscribed s Hsound id c). }
  set (model := mkModelState u mode 1).
  set (s1 := set_models (models s ++ [model]) s).
  assert (Hget1 : versionOf s1 u = Some 1).
  { unfold versionOf, getModel, s1. cbn [models set_models]. rewrite List.filter_app.
    unfold getModel in Hget.
    destruct (List.filter (has_uri u) (models s)); [|discriminate].
    cbn. unfold has_uri. cbn. by rewrite String.eqb_refl. }
  set (sR := onModelRemoved _selector model s1).
  assert (HsR : sR = add_effect (ClearMarkers u _selector) s1)
    by (apply (onModelRemoved_untracked model s1); exact Hfree).
  set (s2 := if negb (String.eqb mode plaintext)
             then onModelAdd _selector model sR else s1).
  assert (Hs' : s' = onModelAdd _selector model s2).
  { subst s' s2 sR. cbn [step]. rewrite Hget. fold model. fold s1.
    rewrite (has_hook_four D_onDidChangeModelLanguage s1 Hh) by (cbn; tauto).
    rewrite andb_true_r.
    assert (Hh2 : forall s2, hooks s2 = hooks s1 -> has_hook D_onDidCreateModel s2 = true).
    { intros s2 Hs2. apply has_hook_four; [by rewrite Hs2 | cbn; tauto]. }
    rewrite Hh2; [reflexivity|].
    destruct (negb (String.eqb mode plaintext)); [|reflexivity].
    by destruct (readd_other _selector model s1) as (_ & -> & _). }
  assert (Hsame : models s2 = models s1 /\ timers s2 = timers s).
  { subst s2. destruct (negb (String.eqb mode plaintext)); [|by split].
    destruct (onModelAdd_other _selector model sR) as (-> & -> & _).
    rewrite HsR. by split. }
  destruct Hsame as [Hmodels2 Htimers2].
  destruct (onModelAdd_other _selector model s2) as (Hmodels & Htimers & _).
  rewrite <- Hs' in Hmodels, Htimers.
  split; [|split].
  { rewrite (versionOf_models s1 s' u); [assumption | congruence]. }
  { unfold pending. by rewrite Htimers, Htimers2. }
  destruct (String.eqb_spec mode plaintext) as [Hplain|Hplain]; cbn [negb] in s2.
  - (* the language is plain text: one listener runs *)
    subst s2. split; [intros _ Hne; contradiction|]. split.
    + intros Hmode _.
      destruct (onModelAdd_language model s1 Hmode) as (Hcl & Hli & Heff).
      rewrite <- Hs' in Hcl, Hli, Heff.
      cbn [m_uri model] in Hcl, Hli, Heff.
      split; [by rewrite Heff, Hget1|].
      split; [rewrite Hli; apply lookup_insert_eq|].
      apply (subscribers_append u s [mkClosure u None true]); [assumption.. |].
      intros c [<-|[]]. by split.
    + intros Hmode. rewrite Hs'.
      rewrite (onModelAdd_other_language _selector model s1) by exact Hmode.
      split; [reflexivity|]. split; [assumption|].
      by apply (subscribers_append u s []); [| symmetry; apply app_nil_r | intros c []].
  - (* another language: both listeners run *)
    split; [|split; [intros _ Heq; contradiction|]].
    + intros Hmode _.
      destruct (onModelAdd_language model sR Hmode) as (Hcl1 & Hli1 & Heff1).
      fold s2 in Hcl1, Hli1, Heff1.
      destruct (onModelAdd_language model s2 Hmode) as (Hcl & Hli & Heff).
      rewrite <- Hs' in Hcl, Hli, Heff.
      cbn [m_uri model] in Hcl1, Hli1, Heff1, Hcl, Hli, Heff.
      assert (HclR : closures sR = closures s) by (by rewrite HsR).
      assert (HliR : _listener sR = _listener s) by (by rewrite HsR).
      assert (HeffR : effects sR = ClearMarkers u _selector :: effects s)
        by (by rewrite HsR).
      split; [|split].
      * rewrite Heff, Heff1, HeffR.
        rewrite (versionOf_models s1 s2 u Hmodels2), Hget1.
        rewrite (versionOf_models s1 sR u) by (by rewrite HsR).
        by rewrite Hget1.
      * rewrite Hli, Hcl1, HclR, length_app. cbn [length].
        rewrite lookup_insert_eq. f_equal. unfold n. lia.
      * rewrite (subscribers_append u s [mkClosure u None true; mkClosure u None true] s');
          [reflexivity | assumption | |].
        -- rewrite Hcl, Hcl1, HclR, <- app_assoc. reflexivity.
        -- intros c [<-|[<-|[]]]; by split.
    + intros Hmode. rewrite Hs'. unfold s2.
      rewrite !(onModelAdd_other_language _selector model) by exact Hmode.
      rewrite HsR. split; [reflexivity|]. split; [assumption|].
      by apply (subscribers_append u s []); [| symmetry; apply app_nil_r | intros c []].
Qed.

(** ** The documents are validated independently *)

(** The timer a handle names belongs to the document of the closure. *)
Lemma handle_owner s id c h t :
  Sound s -> Handles s ->
  closures s !! id = Some c -> c_handle c = Some h ->
  In t (timers s) -> timer_id t = h -> timer_uri t = c_uri c.
Proof.
  intros Hsound Hs Hc Hh Hin Hid.
  destruct (sound_timers s Hsound t Hin) as (id' & c' & Hc' & Hh' & Huri).
  assert (Heq : id = id').
  { apply (handles_unique s Hs id id' h); unfold handleOf.
    - by rewrite Hc.
    - rewrite Hc'. cbn. by rewrite Hh', Hid. }
  subst id'. rewrite Hc in Hc'. injection Hc' as <-. assumption.
Qed.

Lemma clearTimeout_pending_other id c s s1 u' :
  Sound s -> Handles s -> closures s !! id = Some c -> c_uri c <> u' ->
  timers s1 = timers s ->
  pending u' (clearTimeout (c_handle c) s1) = pending u' s.
Proof.
  intros Hsound Hs Hc Hne Htimers. unfold pending.
  destruct (c_handle c) as [h|] eqn:Hh; cbn [clearTimeout timers set_timers];
    rewrite Htimers; [|reflexivity].
  rewrite filter_comm. apply filter_all.
  intros t [Hin Hu%String.eqb_eq]%filter_In. apply negb_true_iff, Nat.eqb_neq.
  intros Hid. apply Hne. rewrite <- Hu. symmetry.
  by apply (handle_owner s id c h t).
Qed.

Lemma onModelRemoved_pending_other m s u' :
  Sound s -> Handles s -> m_uri m <> u' ->
  pending u' (onModelRemoved _selector m s) = pending u' s.
Proof.
  intros Hsound Hs Hne. unfold onModelRemoved. cbn [_listener add_effect].
  destruct (_listener s !! m_uri m) as [id|] eqn:Hl; [|reflexivity].
  destruct (sound_listener s Hsound _ id Hl) as (c & Hc & Huri & _).
  unfold listener_dispose. cbn [closures add_effect]. rewrite Hc.
  change (pending u' (set_listener _ ?s')) with (pending u' s').
  apply (clearTimeout_pending_other id c s); [assumption.. | by rewrite Huri | reflexivity].
Qed.

Lemma onModelAdd_pending m s u' :
  pending u' (onModelAdd _selector m s) = pending u' s.
Proof.
  unfold pending. by destruct (onModelAdd_other _selector m s) as (_ & -> & _).
Qed.

Lemma onModelAdd_effects_other m s u' :
  m_uri m <> u' ->
  validations u' (effects (onModelAdd _selector m s)) = validations u' (effects s).
Proof.
  intros Hne. unfold onModelAdd.
  destruct (negb (String.eqb (m_modeId m) _selector)); [reflexivity|].
  cbv zeta. cbn [_doValidate effects add_effect]. rewrite validations_cons.
  by replace (String.eqb (m_uri m) u') with false by (symmetry; by apply String.eqb_neq).
Qed.

Lemma onModelRemoved_effects m s u' :
  validations u' (effects (onModelRemoved _selector m s)) = validations u' (effects s).
Proof. by destruct (onModelRemoved_other _selector m s) as (_ & _ & _ & _ & _ & -> & _). Qed.

Lemma onModelAdd_listener_other m s u' :
  m_uri m <> u' -> _listener (onModelAdd _selector m s) !! u' = _listener s !! u'.
Proof.
  intros Hne. unfold onModelAdd.
  destruct (negb (String.eqb (m_modeId m) _selector)); [reflexivity|].
  cbv zeta. cbn [_doValidate _listener add_effect set_listener set_closures].
  by apply lookup_insert_ne.
Qed.

Lemma onModelRemoved_listener_other m s u' :
  m_uri m <> u' -> _listener (onModelRemoved _selector m s) !! u' = _listener s !! u'.
Proof.
  intros Hne. destruct (onModelRemoved_other _selector m s) as (_ & _ & _ & _ & _ & _ & ->).
  by apply lookup_delete_ne.
Qed.

(** Removing and adding one document leaves the others as they are. *)
Lemma readd_independent m s u' :
  Sound s -> Handles s -> m_uri m <> u' ->
  let s' := onModelAdd _selector m (onModelRemoved _selector m s) in
  pending u' s' = pending u' s
  /\ validations u' (effects s') = validations u' (effects s)
  /\ _listener s' !! u' = _listener s !! u'.
Proof.
  intros Hsound Hs Hne s'. subst s'.
  rewrite onModelAdd_pending, onModelAdd_effects_other, onModelAdd_listener_other
    by exact Hne.
  rewrite onModelRemoved_pending_other, onModelRemoved_effects,
    onModelRemoved_listener_other by assumption.
  done.
Qed.

(** A content listener keeps the document of every closure. *)
Lemma onDidChangeContent_uri id s id' c' :
  closures (onDidChangeContent id s) !! id' = Some c' ->
  exists c, closures s !! id' = Some c /\ c_uri c = c_uri c'.
Proof.
  unfold onDidChangeContent.
  destruct (closures s !! id) as [c|] eqn:Hc; [|intros Hc'; by exists c'].
  cbn [setTimeout]. cbn [closures set_closures set_nextTimer set_timers].
  rewrite (lookup_insert_closure _ id id' c)
    by (destruct (c_handle c); exact Hc).
  destruct (decide (id' = id)) as [->|Hne].
  - intros [= <-]. by exists c.
  - intros Hc'. exists c'. split; [|reflexivity].
    revert Hc'. by destruct (c_handle c).
Qed.

(** The content listener of a closure of another document leaves the
    timers of the document as they are. *)
Lemma onDidChangeContent_pending_other id s u' :
  Sound s -> Handles s ->
  (forall c, closures s !! id = Some c -> c_uri c <> u') ->
  pending u' (onDidChangeContent id s) = pending u' s.
Proof.
  intros Hsound Hs Hne. unfold onDidChangeContent.
  destruct (closures s !! id) as [c|] eqn:Hc; [|reflexivity].
  specialize (Hne c eq_refl).
  transitivity (pending u' (clearTimeout (c_handle c) s)).
  - unfold pending. cbn -[quietPeriod String.eqb]. rewrite List.filter_app.
    cbn -[quietPeriod].
    replace (String.eqb (c_uri c) u') with false by (symmetry; by apply String.eqb_neq).
    apply app_nil_r.
  - by apply (clearTimeout_pending_other id c s).
Qed.

Lemma fold_change_pending_other u u' ids s :
  Sound s -> Handles s -> u <> u' ->
  (forall id c, In id ids -> closures s !! id = Some c -> c_uri c = u) ->
  pending u' (foldl (fun s id => onDidChangeContent id s) s ids) = pending u' s.
Proof.
  intros Hsound Hs Hne. revert s Hsound Hs.
  induction ids as [|id ids IH]; intros s Hsound Hs Huri; [reflexivity|].
  cbn [foldl]. rewrite IH.
  - apply onDidChangeContent_pending_other; [assumption..|].
    intros c Hc. rewrite (Huri id c); [assumption | by left | assumption].
  - by apply Sound_onDidChangeContent.
  - by apply Handles_onDidChangeContent.
  - intros id' c' Hin (c & Hc & <-)%onDidChangeContent_uri.
    apply (Huri id' c); [by right | assumption].
Qed.

Lemma subscribers_uri u s id c :
  In id (subscribers u s) -> closures s !! id = Some c -> c_uri c = u.
Proof.
  unfold subscribers. intros [_ Hp]%filter_In Hc. rewrite Hc in Hp.
  by apply andb_true_iff in Hp as [_ Hu%String.eqb_eq].
Qed.

(** X27: an event about one document (created, changed, language changed,
    disposed) leaves every other document as it is: its listener, its
    pending timer and its validation passes. *)
Theorem documents_are_independent s e u u' :
  reachable _selector s ->
  eventDocument e = Some u ->
  u <> u' ->
  pending u' (step _selector e s) = pending u' s
  /\ validations u' (effects (step _selector e s)) = validations u' (effects s)
  /\ _listener (step _selector e s) !! u' = _listener s !! u'.
Proof.
  intros Hreach He Hne.
  destruct (reachable_sound _selector s Hreach) as (Hsound & Hs & _).
  destruct e as [u0 mode|u0|u0 mode| |u0|dt|]; try discriminate He;
    injection He as ->.
  - (* a document is created *)
    cbn [step]. destruct (getModel s u) as [m|] eqn:Hget; [done|].
    apply getModel_None in Hget.
    set (model := mkModelState u mode 1).
    pose proof (Sound_add_model model s Hsound Hget) as Hsound1.
    set (s1 := set_models (models s ++ [model]) s) in *.
    assert (Hs1 : Handles s1) by (revert Hs; apply Handles_same; reflexivity).
    set (s2 := if negb (String.eqb mode plaintext)
                  && has_hook D_onDidChangeModelLanguage s1
               then onModelAdd _selector model (onModelRemoved _selector model s1)
               else s1).
    assert (H2 : pending u' s2 = pending u' s
                 /\ validations u' (effects s2) = validations u' (effects s)
                 /\ _listener s2 !! u' = _listener s !! u').
    { subst s2. destruct (_ && _); [|done].
      by apply (readd_independent model s1). }
    destruct (has_hook D_onDidCreateModel s2); [|assumption].
    rewrite onModelAdd_pending, onModelAdd_effects_other, onModelAdd_listener_other
      by exact Hne.
    assumption.
  - (* a document is disposed *)
    cbn [step]. destruct (getModel s u) as [model|] eqn:Hget; [|done].
    destruct (getModel_Some s u model Hget) as [_ Huri].
    change (pending u' (set_models _ (dropListeners u ?s1))) with (pending u' s1).
    change (effects (set_models _ (dropListeners u ?s1))) with (effects s1).
    change (_listener (set_models _ (dropListeners u ?s1))) with (_listener s1).
    destruct (has_hook D_onWillDisposeModel s); [|done].
    rewrite onModelRemoved_pending_other, onModelRemoved_effects,
      onModelRemoved_listener_other by (assumption || congruence).
    done.
  - (* the language of a document changes *)
    cbn [step]. destruct (getModel s u) as [model0|] eqn:Hget; [|done].
    destruct (String.eqb (m_modeId model0) mode); [done|].
    set (s1 := setModeId u mode s).
    destruct (getModel s1 u) as [model'|] eqn:Hget1; [|done].
    destruct (getModel_Some s1 u model' Hget1) as [_ Huri].
    destruct (has_hook D_onDidChangeModelLanguage s1); [|done].
    apply (readd_independent model' s1); [| |congruence].
    + revert Hsound. apply Sound_same; try reflexivity.
      apply (map_uri_update (fun m => mkModelState (m_uri m) mode (m_version m))).
      reflexivity.
    + revert Hs. apply Handles_same; reflexivity.
  - (* the content of a document changes *)
    destruct (change_other _selector u s) as (_ & _ & Hli & _ & _ & Heff).
    rewrite Hli, Heff. split; [|done].
    cbn [step]. destruct (getModel s u); [|reflexivity].
    rewrite (fold_change_pending_other u u'); [reflexivity | | | assumption |].
    + revert Hsound. apply Sound_same; try reflexivity.
      apply (map_uri_update
               (fun m => mkModelState (m_uri m) (m_modeId m) (m_version m + 1))).
      reflexivity.
    + revert Hs. apply Handles_same; reflexivity.
    + intros id c Hin Hc. by apply (subscribers_uri u (bumpVersion u s) id c).
Qed.

(** ** The listener that is lost when a document is created *)

Lemma Orphan_same t s s' :
  timers s' = timers s -> closures s' = closures s -> _listener s' = _listener s ->
  Orphan t s -> Orphan t s'.
Proof. intros Ht Hc Hl [Hin Hno]. unfold Orphan. by rewrite Ht, Hc, Hl. Qed.

Lemma Orphan_onModelRemoved t m s :
  Orphan t s -> Orphan t (onModelRemoved _selector m s).
Proof.
  intros [Hin Hno]. unfold onModelRemoved. cbn [_listener add_effect].
  destruct (_listener s !! m_uri m) as [id|] eqn:Hl; [|by split].
  unfold listener_dispose. cbn [closures add_effect].
  destruct (closures s !! id) as [c|] eqn:Hc.
  - pose proof (Hno _ id c Hl Hc) as Hother. split.
    + cbn [timers set_listener]. apply clearTimeout_timers. by split.
    + intros u' id' c'. cbn [_listener closures set_listener].
      destruct (clearTimeout_other (c_handle c)
                  (set_closures (<[id := mkClosure (c_uri c) (c_handle c) false]> (closures s))
                     (add_effect (ClearMarkers (m_uri m) _selector) s)))
        as (-> & -> & _).
      cbn [_listener closures set_closures add_effect].
      intros [_ Hl']%lookup_delete_Some.
      rewrite (lookup_insert_closure _ id id' c) by exact Hc.
      destruct (decide (id' = id)) as [->|Hne]; [by intros [= <-]|].
      by apply (Hno u' id' c').
  - split; [exact Hin|]. intros u' id' c'. cbn [_listener closures set_listener add_effect].
    intros [_ Hl']%lookup_delete_Some. by apply (Hno u' id' c').
Qed.

Lemma Orphan_dispose_one t d s : Orphan t s -> Orphan t (dispose_one _selector d s).
Proof.
  intros Ho. destruct d; cbn [dispose_one];
    try (revert Ho; apply Orphan_same; reflexivity).
  generalize (models s). intros l. revert s Ho.
  induction l as [|m l IH]; intros s Ho; [assumption|].
  cbn [foldl]. by apply IH, Orphan_onModelRemoved.
Qed.

Lemma Orphan_dispose t s : Orphan t s -> Orphan t (dispose _selector s).
Proof.
  intros Ho. unfold dispose.
  apply (Orphan_same t (foldl (fun s d => dispose_one _selector d s) s (_disposables s)));
    [reflexivity.. |].
  generalize (_disposables s). intros l. revert s Ho.
  induction l as [|d l IH]; intros s Ho; [assumption|].
  cbn [foldl]. by apply IH, Orphan_dispose_one.
Qed.

Lemma dispose_clock s : clock (dispose _selector s) = clock s.
Proof.
  unfold dispose. cbn [clock set_disposables].
  generalize (_disposables s). intros l. revert s.
  induction l as [|d l IH]; intros s; [reflexivity|].
  cbn [foldl]. rewrite IH. destruct d; cbn [dispose_one]; try reflexivity.
  generalize (models s). intros ms. revert s.
  induction ms as [|m ms IHm]; intros s; [reflexivity|].
  cbn [foldl]. rewrite IHm.
  by destruct (onModelRemoved_other _selector m s) as (_ & _ & _ & _ & -> & _).
Qed.

(** The timer of a closure that is not the listener of its document in
    the registry is an orphan. *)
Lemma leak_Orphan s t id c :
  Sound s -> Handles s ->
  In t (timers s) -> closures s !! id = Some c -> c_handle c = Some (timer_id t) ->
  _listener s !! c_uri c <> Some id ->
  Orphan t s.
Proof.
  intros Hsound Hs Hin Hc Hh Hleak. split; [assumption|].
  intros u' id' c' Hl' Hc' Hh'.
  destruct (sound_listener s Hsound u' id' Hl') as (c0 & Hc0 & Huri & _).
  rewrite Hc' in Hc0. injection Hc0 as <-.
  assert (Heq : id' = id).
  { apply (handles_unique s Hs id' id (timer_id t)); unfold handleOf.
    - by rewrite Hc'.
    - by rewrite Hc. }
  subst id'. rewrite Hc in Hc'. injection Hc' as <-.
  apply Hleak. by rewrite Huri.
Qed.

(** An orphan outlives [dispose], and a validation pass starts when it
    fires. *)
Lemma Orphan_fires t s :
  Orphan t s ->
  In t (timers (dispose _selector s))
  /\ (forall dt, timer_due t <= clock s + Z.max 0 dt ->
        (length (validations (timer_uri t) (effects (dispose _selector s)))
         < length (validations (timer_uri t)
                     (effects (step _selector (Tick dt) (dispose _selector s)))))%nat).
Proof.
  intros [Hin _]%Orphan_dispose. split; [assumption|].
  intros dt Hdue. cbn [step]. rewrite validations_tick, length_app, repeat_length.
  rewrite dispose_clock.
  assert (Hfire : In t (List.filter (is_due (clock s + Z.max 0 dt))
                          (pending (timer_uri t) (dispose _selector s)))).
  { apply filter_In. split.
    - apply filter_In. split; [assumption | apply String.eqb_refl].
    - unfold is_due. by apply Z.leb_le. }
  destruct (List.filter _ _) as [|t' l]; [contradiction|]. cbn [length]. lia.
Qed.

(** X28: a timer that the variable [handle] of a closure names, where the
    closure is not the listener of its document in the registry, is not
    cancelled by [dispose]: it is still pending after [dispose], and when
    it is due a validation pass starts for its document, after
    [dispose]. *)
Theorem leaked_timer_survives_dispose s t id c :
  reachable _selector s ->
  In t (timers s) ->
  closures s !! id = Some c ->
  c_handle c = Some (timer_id t) ->
  _listener s !! c_uri c <> Some id ->
  In t (timers (dispose _selector s))
  /\ (forall dt, timer_due t <= clock s + Z.max 0 dt ->
        (length (validations (timer_uri t) (effects (dispose _selector s)))
         < length (validations (timer_uri t)
                     (effects (step _selector (Tick dt) (dispose _selector s)))))%nat).
Proof.
  intros (Hsound & Hs & _)%reachable_sound Hin Hc Hh Hleak.
  by apply Orphan_fires, (leak_Orphan s t id c).
Qed.

Lemma reachable_step e s : reachable _selector s -> reachable _selector (step _selector e s).
Proof.
  intros (now & ms & events & Hnd & ->).
  exists now, ms, (events ++ [e]). split; [assumption|]. by rewrite run_app.
Qed.

(** The state after the creation of a document of the language of the
    adapter: two closures more, the second in the registry. *)
Lemma create_language_fields s u :
  Sound s -> hooks s = fourHooks -> getModel s u = None -> _selector <> plaintext ->
  let s0 := step _selector (CreateModel u _selector) s in
  let n := length (closures s) in
  closures s0 = closures s ++ [mkClosure u None true; mkClosure u None true]
  /\ _listener s0 = <[u := S n]> (<[u := n]> (_listener s))
  /\ timers s0 = timers s /\ nextTimer s0 = nextTimer s /\ clock s0 = clock s
  /\ models s0 = models s ++ [mkModelState u _selector 1].
Proof.
  intros Hsound Hh Hget Hplain s0 n.
  pose proof (proj1 (getModel_None s u) Hget) as Hclosed.
  assert (Hfree : _listener s !! u = None).
  { destruct (_listener s !! u) as [id|] eqn:Hl; [|reflexivity].
    exfalso. apply Hclosed. by eapply sound_tracked. }
  set (model := mkModelState u _selector 1).
  set (s1 := set_models (models s ++ [model]) s).
  set (sR := onModelRemoved _selector model s1).
  assert (HsR : sR = add_effect (ClearMarkers u _selector) s1)
    by (apply (onModelRemoved_untracked model s1); exact Hfree).
  assert (Hs0 : s0 = onModelAdd _selector model (onModelAdd _selector model sR)).
  { subst s0 sR. cbn [step]. rewrite Hget. fold model. fold s1.
    rewrite (has_hook_four D_onDidChangeModelLanguage s1 Hh) by (cbn; tauto).
    replace (String.eqb _selector plaintext) with false
      by (symmetry; by apply String.eqb_neq).
    cbn [negb andb]. rewrite has_hook_four; [reflexivity | | cbn; tauto].
    by destruct (readd_other _selector model s1) as (_ & -> & _). }
  set (sA := onModelAdd _selector model sR) in *.
  destruct (onModelAdd_language model sR eq_refl) as (Hcl1 & Hli1 & _).
  destruct (onModelAdd_other _selector model sR) as (Hmo1 & Hti1 & Hnt1 & _ & _ & Hck1).
  fold sA in Hcl1, Hli1, Hmo1, Hti1, Hnt1, Hck1.
  destruct (onModelAdd_language model sA eq_refl) as (Hcl & Hli & _).
  destruct (onModelAdd_other _selector model sA) as (Hmo & Hti & Hnt & _ & _ & Hck).
  rewrite <- Hs0 in Hcl, Hli, Hmo, Hti, Hnt, Hck.
  cbn [m_uri model] in Hcl1, Hli1, Hcl, Hli.
  rewrite Hcl, Hli, Hmo, Hti, Hnt, Hck, Hcl1, Hli1, Hmo1, Hti1, Hnt1, Hck1, HsR.
  cbn [closures _listener models timers nextTimer clock add_effect set_models s1].
  rewrite <- app_assoc, length_app. cbn [length app].
  replace (length (closures s) + 1)%nat with (S n) by (unfold n; lia).
  by repeat split.
Qed.

(** The content listener of a closure whose variable [handle] is still
    [undefined]. *)
Lemma onDidChangeContent_fresh id c s :
  closures s !! id = Some c -> c_handle c = None ->
  onDidChangeContent id s
  = set_closures
      (<[id := mkClosure (c_uri c) (Some (nextTimer s)) (c_subscribed c)]> (closures s))
      (set_nextTimer (S (nextTimer s))
         (set_timers (timers s ++ [mkTimer (nextTimer s) (clock s + quietPeriod) (c_uri c)])
            s)).
Proof. intros Hc Hh. unfold onDidChangeContent. rewrite Hc, Hh. reflexivity. Qed.

(** X29: the creation of a document of the language of the adapter, before
    [dispose], when that language is not plain text: at the first change
    of the document two timers start, one per closure that listens to the
    document; [dispose] does not cancel the first, the one of the closure
    that the registry lost, and a validation pass starts for the document
    after [dispose] when the quiet period is over. *)
Theorem creation_leaks_a_listener s u :
  reachable _selector s ->
  _disposables s <> [] ->
  getModel s u = None ->
  _selector <> plaintext ->
  let s1 := step _selector (ChangeContent u) (step _selector (CreateModel u _selector) s) in
  let first := mkTimer (nextTimer s) (clock s + quietPeriod) u in
  let second := mkTimer (S (nextTimer s)) (clock s + quietPeriod) u in
  timers s1 = timers s ++ [first; second]
  /\ In first (timers (dispose _selector s1))
  /\ (forall dt, quietPeriod <= dt ->
        (length (validations u (effects (dispose _selector s1)))
         < length (validations u
                     (effects (step _selector (Tick dt) (dispose _selector s1)))))%nat).
Proof.
  intros Hreach Hnot Hget Hplain s1 first second.
  destruct (reachable_sound _selector s Hreach) as (Hsound & Hs & Hhooked).
  pose proof (not_disposed_hooks s Hhooked Hnot) as Hh.
  assert (Hreach1 : reachable _selector s1) by (by do 2 apply reachable_step).
  destruct (reachable_sound _selector s1 Hreach1) as (Hsound1 & Hs1 & _).
  destruct (create_language_fields s u Hsound Hh Hget Hplain)
    as (Hcl & Hli & Hti & Hnt & Hck & Hmo).
  set (s0 := step _selector (CreateModel u _selector) s) in *.
  set (n := length (closures s)) in *.
  set (sb := bumpVersion u s0).
  assert (Hsubs : subscribers u sb = [n; S n]).
  { apply (subscribers_append u s [mkClosure u None true; mkClosure u None true] sb).
    - intros id c Hc Hsub Huri. apply (proj1 (getModel_None s u) Hget).
      rewrite <- Huri. by apply (sound_subscribed s Hsound id c).
    - exact Hcl.
    - intros c [<-|[<-|[]]]; by split. }
  assert (Hstep : s1 = onDidChangeContent (S n) (onDidChangeContent n sb)).
  { subst s1. cbn [step]. fold s0.
    destruct (getModel_open s0 u) as [m0 ->].
    - rewrite Hmo, map_app. apply in_app_iff. right. by left.
    - fold sb. by rewrite Hsubs. }
  assert (Hfirst : closures sb !! n = Some (mkClosure u None true)).
  { change (closures sb) with (closures s0). rewrite Hcl. by apply list_lookup_middle. }
  rewrite (onDidChangeContent_fresh n _ sb Hfirst eq_refl) in Hstep.
  cbn [c_uri c_subscribed] in Hstep.
  set (sc := set_closures _ _) in Hstep.
  assert (Hsecond : closures sc !! S n = Some (mkClosure u None true)).
  { unfold sc. cbn [closures set_closures].
    rewrite list_lookup_insert_ne by lia.
    change (closures sb) with (closures s0). rewrite Hcl.
    rewrite lookup_app_r by (fold n; lia).
    fold n. by replace (S n - n)%nat with 1%nat by lia. }
  rewrite (onDidChangeContent_fresh (S n) _ sc Hsecond eq_refl) in Hstep.
  cbn [c_uri c_subscribed] in Hstep.
  assert (Htimers : timers s1 = timers s ++ [first; second]).
  { rewrite Hstep. unfold sc.
    cbn [timers set_closures set_nextTimer set_timers nextTimer clock].
    change (timers sb) with (timers s0). change (nextTimer sb) with (nextTimer s0).
    change (clock sb) with (clock s0).
    by rewrite Hti, Hnt, Hck, <- app_assoc. }
  assert (Hclock : clock s1 = clock s) by (rewrite Hstep; exact Hck).
  assert (Horphan : Orphan first s1).
  { apply (leak_Orphan s1 first n (mkClosure u (Some (nextTimer s)) true));
      [assumption | assumption | | | reflexivity |].
    - rewrite Htimers. apply in_app_iff. right. by left.
    - rewrite Hstep. unfold sc. cbn [closures set_closures set_nextTimer set_timers nextTimer].
      rewrite list_lookup_insert_ne by lia.
      change (nextTimer sb) with (nextTimer s0). rewrite Hnt.
      apply list_lookup_insert_eq. change (closures sb) with (closures s0).
      rewrite Hcl, length_app. cbn [length]. fold n. lia.
    - cbn [c_uri]. rewrite Hstep. unfold sc.
      cbn [_listener set_closures set_nextTimer set_timers].
      change (_listener sb) with (_listener s0).
      rewrite Hli, lookup_insert_eq. intros [= Heq]. lia. }
  destruct (Orphan_fires first s1 Horphan) as [Hkept Hfires].
  split; [assumption|]. split; [assumption|].
  intros dt Hdt. apply (Hfires dt). cbn [timer_due first]. rewrite Hclock. lia.
Qed.
End DiagnosticsLifeCycle.

Lemma openedState_steady : steady "typescript" openedState.
Proof.
  exists 0, [ mkModelState "file:///a.ts" "typescript" 1;
              mkModelState "file:///b.json" "json" 1 ],
         [].
  split; [exact NoDup_two_documents|]. split; reflexivity.
Defined.

Lemma at_most_one_pending_timer_witness :
  (length (pending "file:///a.ts" editedState) <= 1)%nat
  /\ (_listener editedState !! "file:///a.ts" = None
      -> pending "file:///a.ts" editedState = []).
Proof.
  apply (at_most_one_pending_timer "typescript" editedState "file:///a.ts").
  exact editedState_steady.
Defined.

Lemma tick_validates_at_most_once_witness :
  validations "file:///a.ts" (effects (step "typescript" (Tick 500) editedState))
  = validations "file:///a.ts" (effects editedState)
  \/ (exists id v,
         _listener editedState !! "file:///a.ts" = Some id
         /\ versionOf editedState "file:///a.ts" = Some v
         /\ validations "file:///a.ts" (effects (step "typescript" (Tick 500) editedState))
            = Some v :: validations "file:///a.ts" (effects editedState)).
Proof.
  apply (tick_validates_at_most_once "typescript" editedState "file:///a.ts" 500).
  exact editedState_steady.
Defined.

Lemma after_dispose_no_new_pass_witness :
  effects (run "typescript"
             [ChangeContent "file:///a.ts"; Tick 600; CreateModel "file:///c.ts" "typescript"]
             (dispose "typescript" editedState))
  = effects (dispose "typescript" editedState)
  /\ timers (run "typescript"
               [ChangeContent "file:///a.ts"; Tick 600; CreateModel "file:///c.ts" "typescript"]
               (dispose "typescript" editedState)) = []
  /\ _listener (run "typescript"
                  [ChangeContent "file:///a.ts"; Tick 600;
                   CreateModel "file:///c.ts" "typescript"]
                  (dispose "typescript" editedState)) = ∅.
Proof.
  apply (after_dispose_no_new_pass "typescript" editedState
           [ChangeContent "file:///a.ts"; Tick 600; CreateModel "file:///c.ts" "typescript"]).
  exact editedState_steady.
Defined.

Lemma closing_a_document_witness :
  effects (step "typescript" (DisposeModel "file:///a.ts") editedState)
  = ClearMarkers "file:///a.ts" "typescript" :: effects editedState
  /\ _listener (step "typescript" (DisposeModel "file:///a.ts") editedState)
     !! "file:///a.ts" = None
  /\ pending "file:///a.ts" (step "typescript" (DisposeModel "file:///a.ts") editedState) = []
  /\ getModel (step "typescript" (DisposeModel "file:///a.ts") editedState) "file:///a.ts"
     = None
  /\ (forall dt,
         validations "file:///a.ts"
           (effects (step "typescript" (Tick dt)
                       (step "typescript" (DisposeModel "file:///a.ts") editedState)))
         = validations "file:///a.ts"
             (effects (step "typescript" (DisposeModel "file:///a.ts") editedState))).
Proof.
  apply (closing_a_document "typescript" editedState "file:///a.ts"
           (mkModelState "file:///a.ts" "typescript" 2)).
  - exact editedState_steady.
  - vm_compute. discriminate.
  - vm_compute. reflexivity.
Defined.

Lemma opening_a_document_witness :
  effects (step "typescript" (CreateModel "file:///c.ts" "typescript") editedState)
  = Validate "file:///c.ts" (Some 1) :: Validate "file:///c.ts" (Some 1)
    :: ClearMarkers "file:///c.ts" "typescript" :: effects editedState
  /\ _listener (step "typescript" (CreateModel "file:///c.ts" "typescript") editedState)
     !! "file:///c.ts" = Some (S (length (closures editedState)))
  /\ subscribers "file:///c.ts"
       (step "typescript" (CreateModel "file:///c.ts" "typescript") editedState)
     = [length (closures editedState); S (length (closures editedState))].
Proof.
  destruct (opening_a_document "typescript" editedState "file:///c.ts" "typescript")
    as (_ & _ & Hlanguage & _).
  - exact editedState_reachable.
  - vm_compute. discriminate.
  - vm_compute. reflexivity.
  - apply Hlanguage; [reflexivity | discriminate].
Defined.

Lemma change_of_untracked_document_witness :
  timers (step "typescript" (ChangeContent "file:///b.json") editedState)
  = timers editedState
  /\ effects (step "typescript" (ChangeContent "file:///b.json") editedState)
     = effects editedState
  /\ _listener (step "typescript" (ChangeContent "file:///b.json") editedState)
     = _listener editedState
  /\ closures (step "typescript" (ChangeContent "file:///b.json") editedState)
     = closures editedState.
Proof.
  apply (change_of_untracked_document "typescript" editedState "file:///b.json").
  - exact editedState_steady.
  - vm_compute. reflexivity.
Defined.

Lemma changing_the_language_witness :
  pending "file:///b.json"
    (step "typescript" (SetModelLanguage "file:///b.json" "typescript") openedState) = []
  /\ effects (step "typescript" (SetModelLanguage "file:///b.json" "typescript") openedState)
     = Validate "file:///b.json" (Some 1)
       :: ClearMarkers "file:///b.json" "typescript" :: effects openedState
  /\ is_Some (_listener
                (step "typescript" (SetModelLanguage "file:///b.json" "typescript")
                   openedState) !! "file:///b.json").
Proof.
  destruct (changing_the_language "typescript" openedState "file:///b.json" "typescript"
              (mkModelState "file:///b.json" "json" 1)) as (_ & Hdiffers).
  - exact openedState_steady.
  - vm_compute. discriminate.
  - vm_compute. reflexivity.
  - destruct Hdiffers as (Hpending & Hlanguage & _); [discriminate|].
    split; [exact Hpending|]. apply Hlanguage. reflexivity.
Defined.

Lemma listeners_follow_language_witness :
  is_Some (_listener editedState !! "file:///a.ts")
  <-> (exists m, getModel editedState "file:///a.ts" = Some m /\ m_modeId m = "typescript").
Proof.
  apply (listeners_follow_language "typescript" editedState "file:///a.ts").
  - exact editedState_reachable.
  - vm_compute. discriminate.
Defined.

Lemma defaults_change_revalidates_witness :
  pending "file:///a.ts" (step "typescript" ChangeDefaults editedState) = []
  /\ getModel (step "typescript" ChangeDefaults editedState) "file:///a.ts"
     = Some (mkModelState "file:///a.ts" "typescript" 2)
  /\ (m_modeId (mkModelState "file:///a.ts" "typescript" 2) = "typescript" ->
      validations "file:///a.ts" (effects (step "typescript" ChangeDefaults editedState))
      = Some (m_version (mkModelState "file:///a.ts" "typescript" 2))
        :: validations "file:///a.ts" (effects editedState))
  /\ (m_modeId (mkModelState "file:///a.ts" "typescript" 2) <> "typescript" ->
      validations "file:///a.ts" (effects (step "typescript" ChangeDefaults editedState))
      = validations "file:///a.ts" (effects editedState)).
Proof.
  apply (defaults_change_revalidates "typescript" editedState "file:///a.ts"
           (mkModelState "file:///a.ts" "typescript" 2)).
  - exact editedState_steady.
  - vm_compute. discriminate.
  - vm_compute. reflexivity.
Defined.

Lemma documents_are_independent_witness :
  pending "file:///a.ts" (step "typescript" (ChangeContent "file:///b.json") editedState)
  = pending "file:///a.ts" editedState
  /\ validations "file:///a.ts"
       (effects (step "typescript" (ChangeContent "file:///b.json") editedState))
     = validations "file:///a.ts" (effects editedState)
  /\ _listener (step "typescript" (ChangeContent "file:///b.json") editedState)
     !! "file:///a.ts"
     = _listener editedState !! "file:///a.ts".
Proof.
  apply (documents_are_independent "typescript" editedState
           (ChangeContent "file:///b.json") "file:///b.json" "file:///a.ts").
  - exact editedState_reachable.
  - reflexivity.
  - discriminate.
Defined.

Lemma createdState_reachable : reachable "typescript" createdState.
Proof.
  exists 0, [], [CreateModel "file:///c.ts" "typescript"; ChangeContent "file:///c.ts"].
  split; [apply NoDup_nil_2 | reflexivity].
Defined.

Lemma leaked_timer_survives_dispose_witness :
  In (mkTimer 0 500 "file:///c.ts") (timers (dispose "typescript" createdState))
  /\ (forall dt, timer_due (mkTimer 0 500 "file:///c.ts") <= clock createdState + Z.max 0 dt ->
        (length (validations (timer_uri (mkTimer 0 500 "file:///c.ts"))
                   (effects (dispose "typescript" createdState)))
         < length (validations (timer_uri (mkTimer 0 500 "file:///c.ts"))
                     (effects (step "typescript" (Tick dt)
                                 (dispose "typescript" createdState)))))%nat).
Proof.
  apply (leaked_timer_survives_dispose "typescript" createdState
           (mkTimer 0 500 "file:///c.ts") 0%nat (mkClosure "file:///c.ts" (Some 0%nat) true)).
  - exact createdState_reachable.
  - vm_compute. left. reflexivity.
  - vm_compute. reflexivity.
  - reflexivity.
  - vm_compute. discriminate.
Defined.

Lemma creation_leaks_a_listener_witness :
  timers (step "typescript" (ChangeContent "file:///c.ts")
            (step "typescript" (CreateModel "file:///c.ts" "typescript")
               (DiagnostcsAdapter_new "typescript" 0 [])))
  = [mkTimer 0 500 "file:///c.ts"; mkTimer 1 500 "file:///c.ts"]
  /\ In (mkTimer 0 500 "file:///c.ts")
       (timers (dispose "typescript"
                  (step "typescript" (ChangeContent "file:///c.ts")
                     (step "typescript" (CreateModel "file:///c.ts" "typescript")
                        (DiagnostcsAdapter_new "typescript" 0 [])))))
  /\ (forall dt, quietPeriod <= dt ->
        (length (validations "file:///c.ts"
                   (effects (dispose "typescript"
                               (step "typescript" (ChangeContent "file:///c.ts")
                                  (step "typescript" (CreateModel "file:///c.ts" "typescript")
                                     (DiagnostcsAdapter_new "typescript" 0 []))))))
         < length (validations "file:///c.ts"
                     (effects (step "typescript" (Tick dt)
                                 (dispose "typescript"
                                    (step "typescript" (ChangeContent "file:///c.ts")
                                       (step "typescript"
                                          (CreateModel "file:///c.ts" "typescript")
                                          (DiagnostcsAdapter_new "typescript" 0 [])))))))
        )%nat).
Proof.
  apply (creation_leaks_a_listener "typescript" (DiagnostcsAdapter_new "typescript" 0 [])
           "file:///c.ts").
  - exists 0, [], []. split; [apply NoDup_nil_2 | reflexivity].
  - vm_compute. discriminate.
  - vm_compute. reflexivity.
  - discriminate.
Defined.
